(** * WhatsApp transcript parser: a shallow embedding of [parser.js]

    The development follows the source file by file and function by
    function.  Strings are sequences of UTF-16 code units, as in the
    JavaScript engine that runs the code; regular expressions are kept as
    syntax trees and run by a backtracking matcher, so that every pattern
    of the source is written down the way the source writes it. *)

From Stdlib Require Import ZArith NArith List Bool Lia String Ascii.
Import ListNotations.

Set Implicit Arguments.

(** ** Strings *)

Definition char := N.
Definition jsstring := list char.

(** ASCII literals of the source text. *)
Definition str (s : string) : jsstring :=
  List.map N_of_ascii (list_ascii_of_string s).

Definition eqc (a b : char) : bool := N.eqb a b.

Fixpoint eqs (a b : jsstring) : bool :=
  match a, b with
  | [], [] => true
  | x :: a', y :: b' => eqc x y && eqs a' b'
  | _, _ => false
  end.

Fixpoint starts_with (p s : jsstring) : bool :=
  match p, s with
  | [], _ => true
  | x :: p', y :: s' => eqc x y && starts_with p' s'
  | _ :: _, [] => false
  end.

(** [String.prototype.includes]. *)
Fixpoint includes (s p : jsstring) : bool :=
  starts_with p s ||
  match s with
  | [] => false
  | _ :: s' => includes s' p
  end.

Local Open Scope N_scope.

(** Character classes of ECMAScript regular expressions. *)
Definition is_digit (c : char) : bool := (48 <=? c) && (c <=? 57).

Definition is_line_terminator (c : char) : bool :=
  eqc c 10 || eqc c 13 || eqc c 8232 || eqc c 8233.

(** [\s], which is also the set removed by [String.prototype.trim]:
    WhiteSpace and LineTerminator code points. *)
Definition is_space (c : char) : bool :=
  ((9 <=? c) && (c <=? 13)) || eqc c 32 || eqc c 160 || eqc c 5760
  || ((8192 <=? c) && (c <=? 8202))
  || eqc c 8232 || eqc c 8233 || eqc c 8239 || eqc c 8287
  || eqc c 12288 || eqc c 65279.

(** U+202F NARROW NO-BREAK SPACE. *)
Definition NNBSP : char := 8239.

Definition dot (c : char) : bool := negb (is_line_terminator c).

(** Canonicalisation of the [i] flag (no [u] flag): a code unit is
    compared through its upper-case form, and a non-ASCII code unit is
    never identified with an ASCII one.  Every letter the patterns of the
    source compare against is ASCII, which is all this function is used on. *)
Definition upper_ascii (c : char) : char :=
  if (97 <=? c) && (c <=? 122) then c - 32 else c.

Definition eqc_i (a b : char) : bool := eqc (upper_ascii a) (upper_ascii b).

Local Close Scope N_scope.

(** ** Regular expressions *)

(** The fragment of the regular-expression language that the source uses.
    Every quantifier of the source applies to a single character class. *)
Inductive regex : Type :=
| Eps
| Cls (p : char -> bool)
| Seq (a b : regex)
| Alt (a b : regex)
| Rep (greedy : bool) (p : char -> bool) (lo : nat) (hi : option nat)
| Grp (n : nat) (a : regex)
| Bol
| Eol.

Definition Lit (c : char) : regex := Cls (eqc c).
Definition LitI (c : char) : regex := Cls (eqc_i c).

Fixpoint Str (s : jsstring) : regex :=
  match s with
  | [] => Eps
  | c :: s' => Seq (Lit c) (Str s')
  end.

Fixpoint StrI (s : jsstring) : regex :=
  match s with
  | [] => Eps
  | c :: s' => Seq (LitI c) (StrI s')
  end.

Fixpoint Alts (l : list regex) : regex :=
  match l with
  | [] => Cls (fun _ => false)
  | [a] => a
  | a :: l' => Alt a (Alts l')
  end.

Fixpoint Seqs (l : list regex) : regex :=
  match l with
  | [] => Eps
  | a :: l' => Seq a (Seqs l')
  end.

Definition captures := list (option jsstring).

Fixpoint upd (n : nat) (v : jsstring) (c : captures) : captures :=
  match n, c with
  | _, [] => []
  | O, _ :: c' => Some v :: c'
  | S n', x :: c' => x :: upd n' v c'
  end.

Definition room (hi : option nat) : bool :=
  match hi with
  | Some O => false
  | _ => true
  end.

Definition within (hi : option nat) (n : nat) : Prop :=
  match hi with
  | Some h => n <= h
  | None => True
  end.

(** A quantified character class.  A greedy quantifier tries the longer
    run first, a lazy one the shorter. *)
Fixpoint rep (greedy : bool) (p : char -> bool) (lo : nat) (hi : option nat)
         (i : nat) (s : jsstring)
         (k : nat -> jsstring -> option captures) {struct s} : option captures :=
  let stop (_ : unit) := if Nat.eqb lo 0 then k i s else None in
  let more (_ : unit) :=
    match s with
    | x :: s' =>
        if p x && room hi
        then rep greedy p (Nat.pred lo) (option_map Nat.pred hi) (S i) s' k
        else None
    | [] => None
    end in
  if greedy
  then match more tt with Some r => Some r | None => stop tt end
  else match stop tt with Some r => Some r | None => more tt end.

(** The backtracking matcher, in continuation-passing style: [i] is the
    index of the cursor, [s] the input from the cursor on. *)
Fixpoint m (r : regex) (i : nat) (s : jsstring) (c : captures)
         (k : nat -> jsstring -> captures -> option captures) : option captures :=
  match r with
  | Eps => k i s c
  | Cls p =>
      match s with
      | x :: s' => if p x then k (S i) s' c else None
      | [] => None
      end
  | Seq a b => m a i s c (fun i' s' c' => m b i' s' c' k)
  | Alt a b =>
      match m a i s c k with
      | Some r => Some r
      | None => m b i s c k
      end
  | Rep g p lo hi => rep g p lo hi i s (fun i' s' => k i' s' c)
  | Grp n a => m a i s c (fun i' s' c' => k i' s' (upd n (firstn (i' - i) s) c'))
  | Bol => if Nat.eqb i 0 then k i s c else None
  | Eol => match s with [] => k i s c | _ :: _ => None end
  end.

Fixpoint ngroups (r : regex) : nat :=
  match r with
  | Seq a b | Alt a b => Nat.max (ngroups a) (ngroups b)
  | Grp n a => Nat.max n (ngroups a)
  | _ => 0
  end.

Definition accept (_ : nat) (_ : jsstring) (c : captures) : option captures := Some c.

Definition match_at (r : regex) (i : nat) (s : jsstring) : option captures :=
  m (Grp 0 r) i s (repeat None (S (ngroups r))) accept.

(** [RegExp.prototype.exec] without the [g] flag: the leftmost start index
    at which the pattern matches.  Slot 0 of the result is the whole match,
    slot [n] the text of group [n]. *)
Fixpoint scan (r : regex) (i : nat) (s : jsstring) : option captures :=
  match match_at r i s with
  | Some c => Some c
  | None =>
      match s with
      | [] => None
      | _ :: s' => scan r (S i) s'
      end
  end.

(** [str.match(re)] for a pattern without the [g] flag. *)
Definition exec (r : regex) (s : jsstring) : option captures := scan r 0 s.

(** [re.test(str)]. *)
Definition test (r : regex) (s : jsstring) : bool :=
  match exec r s with Some _ => true | None => false end.

Definition group (n : nat) (c : captures) : option jsstring :=
  nth n c None.

(** ** The built-in string functions the parser calls *)

Definition ch (a : ascii) : char := N_of_ascii a.

Fixpoint drop_while (p : char -> bool) (s : jsstring) : jsstring :=
  match s with
  | [] => []
  | c :: s' => if p c then drop_while p s' else s
  end.

Fixpoint take_while (p : char -> bool) (s : jsstring) : jsstring :=
  match s with
  | [] => []
  | c :: s' => if p c then c :: take_while p s' else []
  end.

(** [String.prototype.trim]. *)
Definition trim (s : jsstring) : jsstring :=
  rev (drop_while is_space (rev (drop_while is_space s))).

(** [str.split(sep)] for a separator that is one code unit of the class
    [p]: the pieces between the separators, always at least one piece. *)
Fixpoint split_on (p : char -> bool) (s : jsstring) : list jsstring :=
  match s with
  | [] => [[]]
  | c :: s' =>
      if p c then [] :: split_on p s'
      else match split_on p s' with
           | piece :: pieces => (c :: piece) :: pieces
           | [] => [[c]]
           end
  end.

(** [arr.pop()] read as an expression: the last element, if any. *)
Definition pop (l : list jsstring) : option jsstring :=
  match rev l with
  | [] => None
  | x :: _ => Some x
  end.

(** [str.padStart(2, '0')]. *)
Definition padStart2 (s : jsstring) : jsstring :=
  match s with
  | [] => [ch "0"; ch "0"]
  | [c] => [ch "0"; c]
  | _ => s
  end.

(** [content.replace(/\r\n/g, '\n')]. *)
Fixpoint replace_crlf (s : jsstring) : jsstring :=
  match s with
  | [] => []
  | c :: s' =>
      match s' with
      | d :: s'' =>
          if eqc c 13%N && eqc d 10%N then 10%N :: replace_crlf s''
          else c :: replace_crlf s'
      | [] => [c]
      end
  end.

(** [line.replace(/[\u200E\u200F\u202A-\u202E]/g, '')]. *)
Definition is_invisible (c : char) : bool :=
  eqc c 8206%N || eqc c 8207%N || ((8234 <=? c)%N && (c <=? 8238)%N).

Definition strip_invisible (s : jsstring) : jsstring :=
  filter (fun c => negb (is_invisible c)) s.

(** [String.prototype.toLowerCase], exact on ASCII and on the two other
    code points whose lower-case form contains an ASCII letter (U+212A
    KELVIN SIGN and U+0130); any other code unit is left as it is, its
    lower-case form being non-ASCII text as well.  The source only compares
    the result with ASCII extension names. *)
Definition lower_unit (c : char) : jsstring :=
  if (65 <=? c)%N && (c <=? 90)%N then [(c + 32)%N]
  else if eqc c 8490%N then [107%N]
  else if eqc c 304%N then [105%N; 775%N]
  else [c].

Definition toLowerCase (s : jsstring) : jsstring := flat_map lower_unit s.

(** Decimal numerals. *)
Fixpoint uint_chars (u : Decimal.uint) : jsstring :=
  match u with
  | Decimal.Nil => []
  | Decimal.D0 u' => 48%N :: uint_chars u'
  | Decimal.D1 u' => 49%N :: uint_chars u'
  | Decimal.D2 u' => 50%N :: uint_chars u'
  | Decimal.D3 u' => 51%N :: uint_chars u'
  | Decimal.D4 u' => 52%N :: uint_chars u'
  | Decimal.D5 u' => 53%N :: uint_chars u'
  | Decimal.D6 u' => 54%N :: uint_chars u'
  | Decimal.D7 u' => 55%N :: uint_chars u'
  | Decimal.D8 u' => 56%N :: uint_chars u'
  | Decimal.D9 u' => 57%N :: uint_chars u'
  end.

Definition dec (n : N) : jsstring := uint_chars (N.to_uint n).

Definition digit_value (c : char) : Z := Z.of_N c - 48.

Definition dec_value (s : jsstring) : Z :=
  fold_left (fun acc c => acc * 10 + digit_value c)%Z s 0%Z.

(** ** Outcomes *)

Inductive error : Type := TypeError | RangeError.

(** What a call does: it returns, it throws, or it leaves the part of the
    language this development gives a meaning to ([Beyond]: a number that
    is not a small non-negative integer, a date string whose reading the
    language standard leaves to the implementation). *)
Inductive result (A : Type) : Type :=
| Ok (a : A)
| Throw (e : error)
| Beyond.

Arguments Ok {A} a.
Arguments Throw {A} e.
Arguments Beyond {A}.

Definition bind {A B : Type} (x : result A) (f : A -> result B) : result B :=
  match x with
  | Ok a => f a
  | Throw e => Throw e
  | Beyond => Beyond
  end.

Notation "x <- e ;; k" := (bind e (fun x => k))
  (at level 61, e at next level, right associativity).

(** A method call on a value that may be [undefined]. *)
Definition defined {A : Type} (v : option A) : result A :=
  match v with
  | Some a => Ok a
  | None => Throw TypeError
  end.

(** A string or [undefined] inside a template literal or handed to a
    function that wants a string. *)
Definition display (v : option jsstring) : jsstring :=
  match v with
  | Some s => s
  | None => str "undefined"
  end.

(** ** Numbers *)

(** A number of the program: an integer small enough to be an exact
    double, or [NaN]. *)
Inductive jsnum : Type :=
| Int (z : Z)
| NaN.

(** The characters a numeric literal can be made of: digits, signs, the
    point, exponent and radix letters, hexadecimal digits and the letters
    of [Infinity]. *)
Definition numeric_char (c : char) : bool :=
  is_digit c
  || existsb (eqc c) (str "+-.eExXoObBaAcCdDfFInity").

(** [Number(s)]: white space around the literal is ignored, the empty
    literal is 0, a run of at most 15 decimal digits is the integer it
    writes, and text with a character that no numeric literal contains is
    [NaN].  Signs, fractions, exponents, radix prefixes, [Infinity] and
    longer digit runs are left out. *)
Definition Number (s : jsstring) : result jsnum :=
  let t := trim s in
  match t with
  | [] => Ok (Int 0)
  | _ :: _ =>
      if forallb is_digit t
      then if Nat.leb (List.length t) 15 then Ok (Int (dec_value t)) else Beyond
      else if forallb numeric_char t then Beyond else Ok NaN
  end.

Definition hex_value (c : char) : option Z :=
  if is_digit c then Some (Z.of_N c - 48)%Z
  else if (97 <=? c)%N && (c <=? 102)%N then Some (Z.of_N c - 87)%Z
  else if (65 <=? c)%N && (c <=? 70)%N then Some (Z.of_N c - 55)%Z
  else None.

Definition is_hex (c : char) : bool :=
  match hex_value c with Some _ => true | None => false end.

Definition hex_string_value (s : jsstring) : Z :=
  fold_left (fun acc c => acc * 16 + match hex_value c with Some v => v | None => 0 end)%Z
            s 0%Z.

(** [parseInt(s)] without a radix; [None] is [NaN].  The value is the
    mathematical one: the program only compares it with 12, and rounding
    to a double is monotone and leaves 12 and 13 alone. *)
Definition parseInt (s : jsstring) : option Z :=
  let t := drop_while is_space s in
  let '(negative, t1) :=
    match t with
    | c :: t' =>
        if eqc c (ch "-") then (true, t')
        else if eqc c (ch "+") then (false, t')
        else (false, t)
    | [] => (false, t)
    end in
  let '(hex, t2) :=
    match t1 with
    | z :: x :: t' =>
        if eqc z (ch "0") && (eqc x (ch "x") || eqc x (ch "X"))
        then (true, t') else (false, t1)
    | _ => (false, t1)
    end in
  let ds := take_while (if hex then is_hex else is_digit) t2 in
  match ds with
  | [] => None
  | _ :: _ =>
      let v := if hex then hex_string_value ds else dec_value ds in
      Some (if negative then - v else v)%Z
  end.

(** [n > 12]. *)
Definition gt12 (n : option Z) : bool :=
  match n with
  | Some z => (12 <? z)%Z
  | None => false
  end.

(** [String(n)] and [n.toString()] for a number of the program. *)
Definition num_string (n : jsnum) : jsstring :=
  match n with
  | Int z =>
      if (z <? 0)%Z then ch "-" :: dec (Z.to_N (- z)) else dec (Z.to_N z)
  | NaN => str "NaN"
  end.

(** [n === k] for an integer [k]. *)
Definition num_is (n : jsnum) (k : Z) : bool :=
  match n with
  | Int z => (z =? k)%Z
  | NaN => false
  end.

(** [n + k]. *)
Definition num_add (n : jsnum) (k : Z) : jsnum :=
  match n with
  | Int z => Int (z + k)
  | NaN => NaN
  end.

(** [n || 0], also for [n] undefined. *)
Definition or_zero (n : option jsnum) : jsnum :=
  match n with
  | Some (Int z) => Int z
  | Some NaN => Int 0
  | None => Int 0
  end.

(** [period === 'PM'] where [period] may be undefined. *)
Definition is_string (v : option jsstring) (s : jsstring) : bool :=
  match v with
  | Some t => eqs t s
  | None => false
  end.

(** ** The patterns of the source *)

Definition digits (lo hi : nat) : regex := Rep true is_digit lo (Some hi).

Definition not_colon (c : char) : bool := negb (eqc c (ch ":")).

Definition A_or_P (c : char) : bool := eqc c (ch "A") || eqc c (ch "P").

(** [[\s\u202F]]. *)
Definition time_gap (c : char) : bool := is_space c || eqc c NNBSP.

(** [\d{1,2}\/\d{1,2}\/\d{2}] *)
Definition DATE : regex :=
  Seqs [digits 1 2; Lit (ch "/"); digits 1 2; Lit (ch "/"); digits 2 2].

(** [\d{1,2}:\d{2}:\d{2} [AP]M] *)
Definition TIME_1 : regex :=
  Seqs [digits 1 2; Lit (ch ":"); digits 2 2; Lit (ch ":"); digits 2 2;
        Lit (ch " "); Cls A_or_P; Lit (ch "M")].

(** [\d{1,2}:\d{2}[\s\u202F][AP]M] *)
Definition TIME_2 : regex :=
  Seqs [digits 1 2; Lit (ch ":"); digits 2 2; Cls time_gap; Cls A_or_P; Lit (ch "M")].

(** Format 1, [/^\[(\d{1,2}\/\d{1,2}\/\d{2}), (\d{1,2}:\d{2}:\d{2} [AP]M)\] ([^:]+): (.{0,})$/]
    (the source writes the last group with a star). *)
Definition MESSAGE_START_PATTERN_1 : regex :=
  Seqs [Bol; Lit (ch "["); Grp 1 DATE; Str (str ", "); Grp 2 TIME_1; Str (str "] ");
        Grp 3 (Rep true not_colon 1 None); Str (str ": ");
        Grp 4 (Rep true dot 0 None); Eol].

(** Format 2, [/^(\d{1,2}\/\d{1,2}\/\d{2}), (\d{1,2}:\d{2}[\s\u202F][AP]M) - ([^:]+): (.{0,})$/]. *)
Definition MESSAGE_START_PATTERN_2 : regex :=
  Seqs [Bol; Grp 1 DATE; Str (str ", "); Grp 2 TIME_2; Str (str " - ");
        Grp 3 (Rep true not_colon 1 None); Str (str ": ");
        Grp 4 (Rep true dot 0 None); Eol].

(** Format 2 without a sender, [/^(\d{1,2}\/\d{1,2}\/\d{2}), (\d{1,2}:\d{2}[\s\u202F][AP]M) - (.+)$/]. *)
Definition MESSAGE_START_PATTERN_2_SYSTEM : regex :=
  Seqs [Bol; Grp 1 DATE; Str (str ", "); Grp 2 TIME_2; Str (str " - ");
        Grp 3 (Rep true dot 1 None); Eol].

(** [/<attached: (.+?)>/] *)
Definition MEDIA_ATTACHED_PATTERN : regex :=
  Seqs [Str (str "<attached: "); Grp 1 (Rep false dot 1 None); Lit (ch ">")].

Definition media_extensions : list string :=
  ["jpg"; "jpeg"; "png"; "gif"; "webp"; "mp4"; "avi"; "mov"; "mkv"; "opus";
   "mp3"; "ogg"; "aac"; "m4a"; "pdf"; "doc"; "docx"; "xls"; "xlsx"]%string.

(** [/^(.+?\.(jpg|jpeg|...|xlsx)) \(file attached\)/i] *)
Definition MEDIA_ATTACHED_PATTERN_2 : regex :=
  Seqs [Bol;
        Grp 1 (Seqs [Rep false dot 1 None; LitI (ch ".");
                     Grp 2 (Alts (List.map (fun e => StrI (str e)) media_extensions))]);
        StrI (str " (file attached)")].

(** [/image omitted|video omitted|audio omitted|sticker omitted|document omitted/i] *)
Definition MEDIA_OMITTED_PATTERN : regex :=
  Alts (List.map (fun e => StrI (str e))
          ["image omitted"; "video omitted"; "audio omitted"; "sticker omitted";
           "document omitted"]%string).

Definition SYSTEM_MESSAGE_INDICATORS : list jsstring :=
  List.map str
    ["created this group"; "added you"; "left"; "removed"; "changed the subject";
     "changed this group's icon"; "Messages and calls are end-to-end encrypted"]%string.

(** ** [parseDateTime] *)

(** The choice of [day] and [month] among the fields of the date. *)
Definition day_month (parts : list jsstring) (formatType : nat)
  : option jsstring * option jsstring :=
  let first := parseInt (display (nth_error parts 0)) in
  let second := parseInt (display (nth_error parts 1)) in
  if gt12 first then (nth_error parts 0, nth_error parts 1)
  else if gt12 second then (nth_error parts 1, nth_error parts 0)
  else if Nat.eqb formatType 2 then (nth_error parts 1, nth_error parts 0)
  else (nth_error parts 0, nth_error parts 1).

(** The conversion to the 24-hour clock. *)
Definition to_24h (period : option jsstring) (hours : jsnum) : jsnum :=
  if is_string period (str "PM") && negb (num_is hours 12) then num_add hours 12
  else if is_string period (str "AM") && num_is hours 12 then Int 0
  else hours.

Definition parseDateTime (dateStr timeStr : jsstring) (formatType : nat)
  : result jsstring :=
  let parts := split_on (eqc (ch "/")) dateStr in
  let year := nth_error parts 2 in
  let fullYear := str "20" ++ display year in
  let '(day, month) := day_month parts formatType in
  let pieces := split_on time_gap timeStr in
  let time := nth 0 pieces [] in
  let period := nth_error pieces 1 in
  let timeParts := List.map Number (split_on (eqc (ch ":")) time) in
  hours <- nth 0 timeParts (Ok NaN) ;;
  minutes <- match nth_error timeParts 1 with
             | Some n => v <- n ;; Ok (Some v)
             | None => Ok None
             end ;;
  seconds <- match nth_error timeParts 2 with
             | Some n => v <- n ;; Ok (or_zero (Some v))
             | None => Ok (or_zero None)
             end ;;
  let hours := to_24h period hours in
  month <- defined month ;;
  day <- defined day ;;
  minutes <- defined minutes ;;
  Ok (fullYear ++ ch "-" :: padStart2 month ++ ch "-" :: padStart2 day
      ++ ch "T" :: padStart2 (num_string hours)
      ++ ch ":" :: padStart2 (num_string minutes)
      ++ ch ":" :: padStart2 (num_string seconds)).

(** ** [analyzeMessage] *)

(** The values of [type]: ['text'], ['media'], ['media_omitted'], ['system']. *)
Inductive msg_type : Type := Text | Media | MediaOmitted | System.

(** The values of [mediaType]. *)
Inductive media_type : Type := Image | Video | Audio | Document.

Record media_info : Type := { filename : jsstring; mediaType : media_type }.

Record analysis : Type := { a_type : msg_type; a_media : option media_info }.

Definition isSystemMessage (content : jsstring) : bool :=
  existsb (fun indicator => includes content indicator) SYSTEM_MESSAGE_INDICATORS.

(** [list.includes(ext)] for a list of extension names. *)
Definition ext_in (l : list string) (ext : jsstring) : bool :=
  existsb (fun e => eqs (str e) ext) l.

(** The chain of tests on [ext] that both attachment branches go through. *)
Definition media_type_of (ext : jsstring) : media_type :=
  if ext_in ["jpg"; "jpeg"; "png"; "gif"; "webp"]%string ext then Image
  else if ext_in ["mp4"; "avi"; "mov"; "mkv"]%string ext then Video
  else if ext_in ["opus"; "mp3"; "ogg"; "aac"; "m4a"]%string ext then Audio
  else if ext_in ["pdf"; "doc"; "docx"; "xls"; "xlsx"]%string ext then Document
  else Document.

Definition analyzeMessage (content : jsstring) : result analysis :=
  match exec MEDIA_ATTACHED_PATTERN content with
  | Some attachedMatch =>
      filename <- defined (group 1 attachedMatch) ;;
      last <- defined (pop (split_on (eqc (ch ".")) filename)) ;;
      let ext := toLowerCase last in
      Ok {| a_type := Media;
            a_media := Some {| filename := filename; mediaType := media_type_of ext |} |}
  | None =>
      match exec MEDIA_ATTACHED_PATTERN_2 content with
      | Some attachedMatch2 =>
          filename <- defined (group 1 attachedMatch2) ;;
          ext2 <- defined (group 2 attachedMatch2) ;;
          let ext := toLowerCase ext2 in
          Ok {| a_type := Media;
                a_media := Some {| filename := filename; mediaType := media_type_of ext |} |}
      | None =>
          if test MEDIA_OMITTED_PATTERN content
          then Ok {| a_type := MediaOmitted; a_media := None |}
          else if isSystemMessage content
               then Ok {| a_type := System; a_media := None |}
               else Ok {| a_type := Text; a_media := None |}
      end
  end.

(** ** [parseChatFile] *)

Record message : Type := {
  id : jsstring;
  timestamp : jsstring;
  sender : jsstring;
  content : jsstring;
  type : msg_type;
  media : option media_info
}.

(** The variables of the loop. *)
Record loop_state : Type := {
  messages : list message;
  currentMessage : option message;
  messageId : nat
}.

Definition msg_id (n : nat) : jsstring := str "msg_" ++ dec (N.of_nat n).

(** The three attempts on a line: the match, [isSystemMessage] and
    [formatType] as they stand after the last attempt. *)
Definition match_start (line : jsstring) : option captures * bool * nat :=
  match exec MESSAGE_START_PATTERN_1 line with
  | Some mt => (Some mt, false, 1)
  | None =>
      match exec MESSAGE_START_PATTERN_2 line with
      | Some mt => (Some mt, false, 2)
      | None =>
          match exec MESSAGE_START_PATTERN_2_SYSTEM line with
          | Some mt => (Some mt, true, 2)
          | None => (None, false, 1)
          end
      end
  end.

(** [messages.push(currentMessage)] under [if (currentMessage)]. *)
Definition push_current (st : loop_state) : list message :=
  match currentMessage st with
  | Some cur => messages st ++ [cur]
  | None => messages st
  end.

(** The record a start line opens. *)
Definition new_message (mt : captures) (isSystem : bool) (formatType : nat)
           (n : nat) : result message :=
  if isSystem then
    dateStr <- defined (group 1 mt) ;;
    timeStr <- defined (group 2 mt) ;;
    messageContent <- defined (group 3 mt) ;;
    timestamp <- parseDateTime dateStr timeStr formatType ;;
    Ok {| id := msg_id n; timestamp := timestamp; sender := str "System";
          content := trim messageContent; type := System; media := None |}
  else
    dateStr <- defined (group 1 mt) ;;
    timeStr <- defined (group 2 mt) ;;
    sender <- defined (group 3 mt) ;;
    messageContent <- defined (group 4 mt) ;;
    timestamp <- parseDateTime dateStr timeStr formatType ;;
    analysis <- analyzeMessage messageContent ;;
    Ok {| id := msg_id n; timestamp := timestamp; sender := trim sender;
          content := trim messageContent;
          type := a_type analysis; media := a_media analysis |}.

Definition append_line (cur : message) (line : jsstring) : message :=
  {| id := id cur; timestamp := timestamp cur; sender := sender cur;
     content := content cur ++ 10%N :: line;
     type := type cur; media := media cur |}.

(** What a line is once the invisible marks are gone and it is trimmed. *)
Definition clean (raw : jsstring) : jsstring := trim (strip_invisible raw).

(** One turn of the loop. *)
Definition step (st : loop_state) (raw : jsstring) : result loop_state :=
  let line := clean raw in
  match line with
  | [] => Ok st
  | _ :: _ =>
      match match_start line with
      | (Some mt, isSystem, formatType) =>
          let pushed := push_current st in
          msg <- new_message mt isSystem formatType (S (messageId st)) ;;
          Ok {| messages := pushed; currentMessage := Some msg;
                messageId := S (messageId st) |}
      | (None, _, _) =>
          match currentMessage st with
          | Some cur =>
              Ok {| messages := messages st;
                    currentMessage := Some (append_line cur line);
                    messageId := messageId st |}
          | None => Ok st
          end
      end
  end.

Fixpoint run (st : loop_state) (lines : list jsstring) : result loop_state :=
  match lines with
  | [] => Ok st
  | raw :: lines' => st' <- step st raw ;; run st' lines'
  end.

Definition initial : loop_state :=
  {| messages := []; currentMessage := None; messageId := 0 |}.

(** The loop over the lines, and the last message added after it. *)
Definition parseLines (lines : list jsstring) : result (list message) :=
  st <- run initial lines ;;
  Ok (push_current st).

(** [parseChatFile], from the text that [readFile] has returned. *)
Definition parseChatFile (fileText : jsstring) : result (list message) :=
  let content := replace_crlf fileText in
  let lines := split_on (eqc 10%N) content in
  parseLines lines.

(** ** Dates, as [extractMetadata] uses them *)

(** The machine the program runs on: the offset of its time zone, in
    minutes east of UTC (a zone without daylight saving), and the reading
    of the clock by [new Date()], in milliseconds since the epoch. *)
Record env : Type := { tzOffset : Z; now : Z }.

Local Open Scope Z_scope.

Definition is_leap (y : Z) : bool :=
  (y mod 4 =? 0) && (negb (y mod 100 =? 0) || (y mod 400 =? 0)).

Definition days_in_month (y mo : Z) : Z :=
  if mo =? 2 then (if is_leap y then 29 else 28)
  else if (mo =? 4) || (mo =? 6) || (mo =? 9) || (mo =? 11) then 30
  else 31.

(** The day number of a date of the proleptic Gregorian calendar, day 0
    being 1970-01-01. *)
Definition days_from_civil (y mo d : Z) : Z :=
  let y' := if mo <=? 2 then y - 1 else y in
  let era := y' / 400 in
  let yoe := y' - era * 400 in
  let doy := (153 * (if 2 <? mo then mo - 3 else mo + 9) + 2) / 5 + d - 1 in
  let doe := yoe * 365 + yoe / 4 - yoe / 100 + doy in
  era * 146097 + doe - 719468.

(** The date of a day number. *)
Definition civil_from_days (z : Z) : Z * Z * Z :=
  let z' := z + 719468 in
  let era := z' / 146097 in
  let doe := z' - era * 146097 in
  let yoe := (doe - doe / 1460 + doe / 36524 - doe / 146096) / 365 in
  let doy := doe - (365 * yoe + yoe / 4 - yoe / 100) in
  let mp := (5 * doy + 2) / 153 in
  let d := doy - (153 * mp + 2) / 5 + 1 in
  let mo := if mp <? 10 then mp + 3 else mp - 9 in
  let y := yoe + era * 400 in
  (if mo <=? 2 then y + 1 else y, mo, d).

Definition msPerDay : Z := 86400000.

(** A run of decimal digits read as a number. *)
Definition field (s : jsstring) : option Z :=
  if forallb is_digit s then Some (dec_value s) else None.

(** [new Date(s)] for a date-time without offset, [YYYY-MM-DDTHH:mm:ss],
    that names a moment of the calendar: it is read as local time.  For
    any other text the language standard lets the implementation choose. *)
Definition Date_parse (e : env) (s : jsstring) : result Z :=
  match s with
  | [y1; y2; y3; y4; h1; m1; m2; h2; d1; d2; t; hh1; hh2; c1; mi1; mi2; c2; s1; s2] =>
      match field [y1; y2; y3; y4], field [m1; m2], field [d1; d2],
            field [hh1; hh2], field [mi1; mi2], field [s1; s2] with
      | Some y, Some mo, Some d, Some hh, Some mi, Some ss =>
          if eqc h1 (ch "-") && eqc h2 (ch "-") && eqc t (ch "T")
             && eqc c1 (ch ":") && eqc c2 (ch ":")
             && (1 <=? mo) && (mo <=? 12) && (1 <=? d) && (d <=? days_in_month y mo)
             && (hh <=? 23) && (mi <=? 59) && (ss <=? 59)
          then Ok (days_from_civil y mo d * msPerDay
                   + ((hh * 60 + mi) * 60 + ss) * 1000
                   - tzOffset e * 60000)
          else Beyond
      | _, _, _, _, _, _ => Beyond
      end
  | _ => Beyond
  end.

(** [str.padStart(width, '0')]. *)
Definition pad_zeros (width : nat) (s : jsstring) : jsstring :=
  repeat (ch "0") (width - List.length s) ++ s.

(** [date.toISOString().split('T')[0]]: the calendar date of the moment in
    UTC. *)
Definition iso_date (ms : Z) : jsstring :=
  let '(y, mo, d) := civil_from_days (ms / msPerDay) in
  let year :=
    if (0 <=? y) && (y <=? 9999) then pad_zeros 4 (dec (Z.to_N y))
    else (if y <? 0 then ch "-" else ch "+") :: pad_zeros 6 (dec (Z.to_N (Z.abs y))) in
  year ++ ch "-" :: pad_zeros 2 (dec (Z.to_N mo)) ++ ch "-" :: pad_zeros 2 (dec (Z.to_N d)).

Local Close Scope Z_scope.

(** ** [extractMetadata] *)

Record date_range : Type := { start : option jsstring; end_ : option jsstring }.

Record metadata : Type := {
  chatName : jsstring;
  exportDate : jsstring;
  messageCount : nat;
  participants : list jsstring;
  dateRange : date_range
}.

(** [participants.add(x)] on a [Set], kept in insertion order. *)
Definition set_add (x : jsstring) (l : list jsstring) : list jsstring :=
  if existsb (eqs x) l then l else l ++ [x].

Definition is_system (t : msg_type) : bool :=
  match t with System => true | _ => false end.

(** The variables the [forEach] callback updates. *)
Record fold_state : Type := {
  seen : list jsstring;
  earliestDate : option Z;
  latestDate : option Z
}.

Definition visit (e : env) (st : fold_state) (msg : message) : result fold_state :=
  let seen' := if negb (is_system (type msg)) then set_add (sender msg) (seen st)
               else seen st in
  msgDate <- Date_parse e (timestamp msg) ;;
  let earliest :=
    match earliestDate st with
    | None => msgDate
    | Some d => if (msgDate <? d)%Z then msgDate else d
    end in
  let latest :=
    match latestDate st with
    | None => msgDate
    | Some d => if (d <? msgDate)%Z then msgDate else d
    end in
  Ok {| seen := seen'; earliestDate := Some earliest; latestDate := Some latest |}.

Fixpoint forEach (e : env) (st : fold_state) (msgs : list message) : result fold_state :=
  match msgs with
  | [] => Ok st
  | msg :: msgs' => st' <- visit e st msg ;; forEach e st' msgs'
  end.

Definition extractMetadata (e : env) (msgs : list message) (name : jsstring)
  : result metadata :=
  st <- forEach e {| seen := []; earliestDate := None; latestDate := None |} msgs ;;
  Ok {| chatName := name;
        exportDate := iso_date (now e);
        messageCount := List.length msgs;
        participants := seen st;
        dateRange := {| start := option_map iso_date (earliestDate st);
                        end_ := option_map iso_date (latestDate st) |} |}.

(** ** The single-format parser, [parser/src/parser.js] *)

Module Legacy.

(** [parseDateTime(dateStr, timeStr)] of the file that only knows the
    bracketed format. *)
Definition parseDateTime (dateStr timeStr : jsstring) : result jsstring :=
  let parts := split_on (eqc (ch "/")) dateStr in
  let day := nth_error parts 0 in
  let month := nth_error parts 1 in
  let year := nth_error parts 2 in
  let fullYear := str "20" ++ display year in
  let pieces := split_on (eqc (ch " ")) timeStr in
  let time := nth 0 pieces [] in
  let period := nth_error pieces 1 in
  let timeParts := List.map Number (split_on (eqc (ch ":")) time) in
  hours <- nth 0 timeParts (Ok NaN) ;;
  minutes <- match nth_error timeParts 1 with
             | Some n => v <- n ;; Ok (Some v)
             | None => Ok None
             end ;;
  seconds <- match nth_error timeParts 2 with
             | Some n => v <- n ;; Ok (Some v)
             | None => Ok None
             end ;;
  let hours := to_24h period hours in
  month <- defined month ;;
  day <- defined day ;;
  minutes <- defined minutes ;;
  seconds <- defined seconds ;;
  Ok (fullYear ++ ch "-" :: padStart2 month ++ ch "-" :: padStart2 day
      ++ ch "T" :: padStart2 (num_string hours)
      ++ ch ":" :: padStart2 (num_string minutes)
      ++ ch ":" :: padStart2 (num_string seconds)).

End Legacy.

(** ** [htmlGenerator.js] *)

(** U+0022 QUOTATION MARK. *)
Definition quote : char := 34%N.

(** [str.replace(re, fn)] for a pattern with the [g] flag: the matches are
    taken from left to right, each search starting where the match before
    it ended, and one code unit further after an empty match; what lies
    between the matches is kept.  [i] is the index of the cursor and
    [skip] the number of code units of the current match that the cursor
    has still to pass. *)
Fixpoint replace_from (r : regex) (fn : captures -> jsstring) (i skip : nat)
         (s : jsstring) {struct s} : jsstring :=
  match skip with
  | S skip' =>
      match s with
      | [] => []
      | _ :: s' => replace_from r fn (S i) skip' s'
      end
  | O =>
      match match_at r i s with
      | Some c =>
          fn c ++
          match List.length (display (group 0 c)), s with
          | S n, _ :: s' => replace_from r fn (S i) n s'
          | O, x :: s' => x :: replace_from r fn (S i) 0 s'
          | _, [] => []
          end
      | None =>
          match s with
          | [] => []
          | x :: s' => x :: replace_from r fn (S i) 0 s'
          end
      end
  end.

Definition replace_all (r : regex) (fn : captures -> jsstring) (s : jsstring)
  : jsstring :=
  replace_from r fn 0 0 s.

(** [str.replace(re, text)] for a replacement text without a dollar sign. *)
Definition replace_with (r : regex) (text : jsstring) (s : jsstring) : jsstring :=
  replace_all r (fun _ => text) s.

Definition escapeHtml (text : jsstring) : jsstring :=
  match text with
  | [] => []
  | _ :: _ =>
      replace_with (Lit (ch "'")) (str "&#039;")
        (replace_with (Lit quote) (str "&quot;")
           (replace_with (Lit (ch ">")) (str "&gt;")
              (replace_with (Lit (ch "<")) (str "&lt;")
                 (replace_with (Lit (ch "&")) (str "&amp;") text))))
  end.

(** [[^\s]] *)
Definition not_space (c : char) : bool := negb (is_space c).

(** [/(https?:\/\/[^\s]+|www\.[^\s]+)/gi] *)
Definition urlPattern : regex :=
  Grp 1 (Alt (Seqs [StrI (str "http"); Rep true (eqc_i (ch "s")) 0 (Some 1);
                    StrI (str "://"); Rep true not_space 1 None])
             (Seqs [StrI (str "www"); LitI (ch "."); Rep true not_space 1 None])).

(** [name="value"] *)
Definition attr (name value : jsstring) : jsstring :=
  name ++ ch "=" :: quote :: value ++ [quote].

(** The callback of [linkifyText]. *)
Definition anchor (url : jsstring) : jsstring :=
  let href := if starts_with (str "www.") url then str "https://" ++ url else url in
  str "<a " ++ attr (str "href") href ++ str " " ++ attr (str "target") (str "_blank")
  ++ str " " ++ attr (str "rel") (str "noopener noreferrer") ++ str ">"
  ++ url ++ str "</a>".

Definition linkifyText (text : jsstring) : jsstring :=
  match text with
  | [] => []
  | _ :: _ =>
      replace_all urlPattern (fun c => anchor (display (group 0 c))) (escapeHtml text)
  end.

(** [getDateKey(timestamp)]: [toISOString] throws on a date that is no
    moment of the calendar, which is where [Date_parse] stops. *)
Definition getDateKey (e : env) (ts : jsstring) : result jsstring :=
  date <- Date_parse e ts ;;
  Ok (iso_date date).

Local Open Scope Z_scope.

(** The local day number of a moment, and the fields that [getFullYear],
    [getMonth] (counted from 0) and [getDate] read from it. *)
Definition local_day (e : env) (ms : Z) : Z := (ms + tzOffset e * 60000) / msPerDay.

Definition local_fields (e : env) (ms : Z) : Z * Z * Z :=
  let '(y, mo, d) := civil_from_days (local_day e ms) in (y, mo - 1, d).

(** [MakeDay(year, month, date)] of the language standard. *)
Definition MakeDay (y mo dt : Z) : Z :=
  days_from_civil (y + mo / 12) (mo mod 12 + 1) 1 + dt - 1.

(** [new Date(year, month, date)]: local midnight of the day; a year
    from 0 to 99 is taken as a year of the twentieth century. *)
Definition Date_of_fields (e : env) (fields : Z * Z * Z) : Z :=
  let '(y, mo, d) := fields in
  let yr := if (0 <=? y) && (y <=? 99) then 1900 + y else y in
  MakeDay yr mo d * msPerDay - tzOffset e * 60000.

(** [date.setDate(dt)]: the day of the month is replaced, the local time
    of day is kept. *)
Definition setDate (e : env) (ms dt : Z) : Z :=
  let t := ms + tzOffset e * 60000 in
  let '(y, mo, _) := local_fields e ms in
  MakeDay y mo dt * msPerDay + t mod msPerDay - tzOffset e * 60000.

Local Close Scope Z_scope.

Section Html.

(** The two calls into the locale data of the engine, on which nothing
    below depends: [date.toLocaleTimeString('en-US', ...)] of a timestamp
    and [date.toLocaleDateString('en-US', ...)] of a moment. *)
Variable formatTime : jsstring -> jsstring.
Variable toLocaleDateString : Z -> jsstring.

Definition formatDate (e : env) (ts : jsstring) : result jsstring :=
  date <- Date_parse e ts ;;
  let today := now e in
  let yesterday := today in
  let yesterday :=
    setDate e yesterday (let '(_, _, d) := local_fields e yesterday in d - 1)%Z in
  let dateOnly := Date_of_fields e (local_fields e date) in
  let todayOnly := Date_of_fields e (local_fields e today) in
  let yesterdayOnly := Date_of_fields e (local_fields e yesterday) in
  if (dateOnly =? todayOnly)%Z then Ok (str "Today")
  else if (dateOnly =? yesterdayOnly)%Z then Ok (str "Yesterday")
  else Ok (toLocaleDateString date).

Definition nl : jsstring := [10%N].

(** [/<attached:[^>]+>/g] *)
Definition attached_tag : regex :=
  Seqs [Str (str "<attached:"); Rep true (fun c => negb (eqc c (ch ">"))) 1 None;
        Lit (ch ">")].

(** The block that shows the file of a message. *)
Definition media_html (mi : media_info) : jsstring :=
  let mediaPath := str "media/" ++ filename mi in
  match mediaType mi with
  | Image =>
      str "    <div " ++ attr (str "class") (str "media") ++ str ">" ++ nl
      ++ str "      <img " ++ attr (str "src") mediaPath ++ str " "
      ++ attr (str "alt") (escapeHtml (filename mi)) ++ str " "
      ++ attr (str "onclick") (str "viewImage('" ++ mediaPath ++ str "')")
      ++ str ">" ++ nl
      ++ str "    </div>" ++ nl
  | Audio =>
      str "    <div " ++ attr (str "class") (str "media") ++ str ">" ++ nl
      ++ str "      <audio controls>" ++ nl
      ++ str "        <source " ++ attr (str "src") mediaPath ++ str " "
      ++ attr (str "type") (str "audio/opus") ++ str ">" ++ nl
      ++ str "        <source " ++ attr (str "src") mediaPath ++ str " "
      ++ attr (str "type") (str "audio/mpeg") ++ str ">" ++ nl
      ++ str "        Your browser does not support audio playback." ++ nl
      ++ str "      </audio>" ++ nl
      ++ str "    </div>" ++ nl
  | Video =>
      str "    <div " ++ attr (str "class") (str "media") ++ str ">" ++ nl
      ++ str "      <video controls>" ++ nl
      ++ str "        <source " ++ attr (str "src") mediaPath ++ str " "
      ++ attr (str "type") (str "video/mp4") ++ str ">" ++ nl
      ++ str "        Your browser does not support video playback." ++ nl
      ++ str "      </video>" ++ nl
      ++ str "    </div>" ++ nl
  | Document =>
      str "    <div " ++ attr (str "class") (str "media document") ++ str ">" ++ nl
      ++ str "      <a " ++ attr (str "href") mediaPath ++ str " "
      ++ attr (str "download") (escapeHtml (filename mi)) ++ str ">" ++ nl
      ++ str "        " ++ [55357%N; 56516%N] ++ str " " ++ escapeHtml (filename mi) ++ nl
      ++ str "      </a>" ++ nl
      ++ str "    </div>" ++ nl
  end.

(** The block that shows the text of a message, if any is left once the
    attachment tags are taken out. *)
Definition content_html (text : jsstring) : jsstring :=
  match trim text with
  | [] => []
  | _ :: _ =>
      let cleanContent := trim (replace_with attached_tag [] text) in
      match cleanContent with
      | [] => []
      | _ :: _ =>
          let content := replace_with (Lit 10%N) (str "<br>") (linkifyText cleanContent) in
          str "    <div " ++ attr (str "class") (str "content") ++ str ">"
          ++ content ++ str "</div>" ++ nl
      end
  end.

Definition generateMessageHtml (msg : message) : jsstring :=
  let messageClass :=
    if is_system (type msg) then str "message system" else str "message" in
  str "<div " ++ attr (str "class") messageClass ++ str ">" ++ nl
  ++ str "  <div " ++ attr (str "class") (str "message-bubble") ++ str ">" ++ nl
  ++ (if negb (is_system (type msg))
      then str "    <div " ++ attr (str "class") (str "sender") ++ str ">"
           ++ escapeHtml (sender msg) ++ str "</div>" ++ nl
      else [])
  ++ content_html (content msg)
  ++ match media msg with
     | Some mi => match filename mi with [] => [] | _ :: _ => media_html mi end
     | None => []
     end
  ++ (if negb (is_system (type msg))
      then str "    <div " ++ attr (str "class") (str "time") ++ str ">"
           ++ formatTime (timestamp msg) ++ str "</div>" ++ nl
      else [])
  ++ str "  </div>" ++ nl
  ++ str "</div>" ++ nl.

(** The object [messagesByDate] of [generateHtmlFile]: its keys in the
    order in which they were first set, each with its array. *)
Definition by_date := list (jsstring * list message).

Fixpoint push_at (key : jsstring) (msg : message) (o : by_date) : by_date :=
  match o with
  | [] => [(key, [msg])]
  | (k, l) :: o' =>
      if eqs k key then (k, l ++ [msg]) :: o' else (k, l) :: push_at key msg o'
  end.

Fixpoint group_from (e : env) (o : by_date) (msgs : list message) : result by_date :=
  match msgs with
  | [] => Ok o
  | msg :: msgs' =>
      dateKey <- getDateKey e (timestamp msg) ;;
      group_from e (push_at dateKey msg o) msgs'
  end.

Definition messagesByDate (e : env) (msgs : list message) : result by_date :=
  group_from e [] msgs.

(** The order of [Array.prototype.sort] without a comparison function:
    strings by their code units. *)
Fixpoint str_leb (a b : jsstring) : bool :=
  match a, b with
  | [], _ => true
  | _ :: _, [] => false
  | x :: a', y :: b' => (x <? y)%N || (eqc x y && str_leb a' b')
  end.

Fixpoint insert_sorted (k : jsstring) (l : list jsstring) : list jsstring :=
  match l with
  | [] => [k]
  | x :: l' => if str_leb k x then k :: l else x :: insert_sorted k l'
  end.

(** [keys.sort()] for keys that are all different, where every sorting
    method gives the same array. *)
Definition sort (keys : list jsstring) : list jsstring :=
  fold_right insert_sorted [] keys.

Definition dateKeys (o : by_date) : list jsstring := sort (List.map fst o).

(** [messagesByDate[dateKey]] *)
Definition lookup (key : jsstring) (o : by_date) : list message :=
  match find (fun kv => eqs (fst kv) key) o with
  | Some kv => snd kv
  | None => []
  end.

(** What [generateHtmlFile] writes between the head and the foot of the
    page: for every date key, in sorted order, a divider and the messages
    of that date. *)
Fixpoint concat_results (l : list (result jsstring)) : result jsstring :=
  match l with
  | [] => Ok []
  | x :: l' => a <- x ;; b <- concat_results l' ;; Ok (a ++ b)
  end.

Definition date_block (e : env) (dateMessages : list message) : result jsstring :=
  first <- defined (nth_error dateMessages 0) ;;
  label <- formatDate e (timestamp first) ;;
  Ok (str "    <div " ++ attr (str "class") (str "date-divider") ++ str "><span>"
      ++ label ++ str "</span></div>" ++ nl ++ nl
      ++ flat_map generateMessageHtml dateMessages).

Definition messages_html (e : env) (msgs : list message) : result jsstring :=
  o <- messagesByDate e msgs ;;
  concat_results (List.map (fun dateKey => date_block e (lookup dateKey o)) (dateKeys o)).

End Html.

(** ** [mediaHandler.js] *)

(** [path.extname(file)] on a POSIX system, for a name without a slash,
    which is what [readdir] returns: the text from the last full stop on,
    and nothing if there is no full stop, if the only one is the first
    character, or if the name is [..]. *)
Definition extname (file : jsstring) : result jsstring :=
  if existsb (eqc (ch "/")) file then Beyond
  else
    let after := rev (take_while (fun c => negb (eqc c (ch "."))) (rev file)) in
    let upto := rev (drop_while (fun c => negb (eqc c (ch "."))) (rev file)) in
    match upto with
    | [] => Ok []
    | [_] => Ok []
    | _ :: _ :: _ =>
        if eqs file (str "..") then Ok [] else Ok (ch "." :: after)
    end.

Definition mediaExtensions : list jsstring :=
  List.map str
    [".jpg"; ".jpeg"; ".png"; ".gif"; ".webp";
     ".mp4"; ".avi"; ".mov"; ".mkv";
     ".opus"; ".mp3"; ".ogg"; ".aac"; ".m4a";
     ".pdf"; ".doc"; ".docx"; ".xls"; ".xlsx"]%string.

(** The test of the filter in [getMediaFiles]. *)
Definition is_media_file (file : jsstring) : result bool :=
  if eqs file (str "_chat.txt") || starts_with (str ".") file then Ok false
  else
    e <- extname file ;;
    let ext := toLowerCase e in
    Ok (existsb (eqs ext) mediaExtensions).

Fixpoint filter_files (files : list jsstring) : result (list jsstring) :=
  match files with
  | [] => Ok []
  | file :: files' =>
      keep <- is_media_file file ;;
      rest <- filter_files files' ;;
      Ok (if keep then file :: rest else rest)
  end.

(** [getMediaFiles], from the names that [readdir] has returned. *)
Definition getMediaFiles (files : list jsstring) : result (list jsstring) :=
  filter_files files.

Record missing : Type := { m_messageId : jsstring; m_filename : jsstring }.

(** The callback of the loop in [validateMediaReferences]. *)
Definition check_reference (mediaSet : list jsstring) (missingMedia : list missing)
           (msg : message) : list missing :=
  match media msg with
  | Some mi =>
      match filename mi with
      | [] => missingMedia
      | _ :: _ =>
          if existsb (eqs (filename mi)) mediaSet then missingMedia
          else missingMedia ++ [{| m_messageId := id msg; m_filename := filename mi |}]
      end
  | None => missingMedia
  end.

(** The lines that [validateMediaReferences] writes to the console. *)
Definition warnings (missingMedia : list missing) : list jsstring :=
  match missingMedia with
  | [] => []
  | _ :: _ =>
      (str "Warning: " ++ dec (N.of_nat (List.length missingMedia))
       ++ str " media references not found")
      :: List.map (fun item => str "  - " ++ m_filename item ++ str " (in "
                               ++ m_messageId item ++ str ")")
                  (firstn 5 missingMedia)
  end.

(** [validateMediaReferences]: what it returns, and what it prints. *)
Definition validateMediaReferences (msgs : list message) (mediaFiles : list jsstring)
  : list missing * list jsstring :=
  let missingMedia := fold_left (check_reference mediaFiles) msgs [] in
  (missingMedia, warnings missingMedia).

(** ** [index.js] *)

(** [[a-z0-9]] under the [i] flag. *)
Definition alnum_i (c : char) : bool :=
  existsb (fun a => eqc_i a c) (str "abcdefghijklmnopqrstuvwxyz0123456789").

(** [chatName.replace(/[^a-z0-9]/gi, '_')], the last part of the output
    directory of [processChat]. *)
Definition outputDirName (chatName : jsstring) : jsstring :=
  replace_with (Cls (fun c => negb (alnum_i c))) (str "_") chatName.

(** ** What a pattern denotes *)

(** [Mt r i u rest c c']: at index [i], with [rest] after it, the pattern
    [r] can consume exactly [u], turning the captures [c] into [c'].  The
    matcher finds one such reading, the first in the order in which a
    backtracking engine tries them. *)
Fixpoint Mt (r : regex) (i : nat) (u rest : jsstring) (c c' : captures) : Prop :=
  match r with
  | Eps => u = [] /\ c' = c
  | Cls p => exists x, u = [x] /\ p x = true /\ c' = c
  | Seq a b =>
      exists u1 u2 d, u = u1 ++ u2 /\ Mt a i u1 (u2 ++ rest) c d
                      /\ Mt b (i + List.length u1) u2 rest d c'
  | Alt a b => Mt a i u rest c c' \/ Mt b i u rest c c'
  | Rep _ p lo hi =>
      forallb p u = true /\ lo <= List.length u /\ within hi (List.length u) /\ c' = c
  | Grp n a => exists d, Mt a i u rest c d /\ c' = upd n u d
  | Bol => i = 0 /\ u = [] /\ c' = c
  | Eol => rest = [] /\ u = [] /\ c' = c
  end.

(** The whole of [s] is one reading of [r]. *)
Definition whole (r : regex) (s : jsstring) : bool :=
  match m r 0 s [] (fun _ s' c => match s' with [] => Some c | _ :: _ => None end) with
  | Some _ => true
  | None => false
  end.

(** The shapes of the tokens that the start patterns capture. *)
Definition is_date_token (d : jsstring) : bool := whole DATE d.
Definition is_time_token_1 (t : jsstring) : bool := whole TIME_1 t.
Definition is_time_token_2 (t : jsstring) : bool := whole TIME_2 t.

(** Tokens spelled out. *)
Definition digit_run (lo hi : nat) (u : jsstring) : Prop :=
  forallb is_digit u = true /\ lo <= List.length u <= hi.

Definition date_shape (d : jsstring) : Prop :=
  exists a b y, d = a ++ ch "/" :: b ++ ch "/" :: y
                /\ digit_run 1 2 a /\ digit_run 1 2 b /\ digit_run 2 2 y.

Definition time1_shape (t : jsstring) : Prop :=
  exists h mi ss ap, t = h ++ ch ":" :: mi ++ ch ":" :: ss ++ [ch " "; ap; ch "M"]
                     /\ digit_run 1 2 h /\ digit_run 2 2 mi /\ digit_run 2 2 ss
                     /\ A_or_P ap = true.

Definition time2_shape (t : jsstring) : Prop :=
  exists h mi g ap, t = h ++ ch ":" :: mi ++ [g; ap; ch "M"]
                    /\ digit_run 1 2 h /\ digit_run 2 2 mi
                    /\ time_gap g = true /\ A_or_P ap = true.

(** What follows the time of a start line: sender and body, or the body
    of a line without sender. *)
Definition user_tail : regex :=
  Seqs [Grp 3 (Rep true not_colon 1 None); Str (str ": ");
        Grp 4 (Rep true dot 0 None); Eol].

Definition system_tail : regex := Seqs [Grp 3 (Rep true dot 1 None); Eol].

(** The two ways a start line begins, with what follows left open. *)
Definition dash_start (tail : regex) : regex :=
  Seq Bol (Seq (Grp 1 DATE) (Seq (Str (str ", ")) (Seq (Grp 2 TIME_2)
    (Seq (Str (str " - ")) tail)))).

Definition bracket_start (tail : regex) : regex :=
  Seq Bol (Seq (Lit (ch "[")) (Seq (Grp 1 DATE) (Seq (Str (str ", "))
    (Seq (Grp 2 TIME_1) (Seq (Str (str "] ")) tail))))).

(** The matcher's last step on an anchored pattern: the whole match goes
    into slot 0. *)
Definition finish (line : jsstring) (i : nat) (_ : jsstring) (c : captures)
  : option captures :=
  Some (upd 0 (firstn (i - 0) line) c).

(** Patterns without capturing groups. *)
Fixpoint groupless (r : regex) : bool :=
  match r with
  | Seq a b | Alt a b => groupless a && groupless b
  | Grp _ _ => false
  | _ => true
  end.

(** ** Vocabulary of the statements *)

(** A numeric field: a non-empty run of decimal digits. *)
Definition numeric (u : jsstring) : bool :=
  match u with
  | [] => false
  | _ :: _ => forallb is_digit u
  end.

(** A field short enough for [Number] to be exact on it. *)
Definition short (u : jsstring) : bool := Nat.leb (List.length u) 15.

(** The text of a date token and of a time token, from their fields: the
    seconds are optional, [g] separates the digits from the marker, [ap]
    is the first letter of the marker. *)
Definition date_text (a b y : jsstring) : jsstring :=
  a ++ ch "/" :: b ++ ch "/" :: y.

Definition seconds_text (osec : option jsstring) : jsstring :=
  match osec with
  | Some ss => ch ":" :: ss
  | None => []
  end.

Definition time_text (h mi : jsstring) (osec : option jsstring) (g ap : char)
  : jsstring :=
  h ++ ch ":" :: mi ++ seconds_text osec ++ [g; ap; ch "M"].

(** The hour on the 24-hour clock, in the words of the specification. *)
Definition hour24 (pm : bool) (h : Z) : Z :=
  if pm then (if h =? 12 then 12 else h + 12)%Z
  else (if h =? 12 then 0 else h)%Z.

Definition seconds_value (osec : option jsstring) : Z :=
  match osec with
  | Some ss => dec_value ss
  | None => 0%Z
  end.

(** Day and month of a date token, in the words of the specification:
    [true] stands for the reading day/month/year. *)
Definition day_first (a b : jsstring) (formatType : nat) : bool :=
  if (12 <? dec_value a)%Z then true
  else if (12 <? dec_value b)%Z then false
  else negb (Nat.eqb formatType 2).

(** The timestamp with the given day, month, year suffix and clock. *)
Definition iso (y mo d : jsstring) (hh mi ss : Z) : jsstring :=
  str "20" ++ y ++ ch "-" :: padStart2 mo ++ ch "-" :: padStart2 d
  ++ ch "T" :: padStart2 (dec (Z.to_N hh))
  ++ ch ":" :: padStart2 (dec (Z.to_N mi))
  ++ ch ":" :: padStart2 (dec (Z.to_N ss)).

(** What a raw line of the transcript opens, if it is a start line. *)
Definition start_of (raw : jsstring) : option (captures * bool * nat) :=
  match clean raw with
  | [] => None
  | _ :: _ =>
      match match_start (clean raw) with
      | (Some mt, isSystem, formatType) => Some (mt, isSystem, formatType)
      | (None, _, _) => None
      end
  end.

Definition is_start (raw : jsstring) : bool :=
  match start_of raw with Some _ => true | None => false end.

(** A line that is folded into the open message: not blank once cleaned,
    and matched by none of the start patterns. *)
Definition is_continuation (raw : jsstring) : bool :=
  match clean raw with
  | [] => false
  | _ :: _ => negb (is_start raw)
  end.

(** The body a start line carries: the last group of its match. *)
Definition body_of (start : captures * bool * nat) : option jsstring :=
  let '(mt, isSystem, _) := start in
  if isSystem then group 3 mt else group 4 mt.

(** The lines [ls], each behind a line break. *)
Definition folded (ls : list jsstring) : jsstring :=
  flat_map (fun l => 10%N :: clean l) ls.

(** Two records that differ at most in their [content]. *)
Definition same_header (a b : message) : Prop :=
  id a = id b /\ timestamp a = timestamp b /\ sender a = sender b
  /\ type a = type b /\ media a = media b.

(** [msg] is the record that the start line [raw] opens as message number
    [n], with the lines folded into it afterwards. *)
Definition opened_by (n : nat) (raw : jsstring) (msg : message) : Prop :=
  exists mt isSystem formatType first tail,
    start_of raw = Some (mt, isSystem, formatType)
    /\ new_message mt isSystem formatType n = Ok first
    /\ same_header first msg
    /\ content msg = content first ++ tail.

(** The records of a list are opened, in order, by the lines of another,
    and numbered from [n] on. *)
Inductive opened_in_order : nat -> list jsstring -> list message -> Prop :=
| opened_nil : forall n, opened_in_order n [] []
| opened_cons : forall n raw raws msg msgs,
    opened_by n raw msg -> opened_in_order (S n) raws msgs ->
    opened_in_order n (raw :: raws) (msg :: msgs).

(** The indices, counted from [i], of the start lines among [lines]. *)
Fixpoint start_positions (i : nat) (lines : list jsstring) : list nat :=
  match lines with
  | [] => []
  | raw :: lines' =>
      if is_start raw then i :: start_positions (S i) lines'
      else start_positions (S i) lines'
  end.

(** A list of indices that goes strictly upwards. *)
Fixpoint ascending (l : list nat) : Prop :=
  match l with
  | [] => True
  | p :: l' => match l' with [] => True | q :: _ => p < q end /\ ascending l'
  end.

(** The invariant of the loop, from a point where the records [frozen]
    are complete: the records added since are opened, in order, by the
    start lines [done] read since, the first of them as number [n0]. *)
Definition loop_inv (frozen : list message) (n0 : nat) (done : list jsstring)
           (st : loop_state) : Prop :=
  exists more,
    push_current st = frozen ++ more
    /\ opened_in_order n0 done more
    /\ messageId st + 1 = n0 + List.length done
    /\ (more = [] -> currentMessage st = None).

(** The lines of a transcript, as [parseChatFile] cuts them. *)
Definition transcript_lines (fileText : jsstring) : list jsstring :=
  split_on (eqc 10%N) (replace_crlf fileText).

(** A line of the dash-separated format, from its date, the digits of its
    time, the separator [g] before the marker, the first letter of the
    marker, and what follows the dash. *)
Definition dash_line (d hm : jsstring) (g ap : char) (rest : jsstring) : jsstring :=
  d ++ str ", " ++ (hm ++ [g; ap; ch "M"]) ++ str " - " ++ rest.

(** The same for the bracketed format. *)
Definition bracket_line (d hms : jsstring) (g ap : char) (rest : jsstring) : jsstring :=
  ch "[" :: d ++ str ", " ++ (hms ++ [g; ap; ch "M"]) ++ str "] " ++ rest.

(** An ordinary space or a narrow no-break space. *)
Definition plain_or_narrow (g : char) : bool := eqc g (ch " ") || eqc g NNBSP.

(** The lines [ls] with [sep] between them. *)
Fixpoint join_lines (sep : jsstring) (ls : list jsstring) : jsstring :=
  match ls with
  | [] => []
  | [l] => l
  | l :: ls' => l ++ sep ++ join_lines sep ls'
  end.

(** Neither a line feed nor a carriage return. *)
Definition no_line_break (c : char) : bool := negb (eqc c 10%N) && negb (eqc c 13%N).

(** A line of which nothing is left once it is cleaned. *)
Definition is_blank (raw : jsstring) : bool :=
  match clean raw with
  | [] => true
  | _ :: _ => false
  end.

(** The first occurrence of every string of a list, in the order of the
    list. *)
Fixpoint first_occurrences (l : list jsstring) : list jsstring :=
  match l with
  | [] => []
  | x :: l' => x :: filter (fun y => negb (eqs x y)) (first_occurrences l')
  end.

(** Equality of two strings up to the case of the ASCII letters, the way
    the [i] flag compares them. *)
Fixpoint same_i (a b : jsstring) : bool :=
  match a, b with
  | [], [] => true
  | x :: a', y :: b' => eqc_i x y && same_i a' b'
  | _, _ => false
  end.

(** One character of a text as it stands in a page. *)
Definition escape_char (c : char) : jsstring :=
  if eqc c (ch "&") then str "&amp;"
  else if eqc c (ch "<") then str "&lt;"
  else if eqc c (ch ">") then str "&gt;"
  else if eqc c quote then str "&quot;"
  else if eqc c (ch "'") then str "&#039;"
  else [c].

(** The characters that open or close a tag or an attribute value. *)
Definition is_markup (c : char) : bool :=
  eqc c (ch "<") || eqc c (ch ">") || eqc c quote || eqc c (ch "'").

(** The reading of the five entities that [escapeHtml] writes; [skip]
    counts the characters of an entity that are still to be passed. *)
Fixpoint unescape (skip : nat) (s : jsstring) : jsstring :=
  match s with
  | [] => []
  | c :: s' =>
      match skip with
      | S k => unescape k s'
      | O =>
          if starts_with (str "&amp;") s then ch "&" :: unescape 4 s'
          else if starts_with (str "&lt;") s then ch "<" :: unescape 3 s'
          else if starts_with (str "&gt;") s then ch ">" :: unescape 3 s'
          else if starts_with (str "&quot;") s then quote :: unescape 5 s'
          else if starts_with (str "&#039;") s then ch "'" :: unescape 5 s'
          else c :: unescape 0 s'
      end
  end.

(** [linkified s o]: the text [o] is the text [s] with some of its parts,
    none of them empty or with white space inside, each put into an
    anchor. *)
Inductive linkified : jsstring -> jsstring -> Prop :=
| linkified_nil : linkified [] []
| linkified_char : forall c s o, linkified s o -> linkified (c :: s) (c :: o)
| linkified_anchor : forall url s o,
    url <> [] -> forallb not_space url = true ->
    linkified s o -> linkified (url ++ s) (anchor url ++ o).

(** Anything but a full stop. *)
Definition not_full_stop (c : char) : bool := negb (eqc c (ch ".")).

(** The two halves of the calendar functions that do not depend on the
    era of 400 years: the day within the era of a date, from the year of
    the era (years begin in March), the month and the day; and back. *)
Definition day_of_era (yoe mo d : Z) : Z :=
  (yoe * 365 + yoe / 4 - yoe / 100
   + ((153 * (if 2 <? mo then mo - 3 else mo + 9) + 2) / 5 + d - 1))%Z.

Definition date_of_era (doe : Z) : Z * Z * Z :=
  (let yoe := (doe - doe / 1460 + doe / 36524 - doe / 146096) / 365 in
   let doy := doe - (365 * yoe + yoe / 4 - yoe / 100) in
   let mp := (5 * doy + 2) / 153 in
   let d := doy - (153 * mp + 2) / 5 + 1 in
   let mo := if mp <? 10 then mp + 3 else mp - 9 in
   (yoe, mo, d))%Z.

(** The ten digits, and the numerals of two and of four digits written
    out again after being read. *)
Definition digit_chars : list char := [48; 49; 50; 51; 52; 53; 54; 55; 56; 57]%N.

Definition two_digit_ok (a b : char) : bool :=
  eqs (pad_zeros 2 (dec (Z.to_N (dec_value [a; b])))) [a; b].

Definition four_digit_ok (a b c d : char) : bool :=
  (dec_value [a; b; c; d] <=? 9999)%Z
  && eqs (pad_zeros 4 (dec (Z.to_N (dec_value [a; b; c; d])))) [a; b; c; d].

(** The time of day that a timestamp names, in seconds. *)
Definition seconds_of_day (ts : jsstring) : Z :=
  match ts with
  | [_; _; _; _; _; _; _; _; _; _; _; hh1; hh2; _; mi1; mi2; _; s1; s2] =>
      ((dec_value [hh1; hh2] * 60 + dec_value [mi1; mi2]) * 60 + dec_value [s1; s2])%Z
  | _ => 0%Z
  end.

(** The message has the date key [key]. *)
Definition has_key (e : env) (key : jsstring) (msg : message) : bool :=
  match getDateKey e (timestamp msg) with
  | Ok k => eqs k key
  | _ => false
  end.

(** Strings that go strictly upwards in the order of their code units,
    each compared with the next. *)
Fixpoint ascending_keys (l : list jsstring) : Prop :=
  match l with
  | [] => True
  | a :: l' =>
      match l' with
      | [] => True
      | b :: _ => str_leb a b = true /\ a <> b
      end /\ ascending_keys l'
  end.

(** A letter of the English alphabet or a digit. *)
Definition letter_or_digit (c : char) : bool :=
  ((48 <=? c) && (c <=? 57) || (65 <=? c) && (c <=? 90) || (97 <=? c) && (c <=? 122))%N.

(** A date as one number, year, month and day side by side. *)
Definition date_number (date : Z * Z * Z) : Z :=
  (let '(y, mo, d) := date in y * 10000 + mo * 100 + d)%Z.

(** The moments from 0000-01-01T00:00:00Z up to the end of 9999-12-31,
    whose year [toISOString] writes with four digits. *)
Definition four_digit_year (ms : Z) : Prop :=
  (-62167219200000 <= ms < 253402300800000)%Z.

(** The identifier of the [k]-th record in the words of the
    specification: [msg_] and then [k] in decimal. *)
Definition numbered_id (k : nat) : jsstring := str "msg_" ++ dec (N.of_nat k).

(** The table of the specification from extensions to kinds of media;
    an extension that is not listed is a document. *)
Definition extension_kinds : list (string * media_type) :=
  [("jpg", Image); ("jpeg", Image); ("png", Image); ("gif", Image); ("webp", Image);
   ("mp4", Video); ("avi", Video); ("mov", Video); ("mkv", Video);
   ("opus", Audio); ("mp3", Audio); ("ogg", Audio); ("aac", Audio); ("m4a", Audio);
   ("pdf", Document); ("doc", Document); ("docx", Document); ("xls", Document);
   ("xlsx", Document)]%string.

Definition kind_of_extension (ext : jsstring) : media_type :=
  match find (fun entry => eqs (str (fst entry)) ext) extension_kinds with
  | Some entry => snd entry
  | None => Document
  end.

(** The extension of a file name: the text after its last full stop, and
    the whole name if it has none. *)
Fixpoint after_last_dot (name : jsstring) : jsstring :=
  match name with
  | [] => []
  | c :: name' =>
      if existsb (eqc (ch ".")) name' then after_last_dot name'
      else if eqc (ch ".") c then name'
      else name
  end.

(** A message that names a file which is not among [mediaFiles], and
    the entry that reports it. *)
Definition unlisted (mediaFiles : list jsstring) (msg : message) : bool :=
  match media msg with
  | Some mi =>
      negb (eqs (filename mi) []) && negb (existsb (eqs (filename mi)) mediaFiles)
  | None => false
  end.

Definition report_of (msg : message) : missing :=
  {| m_messageId := id msg;
     m_filename := match media msg with Some mi => filename mi | None => [] end |}.

(** The senders of the messages that are not of type ['system']. *)
Definition user_senders (msgs : list message) : list jsstring :=
  List.map sender (filter (fun msg => negb (is_system (type msg))) msgs).

(** * Properties *)

(** ** Characters *)

Lemma eqc_eq (a b : char) : eqc a b = true <-> a = b.
Proof. apply N.eqb_eq. Qed.

Lemma eqc_refl (a : char) : eqc a a = true.
Proof. apply N.eqb_refl. Qed.

Lemma eqs_eq (a b : jsstring) : eqs a b = true <-> a = b.
Proof.
  revert b; induction a as [|x a IH]; intros [|y b]; simpl; split; intro H;
    try reflexivity; try discriminate.
  - apply andb_true_iff in H as [H1 H2]. apply eqc_eq in H1. apply IH in H2.
    congruence.
  - injection H as -> ->. rewrite eqc_refl. simpl. now apply IH.
Qed.

(** Unfolds the character tests into arithmetic on code units. *)
Ltac char_arith :=
  unfold dot, not_colon, A_or_P, time_gap in *;
  unfold is_digit, is_space, is_line_terminator, is_invisible, NNBSP, eqc, ch in *;
  simpl N_of_ascii in *;
  repeat match goal with
  | H : _ && _ = true |- _ => apply andb_true_iff in H; destruct H
  | H : _ || _ = true |- _ => apply orb_true_iff in H; destruct H
  | H : negb _ = true |- _ => apply negb_true_iff in H
  | H : negb _ = false |- _ => apply negb_false_iff in H
  | H : (_ <=? _)%N = true |- _ => apply N.leb_le in H
  | H : (_ <=? _)%N = false |- _ => apply N.leb_gt in H
  | H : (_ =? _)%N = true |- _ => apply N.eqb_eq in H
  | H : (_ =? _)%N = false |- _ => apply N.eqb_neq in H
  end;
  repeat match goal with
  | |- context [N.leb ?a ?b] => destruct (N.leb_spec a b); try lia
  | |- context [N.eqb ?a ?b] => destruct (N.eqb_spec a b); try lia
  end;
  simpl; try reflexivity; try discriminate; try lia.

Lemma digit_not_space (x : char) : is_digit x = true -> is_space x = false.
Proof. intro H. char_arith. Qed.

Lemma digit_not_gap (x : char) : is_digit x = true -> time_gap x = false.
Proof. intro H. char_arith. Qed.

(** ** The matcher against the denotation *)

Section Quantifier.
Variable p : char -> bool.
Variable k : nat -> jsstring -> option captures.

Lemma rep_sound (g : bool) (s : jsstring) :
  forall lo hi i res,
    rep g p lo hi i s k = Some res ->
    exists u s', s = u ++ s' /\ forallb p u = true /\ lo <= List.length u
                 /\ within hi (List.length u)
                 /\ k (i + List.length u) s' = Some res.
Proof.
  induction s as [|x s IH]; intros lo hi i res H.
  - assert (Hk : lo = 0 /\ k i [] = Some res).
    { simpl in H. destruct g, lo; simpl in H; try discriminate.
      - now split.
      - destruct (k i []); [now injection H as -> | discriminate]. }
    destruct Hk as [-> Hk]. exists [], []. simpl. rewrite Nat.add_0_r.
    repeat split; [lia | destruct hi; simpl; lia | assumption].
  - assert (Hstop : forall r, (if Nat.eqb lo 0 then k i (x :: s) else None) = Some r ->
              exists u s', x :: s = u ++ s' /\ forallb p u = true
                /\ lo <= List.length u /\ within hi (List.length u)
                /\ k (i + List.length u) s' = Some r).
    { intros r Hr. destruct lo; simpl in Hr; try discriminate.
      exists [], (x :: s). simpl. rewrite Nat.add_0_r.
      repeat split; [lia | destruct hi; simpl; lia | assumption]. }
    assert (Hmore : forall r,
              (if p x && room hi
               then rep g p (Nat.pred lo) (option_map Nat.pred hi) (S i) s k
               else None) = Some r ->
              exists u s', x :: s = u ++ s' /\ forallb p u = true
                /\ lo <= List.length u /\ within hi (List.length u)
                /\ k (i + List.length u) s' = Some r).
    { intros r Hr. destruct (p x) eqn:Hp; simpl in Hr; try discriminate.
      destruct (room hi) eqn:Hroom; try discriminate.
      apply IH in Hr as (u & s' & -> & Hu & Hlo & Hhi & Hk).
      exists (x :: u), s'. simpl. rewrite Hp, Hu.
      replace (i + S (List.length u)) with (S i + List.length u) by lia.
      repeat split; try assumption; try lia.
      destruct hi as [[|h]|]; simpl in *; try discriminate; lia. }
    simpl in H. destruct g.
    + destruct (if p x && room hi then _ else None) eqn:E.
      * injection H as <-. now apply Hmore.
      * now apply Hstop.
    + destruct (if Nat.eqb lo 0 then _ else None) eqn:E.
      * injection H as <-. now apply Hstop.
      * now apply Hmore.
Qed.

Lemma rep_complete (g : bool) (u : jsstring) :
  forall lo hi i s',
    forallb p u = true -> lo <= List.length u -> within hi (List.length u) ->
    k (i + List.length u) s' <> None ->
    rep g p lo hi i (u ++ s') k <> None.
Proof.
  induction u as [|x u IH]; intros lo hi i s' Hu Hlo Hhi Hk.
  - simpl in *. rewrite Nat.add_0_r in Hk. assert (lo = 0) as -> by lia.
    destruct s' as [|y s']; simpl.
    + destruct g; destruct (k i []); congruence.
    + destruct g.
      * destruct (if p y && room hi then _ else None); [discriminate|].
        destruct (k i (y :: s')); congruence.
      * destruct (k i (y :: s')); congruence.
  - simpl in Hu. apply andb_true_iff in Hu as [Hx Hu]. simpl in Hlo, Hhi, Hk.
    assert (Hroom : room hi = true).
    { destruct hi as [[|h]|]; simpl in *; try reflexivity; lia. }
    assert (Hrec : rep g p (Nat.pred lo) (option_map Nat.pred hi) (S i) (u ++ s') k
                   <> None).
    { apply IH; try assumption; try lia.
      - destruct hi as [[|h]|]; simpl in *; lia.
      - now replace (S i + List.length u) with (i + S (List.length u)) by lia. }
    simpl. rewrite Hx, Hroom. simpl.
    destruct g.
    + destruct (rep true p (Nat.pred lo) (option_map Nat.pred hi) (S i) (u ++ s') k);
        congruence.
    + destruct (if Nat.eqb lo 0 then _ else None); [discriminate|].
      destruct (rep false p (Nat.pred lo) (option_map Nat.pred hi) (S i) (u ++ s') k);
        congruence.
Qed.

(** A greedy quantifier keeps the longest run when no shorter run is
    allowed, or when its continuation rejects every input that begins
    with a character of the class. *)
Lemma rep_greedy_stop (u : jsstring) :
  forall lo hi i s',
    forallb p u = true -> lo <= List.length u -> within hi (List.length u) ->
    (hi = Some (List.length u) \/ match s' with [] => True | y :: _ => p y = false end) ->
    (lo = List.length u \/ forall j x t, p x = true -> k j (x :: t) = None) ->
    rep true p lo hi i (u ++ s') k = k (i + List.length u) s'.
Proof.
  induction u as [|x u IH]; intros lo hi i s' Hu Hlo Hhi Hend Hk.
  - simpl in *. rewrite Nat.add_0_r. assert (lo = 0) as -> by lia.
    destruct s' as [|y s']; simpl.
    + reflexivity.
    + destruct Hend as [-> | Hy].
      * rewrite andb_false_r. reflexivity.
      * rewrite Hy. reflexivity.
  - simpl in Hu. apply andb_true_iff in Hu as [Hx Hu]. simpl in Hlo, Hhi.
    assert (Hroom : room hi = true).
    { destruct hi as [[|h]|]; simpl in *; try reflexivity; lia. }
    simpl. rewrite Hx, Hroom. simpl.
    rewrite IH; try assumption; try lia.
    + replace (S i + List.length u) with (i + S (List.length u)) by lia.
      destruct (k (i + S (List.length u)) s'); [reflexivity|].
      destruct Hk as [-> | Hk]; [reflexivity|].
      rewrite (Hk i x (u ++ s') Hx). now destruct (Nat.eqb lo 0).
    + destruct hi as [[|h]|]; simpl in *; lia.
    + destruct Hend as [-> | Hy]; [left | now right]. reflexivity.
    + destruct Hk as [-> | Hk]; [left | now right]. reflexivity.
Qed.

End Quantifier.

Lemma firstn_exact (u rest : jsstring) (i : nat) :
  firstn (i + List.length u - i) (u ++ rest) = u.
Proof.
  replace (i + List.length u - i) with (List.length u + 0) by lia.
  rewrite firstn_app_2. simpl. apply app_nil_r.
Qed.

(** Whatever the matcher returns comes from a reading of the pattern. *)
Lemma m_sound (r : regex) :
  forall i s c k res,
    m r i s c k = Some res ->
    exists u rest c', s = u ++ rest /\ Mt r i u rest c c'
                      /\ k (i + List.length u) rest c' = Some res.
Proof.
  induction r as [|p|a IHa b IHb|a IHa b IHb|g p lo hi|n a IHa| |];
    intros i s c k res H; simpl in H.
  - exists [], s, c. simpl. rewrite Nat.add_0_r. auto.
  - destruct s as [|x s]; [discriminate|]. destruct (p x) eqn:Hp; [|discriminate].
    exists [x], s, c. simpl. replace (i + 1) with (S i) by lia.
    repeat split; eauto.
  - apply IHa in H as (u1 & r1 & d & -> & Ha & H).
    apply IHb in H as (u2 & rest & c' & -> & Hb & H).
    exists (u1 ++ u2), rest, c'. rewrite length_app, Nat.add_assoc, <- app_assoc.
    repeat split; try assumption. simpl. exists u1, u2, d. auto.
  - destruct (m a i s c k) eqn:Ea.
    + injection H as <-. apply IHa in Ea as (u & rest & c' & -> & Ha & Hk).
      exists u, rest, c'. simpl. auto.
    + apply IHb in H as (u & rest & c' & -> & Hb & Hk).
      exists u, rest, c'. simpl. auto.
  - apply rep_sound in H as (u & s' & -> & Hu & Hlo & Hhi & Hk).
    exists u, s', c. simpl. intuition auto.
  - apply IHa in H as (u & rest & d & -> & Ha & Hk).
    rewrite firstn_exact in Hk. exists u, rest, (upd n u d). simpl. eauto.
  - destruct (Nat.eqb i 0) eqn:Ei; [|discriminate]. apply Nat.eqb_eq in Ei.
    exists [], s, c. simpl. rewrite Nat.add_0_r. auto.
  - destruct s; [|discriminate]. exists [], [], c. simpl. rewrite Nat.add_0_r. auto.
Qed.

(** If the pattern has a reading that the continuation accepts, the
    matcher does not fail. *)
Lemma m_complete (r : regex) :
  forall i u rest c c' k,
    Mt r i u rest c c' ->
    k (i + List.length u) rest c' <> None ->
    m r i (u ++ rest) c k <> None.
Proof.
  induction r as [|p|a IHa b IHb|a IHa b IHb|g p lo hi|n a IHa| |];
    intros i u rest c c' k H Hk; simpl in H; simpl.
  - destruct H as [-> ->]. simpl in *. now rewrite Nat.add_0_r in Hk.
  - destruct H as (x & -> & Hp & ->). simpl. rewrite Hp.
    simpl in Hk. now replace (i + 1) with (S i) in Hk by lia.
  - destruct H as (u1 & u2 & d & -> & Ha & Hb). rewrite <- app_assoc.
    apply IHa with (c' := d); [assumption|].
    apply IHb with (c' := c'); [assumption|].
    now rewrite length_app, Nat.add_assoc in Hk.
  - destruct H as [Ha | Hb].
    + specialize (IHa _ _ _ _ _ _ Ha Hk). destruct (m a i (u ++ rest) c k); congruence.
    + specialize (IHb _ _ _ _ _ _ Hb Hk). destruct (m a i (u ++ rest) c k); congruence.
  - destruct H as (Hu & Hlo & Hhi & ->). now apply rep_complete.
  - destruct H as (d & Ha & ->). apply IHa with (c' := d); [assumption|].
    now rewrite firstn_exact.
  - destruct H as (-> & -> & ->). simpl in *. assumption.
  - destruct H as (-> & -> & ->). simpl in *. now rewrite Nat.add_0_r in Hk.
Qed.

(** A literal string is read off the input. *)
Lemma m_Str (l : jsstring) :
  forall i s c k, m (Str l) i (l ++ s) c k = k (i + List.length l) s c.
Proof.
  induction l as [|x l IH]; intros i s c k; simpl.
  - now rewrite Nat.add_0_r.
  - unfold Lit. simpl. rewrite eqc_refl, IH. f_equal. lia.
Qed.

Lemma Mt_Str (l : jsstring) :
  forall i u rest c c', Mt (Str l) i u rest c c' <-> u = l /\ c' = c.
Proof.
  induction l as [|x l IH]; intros i u rest c c'; simpl.
  - tauto.
  - split.
    + intros (u1 & u2 & d & -> & (y & -> & Hy & ->) & H).
      apply IH in H as [-> ->]. apply eqc_eq in Hy. subst. auto.
    + intros [-> ->]. exists [x], l, c. repeat split.
      * exists x. rewrite eqc_refl. auto.
      * apply IH. auto.
Qed.

(** A search finds a match wherever one starts. *)
Lemma scan_sound (r : regex) (s : jsstring) :
  forall i c, scan r i s = Some c ->
    exists pre s', s = pre ++ s' /\ match_at r (i + List.length pre) s' = Some c.
Proof.
  induction s as [|x s IH]; intros i c H; simpl in H.
  - exists [], []. simpl. rewrite Nat.add_0_r.
    destruct (match_at r i []); [auto | discriminate].
  - destruct (match_at r i (x :: s)) eqn:E.
    + exists [], (x :: s). simpl. rewrite Nat.add_0_r. split; congruence.
    + apply IH in H as (pre & s' & -> & H). exists (x :: pre), s'. simpl.
      now replace (i + S (List.length pre)) with (S i + List.length pre) by lia.
Qed.

Lemma scan_complete (r : regex) (pre : jsstring) :
  forall i s', match_at r (i + List.length pre) s' <> None ->
    scan r i (pre ++ s') <> None.
Proof.
  induction pre as [|x pre IH]; intros i s' H; simpl in *.
  - rewrite Nat.add_0_r in H. destruct s'; simpl; destruct (match_at r i _); congruence.
  - destruct (match_at r i (x :: pre ++ s')); [discriminate|]. apply IH.
    now replace (S i + List.length pre) with (i + S (List.length pre)) by lia.
Qed.

(** A pattern that begins with [^] is only tried at the first index. *)
Lemma scan_anchored (r : regex) (s : jsstring) :
  forall i, scan (Seq Bol r) (S i) s = None.
Proof.
  induction s as [|x s IH]; intro i; simpl; unfold match_at; simpl; auto.
Qed.

Lemma exec_anchored (r : regex) (s : jsstring) :
  exec (Seq Bol r) s = match_at (Seq Bol r) 0 s.
Proof.
  unfold exec. destruct s as [|x s]; simpl.
  - now destruct (match_at (Seq Bol r) 0 []).
  - destruct (match_at (Seq Bol r) 0 (x :: s)); [reflexivity | apply scan_anchored].
Qed.

(** ** The tokens of a start line *)

Lemma Mt_digits (lo hi i : nat) (u rest : jsstring) (c c' : captures) :
  Mt (digits lo hi) i u rest c c' <-> digit_run lo hi u /\ c' = c.
Proof. unfold digit_run. simpl. tauto. Qed.

Lemma Mt_Lit (x : char) (i : nat) (u rest : jsstring) (c c' : captures) :
  Mt (Lit x) i u rest c c' <-> u = [x] /\ c' = c.
Proof.
  simpl. split.
  - intros (y & -> & Hy & ->). apply eqc_eq in Hy. now subst.
  - intros [-> ->]. exists x. now rewrite eqc_refl.
Qed.

Lemma Mt_Seq (a b : regex) (i : nat) (u rest : jsstring) (c c' : captures) :
  Mt (Seq a b) i u rest c c' <->
  exists u1 u2 d, u = u1 ++ u2 /\ Mt a i u1 (u2 ++ rest) c d
                  /\ Mt b (i + List.length u1) u2 rest d c'.
Proof. reflexivity. Qed.

Lemma Mt_Eps (i : nat) (u rest : jsstring) (c c' : captures) :
  Mt Eps i u rest c c' <-> u = [] /\ c' = c.
Proof. reflexivity. Qed.

Lemma Mt_Cls (p : char -> bool) (i : nat) (u rest : jsstring) (c c' : captures) :
  Mt (Cls p) i u rest c c' <-> exists x, u = [x] /\ p x = true /\ c' = c.
Proof. reflexivity. Qed.

Lemma Mt_DATE (i : nat) (u rest : jsstring) (c c' : captures) :
  Mt DATE i u rest c c' <-> date_shape u /\ c' = c.
Proof.
  unfold DATE, date_shape. cbn [Seqs]. split.
  - intro H.
    repeat (apply Mt_Seq in H; destruct H as (? & ? & ? & -> & ?H & H)).
    apply Mt_Eps in H as [-> ->].
    repeat match goal with
    | H : Mt (digits _ _) _ _ _ _ _ |- _ => apply Mt_digits in H; destruct H as [? ->]
    | H : Mt (Lit _) _ _ _ _ _ |- _ => apply Mt_Lit in H; destruct H as [-> ->]
    end.
    split; [|reflexivity]. do 3 eexists. rewrite app_nil_r. simpl.
    split; [reflexivity | auto].
  - intros [(a & b & y & -> & Ha & Hb & Hy) ->].
    exists a, (ch "/" :: b ++ ch "/" :: y), c. split; [reflexivity|].
    split; [now apply Mt_digits|].
    exists [ch "/"], (b ++ ch "/" :: y), c. split; [reflexivity|].
    split; [now apply Mt_Lit|].
    exists b, (ch "/" :: y), c. split; [reflexivity|].
    split; [now apply Mt_digits|].
    exists [ch "/"], y, c. split; [reflexivity|].
    split; [now apply Mt_Lit|].
    exists y, [], c. split; [now rewrite app_nil_r|].
    split; [now apply Mt_digits | now apply Mt_Eps].
Qed.

(** *** Running the matcher on a token of the right shape *)

Lemma m_digits_lit (lo hi : nat) (x : char) (r : regex) (u s : jsstring)
      (i : nat) (c : captures) k :
  digit_run lo hi u -> is_digit x = false ->
  m (Seq (digits lo hi) (Seq (Lit x) r)) i (u ++ x :: s) c k
  = m r (S (i + List.length u)) s c k.
Proof.
  intros [Hu Hlen] Hx. simpl. unfold digits. rewrite rep_greedy_stop; try assumption.
  - simpl. now rewrite eqc_refl.
  - lia.
  - simpl. lia.
  - now right.
  - right. intros j y t Hy. simpl. destruct (eqc x y) eqn:E; [|reflexivity].
    apply eqc_eq in E. congruence.
Qed.

Lemma m_digits_exact (n : nat) (r : regex) (u s : jsstring)
      (i : nat) (c : captures) k :
  digit_run n n u ->
  m (Seq (digits n n) r) i (u ++ s) c k = m r (i + List.length u) s c k.
Proof.
  intros [Hu Hlen]. simpl. unfold digits. rewrite rep_greedy_stop; try assumption.
  - reflexivity.
  - lia.
  - simpl. lia.
  - left. f_equal. lia.
  - left. lia.
Qed.

Lemma m_Grp_exact (n : nat) (a r : regex) (u s : jsstring) (i : nat) (c : captures) k :
  (forall k', m a i (u ++ s) c k' = k' (i + List.length u) s c) ->
  m (Seq (Grp n a) r) i (u ++ s) c k = m r (i + List.length u) s (upd n u c) k.
Proof. intro H. simpl. rewrite H. now rewrite firstn_exact. Qed.

Lemma slash_not_digit : is_digit (ch "/") = false.
Proof. reflexivity. Qed.

Lemma colon_not_digit : is_digit (ch ":") = false.
Proof. reflexivity. Qed.

Lemma m_DATE (d s : jsstring) (i : nat) (c : captures) k :
  date_shape d -> m DATE i (d ++ s) c k = k (i + List.length d) s c.
Proof.
  intros (a & b & y & -> & Ha & Hb & Hy). unfold DATE. cbn [Seqs].
  rewrite <- app_assoc. cbn [app]. rewrite <- app_assoc. cbn [app].
  rewrite m_digits_lit; [| exact Ha | exact slash_not_digit].
  rewrite m_digits_lit; [| exact Hb | exact slash_not_digit].
  rewrite m_digits_exact; [| exact Hy]. simpl. f_equal.
  rewrite length_app. simpl. rewrite length_app. simpl. lia.
Qed.

Lemma m_TIME_2 (t s : jsstring) (i : nat) (c : captures) k :
  time2_shape t -> m TIME_2 i (t ++ s) c k = k (i + List.length t) s c.
Proof.
  intros (h & mi & g & ap & -> & Hh & Hmi & Hg & Hap). unfold TIME_2. cbn [Seqs].
  rewrite <- app_assoc. cbn [app]. rewrite <- app_assoc. cbn [app].
  rewrite m_digits_lit; [| exact Hh | exact colon_not_digit].
  rewrite m_digits_exact; [| exact Hmi]. simpl. rewrite Hg, Hap. simpl. f_equal.
  rewrite length_app. simpl. rewrite length_app. simpl. lia.
Qed.

Lemma m_TIME_1 (t s : jsstring) (i : nat) (c : captures) k :
  time1_shape t -> m TIME_1 i (t ++ s) c k = k (i + List.length t) s c.
Proof.
  intros (h & mi & ss & ap & -> & Hh & Hmi & Hss & Hap). unfold TIME_1. cbn [Seqs].
  rewrite <- app_assoc. cbn [app]. rewrite <- app_assoc. cbn [app].
  rewrite <- app_assoc. cbn [app].
  rewrite m_digits_lit; [| exact Hh | exact colon_not_digit].
  rewrite m_digits_lit; [| exact Hmi | exact colon_not_digit].
  rewrite m_digits_exact; [| exact Hss]. simpl. rewrite Hap. simpl. f_equal.
  repeat (rewrite length_app; simpl). lia.
Qed.

Lemma Mt_TIME_2 (i : nat) (u rest : jsstring) (c c' : captures) :
  Mt TIME_2 i u rest c c' <-> time2_shape u /\ c' = c.
Proof.
  unfold TIME_2, time2_shape. cbn [Seqs]. split.
  - intro H.
    repeat (apply Mt_Seq in H; destruct H as (? & ? & ? & -> & ?H & H)).
    apply Mt_Eps in H as [-> ->].
    repeat match goal with
    | H : Mt (digits _ _) _ _ _ _ _ |- _ => apply Mt_digits in H; destruct H as [? ->]
    | H : Mt (Lit _) _ _ _ _ _ |- _ => apply Mt_Lit in H; destruct H as [-> ->]
    | H : Mt (Cls _) _ _ _ _ _ |- _ => apply Mt_Cls in H; destruct H as (? & -> & ? & ->)
    end.
    split; [|reflexivity]. do 4 eexists. simpl.
    split; [reflexivity | auto].
  - intros [(h & mi & g & ap & -> & Hh & Hmi & Hg & Hap) ->].
    exists h, (ch ":" :: mi ++ [g; ap; ch "M"]), c. split; [reflexivity|].
    split; [now apply Mt_digits|].
    exists [ch ":"], (mi ++ [g; ap; ch "M"]), c. split; [reflexivity|].
    split; [now apply Mt_Lit|].
    exists mi, [g; ap; ch "M"], c. split; [reflexivity|].
    split; [now apply Mt_digits|].
    exists [g], [ap; ch "M"], c. split; [reflexivity|].
    split; [apply Mt_Cls; eauto|].
    exists [ap], [ch "M"], c. split; [reflexivity|].
    split; [apply Mt_Cls; eauto|].
    exists [ch "M"], [], c. split; [reflexivity|].
    split; [now apply Mt_Lit | now apply Mt_Eps].
Qed.

Lemma Mt_TIME_1 (i : nat) (u rest : jsstring) (c c' : captures) :
  Mt TIME_1 i u rest c c' <-> time1_shape u /\ c' = c.
Proof.
  unfold TIME_1, time1_shape. cbn [Seqs]. split.
  - intro H.
    repeat (apply Mt_Seq in H; destruct H as (? & ? & ? & -> & ?H & H)).
    apply Mt_Eps in H as [-> ->].
    repeat match goal with
    | H : Mt (digits _ _) _ _ _ _ _ |- _ => apply Mt_digits in H; destruct H as [? ->]
    | H : Mt (Lit _) _ _ _ _ _ |- _ => apply Mt_Lit in H; destruct H as [-> ->]
    | H : Mt (Cls _) _ _ _ _ _ |- _ => apply Mt_Cls in H; destruct H as (? & -> & ? & ->)
    end.
    split; [|reflexivity]. do 4 eexists. simpl.
    split; [reflexivity | auto].
  - intros [(h & mi & ss & ap & -> & Hh & Hmi & Hss & Hap) ->].
    exists h, (ch ":" :: mi ++ ch ":" :: ss ++ [ch " "; ap; ch "M"]), c.
    split; [reflexivity|]. split; [now apply Mt_digits|].
    exists [ch ":"], (mi ++ ch ":" :: ss ++ [ch " "; ap; ch "M"]), c.
    split; [reflexivity|]. split; [now apply Mt_Lit|].
    exists mi, (ch ":" :: ss ++ [ch " "; ap; ch "M"]), c.
    split; [reflexivity|]. split; [now apply Mt_digits|].
    exists [ch ":"], (ss ++ [ch " "; ap; ch "M"]), c.
    split; [reflexivity|]. split; [now apply Mt_Lit|].
    exists ss, [ch " "; ap; ch "M"], c.
    split; [reflexivity|]. split; [now apply Mt_digits|].
    exists [ch " "], [ap; ch "M"], c. split; [reflexivity|].
    split; [now apply Mt_Lit|].
    exists [ap], [ch "M"], c. split; [reflexivity|].
    split; [apply Mt_Cls; eauto|].
    exists [ch "M"], [], c. split; [reflexivity|].
    split; [now apply Mt_Lit | now apply Mt_Eps].
Qed.

Lemma whole_iff (r : regex) (s : jsstring) :
  whole r s = true <-> exists c', Mt r 0 s [] [] c'.
Proof.
  unfold whole. split.
  - destruct (m r 0 s [] _) eqn:E; [|discriminate]. intros _.
    apply m_sound in E as (u & rest & c' & -> & H & Hk).
    destruct rest; [|discriminate]. rewrite app_nil_r. eauto.
  - intros [c' H].
    assert (Hm : m r 0 (s ++ []) []
                   (fun _ s' c => match s' with [] => Some c | _ :: _ => None end) <> None).
    { apply m_complete with (c' := c'); [assumption | discriminate]. }
    rewrite app_nil_r in Hm. destruct (m r 0 s [] _); congruence.
Qed.

Lemma is_date_token_iff (d : jsstring) : is_date_token d = true <-> date_shape d.
Proof.
  unfold is_date_token. rewrite whole_iff. split.
  - intros [c' H]. now apply Mt_DATE in H.
  - intro H. exists []. now apply Mt_DATE.
Qed.

Lemma is_time_token_1_iff (t : jsstring) : is_time_token_1 t = true <-> time1_shape t.
Proof.
  unfold is_time_token_1. rewrite whole_iff. split.
  - intros [c' H]. now apply Mt_TIME_1 in H.
  - intro H. exists []. now apply Mt_TIME_1.
Qed.

Lemma is_time_token_2_iff (t : jsstring) : is_time_token_2 t = true <-> time2_shape t.
Proof.
  unfold is_time_token_2. rewrite whole_iff. split.
  - intros [c' H]. now apply Mt_TIME_2 in H.
  - intro H. exists []. now apply Mt_TIME_2.
Qed.

Lemma m_Seq_Str (l : jsstring) (r : regex) (s : jsstring) (i : nat) (c : captures) k :
  m (Seq (Str l) r) i (l ++ s) c k = m r (i + List.length l) s c k.
Proof. simpl. now rewrite m_Str. Qed.

Lemma m_Str_mismatch (y x : char) (l t : jsstring) (r : regex) (j : nat)
      (c : captures) k :
  eqc y x = false -> m (Seq (Str (y :: l)) r) j (x :: t) c k = None.
Proof. intro H. simpl. now rewrite H. Qed.

(** A greedy group over a class, followed by something that cannot begin
    with a character of the class, captures the longest run. *)
Lemma m_Grp_rep_stop (n lo : nat) (p : char -> bool) (r : regex) (u s : jsstring)
      (i : nat) (c : captures) k :
  forallb p u = true -> lo <= List.length u ->
  match s with [] => True | y :: _ => p y = false end ->
  (forall j x t c', p x = true -> m r j (x :: t) c' k = None) ->
  m (Seq (Grp n (Rep true p lo None)) r) i (u ++ s) c k
  = m r (i + List.length u) s (upd n u c) k.
Proof.
  intros Hu Hlo Hs Hr. simpl. rewrite rep_greedy_stop; try assumption.
  - now rewrite firstn_exact.
  - exact I.
  - now right.
  - right. intros j x t Hx. apply Hr, Hx.
Qed.

Lemma Mt_Grp (n : nat) (a : regex) (i : nat) (u rest : jsstring) (c c' : captures) :
  Mt (Grp n a) i u rest c c' <-> exists d, Mt a i u rest c d /\ c' = upd n u d.
Proof. reflexivity. Qed.

Lemma Mt_Rep g p lo hi (i : nat) (u rest : jsstring) (c c' : captures) :
  Mt (Rep g p lo hi) i u rest c c' <->
  forallb p u = true /\ lo <= List.length u /\ within hi (List.length u) /\ c' = c.
Proof. reflexivity. Qed.

Lemma Mt_Bol (i : nat) (u rest : jsstring) (c c' : captures) :
  Mt Bol i u rest c c' <-> i = 0 /\ u = [] /\ c' = c.
Proof. reflexivity. Qed.

Lemma Mt_Eol (i : nat) (u rest : jsstring) (c c' : captures) :
  Mt Eol i u rest c c' <-> rest = [] /\ u = [] /\ c' = c.
Proof. reflexivity. Qed.

(** Takes a reading of a sequence of tokens apart. *)
Ltac mt_inv :=
  repeat match goal with
  | H : Mt (Seq _ _) _ _ _ _ _ |- _ => destruct H as (? & ? & ? & -> & ? & ?)
  | H : Mt Eps _ _ _ _ _ |- _ => destruct H as [-> ->]
  | H : Mt (Grp _ _) _ _ _ _ _ |- _ => destruct H as (? & ? & ->)
  | H : Mt DATE _ _ _ _ _ |- _ => apply Mt_DATE in H; destruct H as [? ->]
  | H : Mt TIME_1 _ _ _ _ _ |- _ => apply Mt_TIME_1 in H; destruct H as [? ->]
  | H : Mt TIME_2 _ _ _ _ _ |- _ => apply Mt_TIME_2 in H; destruct H as [? ->]
  | H : Mt (Str _) _ _ _ _ _ |- _ => apply Mt_Str in H; destruct H as [-> ->]
  | H : Mt (Lit _) _ _ _ _ _ |- _ => apply Mt_Lit in H; destruct H as [-> ->]
  | H : Mt (Rep _ _ _ _) _ _ _ _ _ |- _ => destruct H as (? & ? & _ & ->)
  | H : Mt Bol _ _ _ _ _ |- _ => destruct H as (? & -> & ->)
  | H : Mt Eol _ _ _ _ _ |- _ => destruct H as (H & -> & ->); simpl in H; subst
  end.

Lemma m_user_tail (sn b : jsstring) (i : nat) (c : captures) k :
  sn <> [] -> forallb not_colon sn = true -> forallb dot b = true ->
  m user_tail i (sn ++ str ": " ++ b) c k
  = k (i + List.length sn + 2 + List.length b) [] (upd 4 b (upd 3 sn c)).
Proof.
  intros Hne Hsn Hb. unfold user_tail. cbn [Seqs].
  rewrite m_Grp_rep_stop; try assumption.
  - rewrite m_Seq_Str. rewrite <- (app_nil_r b) at 1.
    rewrite m_Grp_rep_stop; try assumption.
    + reflexivity.
    + lia.
    + exact I.
    + reflexivity.
  - destruct sn; [contradiction | simpl; lia].
  - reflexivity.
  - intros j x t c' Hx. apply m_Str_mismatch. unfold not_colon in Hx.
    apply negb_true_iff in Hx. unfold eqc in *. now rewrite N.eqb_sym.
Qed.

Lemma m_system_tail (b : jsstring) (i : nat) (c : captures) k :
  b <> [] -> forallb dot b = true ->
  m system_tail i b c k = k (i + List.length b) [] (upd 3 b c).
Proof.
  intros Hne Hb. unfold system_tail. cbn [Seqs].
  rewrite <- (app_nil_r b) at 1.
  rewrite m_Grp_rep_stop; try assumption.
  - reflexivity.
  - destruct b; [contradiction | simpl; lia].
  - exact I.
  - reflexivity.
Qed.

Lemma m_user_tail_inv (s : jsstring) (i : nat) (c : captures) k res :
  m user_tail i s c k = Some res ->
  exists sn b, s = sn ++ str ": " ++ b /\ sn <> [] /\ forallb not_colon sn = true
               /\ forallb dot b = true.
Proof.
  intro H. apply m_sound in H as (u & rest & c' & -> & H & _).
  unfold user_tail in H. cbn [Seqs] in H. mt_inv.
  match goal with
  | Hs : forallb not_colon ?sn = true, Hb : forallb dot ?b = true |- _ =>
      exists sn, b
  end.
  rewrite !app_nil_r. repeat split; try assumption.
  intros ->. simpl in *. lia.
Qed.

Lemma m_system_tail_inv (s : jsstring) (i : nat) (c : captures) k res :
  m system_tail i s c k = Some res -> s <> [] /\ forallb dot s = true.
Proof.
  intro H. apply m_sound in H as (u & rest & c' & -> & H & _).
  unfold system_tail in H. cbn [Seqs] in H. mt_inv.
  rewrite !app_nil_r. split; [|assumption].
  intros ->. simpl in *. lia.
Qed.

(** *** The start patterns *)

Lemma pattern_1_bracket : MESSAGE_START_PATTERN_1 = bracket_start user_tail.
Proof. reflexivity. Qed.

Lemma pattern_2_dash : MESSAGE_START_PATTERN_2 = dash_start user_tail.
Proof. reflexivity. Qed.

Lemma pattern_2_system_dash : MESSAGE_START_PATTERN_2_SYSTEM = dash_start system_tail.
Proof. reflexivity. Qed.

Lemma m_Seq_Lit (x : char) (r : regex) (s : jsstring) (i : nat) (c : captures) k :
  m (Seq (Lit x) r) i (x :: s) c k = m r (S i) s c k.
Proof. simpl. now rewrite eqc_refl. Qed.

Lemma exec_dash_start (tail : regex) (d t rest : jsstring) :
  date_shape d -> time2_shape t ->
  let line := d ++ str ", " ++ t ++ str " - " ++ rest in
  exec (dash_start tail) line
  = m tail (List.length d + 2 + List.length t + 3) rest
      (upd 2 t (upd 1 d (repeat None (S (ngroups (dash_start tail))))))
      (finish line).
Proof.
  intros Hd Ht line. unfold dash_start at 1. rewrite exec_anchored.
  unfold match_at. fold (dash_start tail).
  generalize (repeat (@None jsstring) (S (ngroups (dash_start tail)))) as c0. intro c0.
  change (m (Grp 0 (dash_start tail)) 0 line c0 accept)
    with (m (dash_start tail) 0 line c0 (finish line)).
  unfold dash_start. change (m (Seq Bol ?r) 0 ?s ?c ?k) with (m r 0 s c k).
  unfold line.
  rewrite m_Grp_exact by (intro; now apply m_DATE).
  rewrite m_Seq_Str.
  rewrite m_Grp_exact by (intro; now apply m_TIME_2).
  rewrite m_Seq_Str. reflexivity.
Qed.

Lemma exec_bracket_start (tail : regex) (d t rest : jsstring) :
  date_shape d -> time1_shape t ->
  let line := ch "[" :: d ++ str ", " ++ t ++ str "] " ++ rest in
  exec (bracket_start tail) line
  = m tail (1 + List.length d + 2 + List.length t + 2) rest
      (upd 2 t (upd 1 d (repeat None (S (ngroups (bracket_start tail))))))
      (finish line).
Proof.
  intros Hd Ht line. unfold bracket_start at 1. rewrite exec_anchored.
  unfold match_at. fold (bracket_start tail).
  generalize (repeat (@None jsstring) (S (ngroups (bracket_start tail)))) as c0. intro c0.
  change (m (Grp 0 (bracket_start tail)) 0 line c0 accept)
    with (m (bracket_start tail) 0 line c0 (finish line)).
  unfold bracket_start. change (m (Seq Bol ?r) 0 ?s ?c ?k) with (m r 0 s c k).
  unfold line. rewrite m_Seq_Lit.
  rewrite m_Grp_exact by (intro; now apply m_DATE).
  rewrite m_Seq_Str.
  rewrite m_Grp_exact by (intro; now apply m_TIME_1).
  rewrite m_Seq_Str. reflexivity.
Qed.

Lemma exec_dash_start_inv (tail : regex) (line : jsstring) (c : captures) :
  exec (dash_start tail) line = Some c ->
  exists d t rest, line = d ++ str ", " ++ t ++ str " - " ++ rest
                   /\ date_shape d /\ time2_shape t.
Proof.
  unfold dash_start at 1. rewrite exec_anchored. unfold match_at. intro H.
  apply m_sound in H as (u & rest & c' & -> & H & _).
  destruct H as (c1 & H & _). mt_inv.
  match goal with
  | Hd : date_shape ?d, Ht : time2_shape ?t, Hm : Mt tail _ ?v _ _ _ |- _ =>
      exists d, t, (v ++ rest)
  end.
  cbn [app]. repeat (rewrite <- app_assoc; cbn [app]). auto.
Qed.

Lemma exec_bracket_start_inv (tail : regex) (line : jsstring) (c : captures) :
  exec (bracket_start tail) line = Some c ->
  exists d t rest, line = ch "[" :: d ++ str ", " ++ t ++ str "] " ++ rest
                   /\ date_shape d /\ time1_shape t.
Proof.
  unfold bracket_start at 1. rewrite exec_anchored. unfold match_at. intro H.
  apply m_sound in H as (u & rest & c' & -> & H & _).
  destruct H as (c1 & H & _). mt_inv.
  match goal with
  | Hd : date_shape ?d, Ht : time1_shape ?t, Hm : Mt tail _ ?v _ _ _ |- _ =>
      exists d, t, (v ++ rest)
  end.
  cbn [app]. repeat (rewrite <- app_assoc; cbn [app]). auto.
Qed.

Lemma finish_all (line : jsstring) (n : nat) (s : jsstring) (c : captures) :
  n = List.length line -> finish line n s c = Some (upd 0 line c).
Proof.
  intros ->. unfold finish. now rewrite Nat.sub_0_r, firstn_all.
Qed.

Ltac lengths :=
  simpl List.length; repeat (rewrite length_app; simpl List.length); simpl; lia.

Lemma exec_pattern_2 (d t sn b : jsstring) :
  date_shape d -> time2_shape t ->
  sn <> [] -> forallb not_colon sn = true -> forallb dot b = true ->
  let line := d ++ str ", " ++ t ++ str " - " ++ sn ++ str ": " ++ b in
  exec MESSAGE_START_PATTERN_2 line
  = Some [Some line; Some d; Some t; Some sn; Some b].
Proof.
  intros Hd Ht Hne Hsn Hb line. rewrite pattern_2_dash.
  unfold line. rewrite exec_dash_start by assumption.
  rewrite m_user_tail by assumption. rewrite finish_all by lengths. reflexivity.
Qed.

Lemma exec_pattern_2_inv (line : jsstring) (c : captures) :
  exec MESSAGE_START_PATTERN_2 line = Some c ->
  exists d t sn b,
    line = d ++ str ", " ++ t ++ str " - " ++ sn ++ str ": " ++ b
    /\ date_shape d /\ time2_shape t
    /\ sn <> [] /\ forallb not_colon sn = true /\ forallb dot b = true
    /\ c = [Some line; Some d; Some t; Some sn; Some b].
Proof.
  intro H. rewrite pattern_2_dash in H.
  destruct (exec_dash_start_inv _ _ H) as (d & t & rest & -> & Hd & Ht).
  rewrite exec_dash_start in H by assumption.
  destruct (m_user_tail_inv _ _ _ _ H) as (sn & b & -> & Hne & Hsn & Hb).
  exists d, t, sn, b. repeat split; try assumption.
  rewrite m_user_tail in H by assumption. rewrite finish_all in H by lengths.
  now injection H as <-.
Qed.

Lemma exec_pattern_2_system (d t b : jsstring) :
  date_shape d -> time2_shape t -> b <> [] -> forallb dot b = true ->
  let line := d ++ str ", " ++ t ++ str " - " ++ b in
  exec MESSAGE_START_PATTERN_2_SYSTEM line = Some [Some line; Some d; Some t; Some b].
Proof.
  intros Hd Ht Hne Hb line. rewrite pattern_2_system_dash.
  unfold line. rewrite exec_dash_start by assumption.
  rewrite m_system_tail by assumption. rewrite finish_all by lengths. reflexivity.
Qed.

Lemma exec_pattern_2_system_inv (line : jsstring) (c : captures) :
  exec MESSAGE_START_PATTERN_2_SYSTEM line = Some c ->
  exists d t b,
    line = d ++ str ", " ++ t ++ str " - " ++ b
    /\ date_shape d /\ time2_shape t /\ b <> [] /\ forallb dot b = true
    /\ c = [Some line; Some d; Some t; Some b].
Proof.
  intro H. rewrite pattern_2_system_dash in H.
  destruct (exec_dash_start_inv _ _ H) as (d & t & rest & -> & Hd & Ht).
  rewrite exec_dash_start in H by assumption.
  destruct (m_system_tail_inv _ _ _ _ H) as (Hne & Hb).
  exists d, t, rest. repeat split; try assumption.
  rewrite m_system_tail in H by assumption. rewrite finish_all in H by lengths.
  now injection H as <-.
Qed.

Lemma exec_pattern_1 (d t sn b : jsstring) :
  date_shape d -> time1_shape t ->
  sn <> [] -> forallb not_colon sn = true -> forallb dot b = true ->
  let line := ch "[" :: d ++ str ", " ++ t ++ str "] " ++ sn ++ str ": " ++ b in
  exec MESSAGE_START_PATTERN_1 line
  = Some [Some line; Some d; Some t; Some sn; Some b].
Proof.
  intros Hd Ht Hne Hsn Hb line. rewrite pattern_1_bracket.
  unfold line. rewrite exec_bracket_start by assumption.
  rewrite m_user_tail by assumption. rewrite finish_all by lengths. reflexivity.
Qed.

Lemma exec_pattern_1_inv (line : jsstring) (c : captures) :
  exec MESSAGE_START_PATTERN_1 line = Some c ->
  exists d t sn b,
    line = ch "[" :: d ++ str ", " ++ t ++ str "] " ++ sn ++ str ": " ++ b
    /\ date_shape d /\ time1_shape t
    /\ sn <> [] /\ forallb not_colon sn = true /\ forallb dot b = true
    /\ c = [Some line; Some d; Some t; Some sn; Some b].
Proof.
  intro H. rewrite pattern_1_bracket in H.
  destruct (exec_bracket_start_inv _ _ H) as (d & t & rest & -> & Hd & Ht).
  rewrite exec_bracket_start in H by assumption.
  destruct (m_user_tail_inv _ _ _ _ H) as (sn & b & -> & Hne & Hsn & Hb).
  exists d, t, sn, b. repeat split; try assumption.
  rewrite m_user_tail in H by assumption. rewrite finish_all in H by lengths.
  now injection H as <-.
Qed.

Lemma date_shape_head (d : jsstring) :
  date_shape d -> exists x d', d = x :: d' /\ is_digit x = true.
Proof.
  intros (a & b & y & -> & [Ha Hlen] & _). destruct a as [|x a]; simpl in *; [lia|].
  apply andb_true_iff in Ha as [Hx _]. eauto.
Qed.

(** A line that begins with a date is no line of the bracketed format. *)
Lemma exec_pattern_1_date (d rest : jsstring) :
  date_shape d -> exec MESSAGE_START_PATTERN_1 (d ++ rest) = None.
Proof.
  intro Hd. destruct (exec MESSAGE_START_PATTERN_1 (d ++ rest)) eqn:E; [|reflexivity].
  apply exec_pattern_1_inv in E as (d' & t & sn & b & E & _).
  destruct (date_shape_head Hd) as (x & d0 & -> & Hx).
  injection E as -> _. discriminate.
Qed.

(** ** Built-in functions on well-shaped text *)

Lemma forallb_imp (p q : char -> bool) (u : jsstring) :
  (forall x, p x = true -> q x = true) -> forallb p u = true -> forallb q u = true.
Proof.
  intros Hpq. induction u as [|x u IH]; simpl; [reflexivity|].
  intro H. apply andb_true_iff in H as [Hx Hu]. now rewrite (Hpq x Hx), IH.
Qed.

Lemma forallb_rev (p : char -> bool) (u : jsstring) :
  forallb p (rev u) = forallb p u.
Proof.
  induction u as [|x u IH]; simpl; [reflexivity|].
  rewrite forallb_app, IH. simpl. rewrite andb_true_r. apply andb_comm.
Qed.

Lemma split_on_app (p : char -> bool) (u : jsstring) (x : char) (s : jsstring) :
  forallb (fun c => negb (p c)) u = true -> p x = true ->
  split_on p (u ++ x :: s) = u :: split_on p s.
Proof.
  intros Hu Hx. induction u as [|y u IH]; simpl.
  - now rewrite Hx.
  - simpl in Hu. apply andb_true_iff in Hu as [Hy Hu].
    apply negb_true_iff in Hy. rewrite Hy, (IH Hu). reflexivity.
Qed.

Lemma split_on_none (p : char -> bool) (u : jsstring) :
  forallb (fun c => negb (p c)) u = true -> split_on p u = [u].
Proof.
  induction u as [|y u IH]; simpl; [reflexivity|]. intro Hu.
  apply andb_true_iff in Hu as [Hy Hu]. apply negb_true_iff in Hy.
  now rewrite Hy, (IH Hu).
Qed.

Lemma split_on_nonempty (p : char -> bool) (s : jsstring) : split_on p s <> [].
Proof.
  induction s as [|x s IH]; simpl; [discriminate|].
  destruct (p x); [discriminate|]. destruct (split_on p s); discriminate.
Qed.

Lemma pop_split_on (p : char -> bool) (s : jsstring) :
  exists last, pop (split_on p s) = Some last.
Proof.
  unfold pop. destruct (rev (split_on p s)) eqn:E; [|eauto].
  apply (f_equal (@rev jsstring)) in E. rewrite rev_involutive in E.
  now apply split_on_nonempty in E.
Qed.

Lemma drop_while_none (p : char -> bool) (s : jsstring) :
  forallb (fun c => negb (p c)) s = true -> drop_while p s = s.
Proof.
  destruct s as [|x s]; simpl; [reflexivity|]. intro H.
  apply andb_true_iff in H as [Hx _]. apply negb_true_iff in Hx. now rewrite Hx.
Qed.

Lemma take_while_all (p : char -> bool) (s : jsstring) :
  forallb p s = true -> take_while p s = s.
Proof.
  induction s as [|x s IH]; simpl; [reflexivity|]. intro H.
  apply andb_true_iff in H as [Hx Hs]. now rewrite Hx, (IH Hs).
Qed.

Lemma digits_no_space (u : jsstring) :
  forallb is_digit u = true -> forallb (fun c => negb (is_space c)) u = true.
Proof.
  apply forallb_imp. intros x Hx. now rewrite digit_not_space.
Qed.

Lemma trim_digits (u : jsstring) : forallb is_digit u = true -> trim u = u.
Proof.
  intro H. unfold trim. rewrite (drop_while_none _ _ (digits_no_space _ H)).
  rewrite drop_while_none; [apply rev_involutive|].
  rewrite forallb_rev. now apply digits_no_space.
Qed.

Lemma Number_digits (u : jsstring) :
  forallb is_digit u = true -> u <> [] -> List.length u <= 15 ->
  Number u = Ok (Int (dec_value u)).
Proof.
  intros Hu Hne Hlen. unfold Number. rewrite (trim_digits _ Hu).
  destruct u as [|x u]; [contradiction|]. rewrite Hu.
  apply Nat.leb_le in Hlen. now rewrite Hlen.
Qed.

Lemma parseInt_digits (u : jsstring) :
  forallb is_digit u = true -> u <> [] -> parseInt u = Some (dec_value u).
Proof.
  intros Hu Hne. unfold parseInt.
  rewrite (drop_while_none _ _ (digits_no_space _ Hu)).
  destruct u as [|x u]; [contradiction|].
  pose proof Hu as Hu'. simpl in Hu'. apply andb_true_iff in Hu' as [Hx Hrest].
  assert (E1 : eqc x (ch "-") = false) by (clear - Hx; char_arith).
  assert (E2 : eqc x (ch "+") = false) by (clear - Hx; char_arith).
  rewrite E1, E2. destruct u as [|y u].
  - cbv beta iota zeta. rewrite (take_while_all _ _ Hu). reflexivity.
  - simpl in Hrest. apply andb_true_iff in Hrest as [Hy _].
    assert (E3 : eqc y (ch "x") = false) by (clear - Hy; char_arith).
    assert (E4 : eqc y (ch "X") = false) by (clear - Hy; char_arith).
    rewrite E3, E4, andb_false_r. cbv beta iota zeta.
    rewrite (take_while_all _ _ Hu). reflexivity.
Qed.

Lemma dec_value_nonneg_from (u : jsstring) :
  forallb is_digit u = true -> forall acc, (0 <= acc)%Z ->
  (0 <= fold_left (fun a c => a * 10 + digit_value c) u acc)%Z.
Proof.
  induction u as [|x u IH]; simpl; intros H acc Hacc; [assumption|].
  apply andb_true_iff in H as [Hx Hu]. apply IH; [assumption|].
  unfold digit_value. clear - Hx Hacc. char_arith.
Qed.

Lemma dec_value_nonneg (u : jsstring) :
  forallb is_digit u = true -> (0 <= dec_value u)%Z.
Proof. intro H. apply dec_value_nonneg_from; [assumption | lia]. Qed.

(** ** [parseDateTime] on tokens made of numeric fields *)

Lemma numeric_digits (u : jsstring) :
  numeric u = true -> forallb is_digit u = true /\ u <> [].
Proof. destruct u; simpl; [discriminate|]. intro H. split; [assumption | discriminate]. Qed.

Lemma digits_no (x : char) (u : jsstring) :
  is_digit x = false -> forallb is_digit u = true ->
  forallb (fun c => negb (eqc x c)) u = true.
Proof.
  intros Hx. apply forallb_imp. intros y Hy. apply negb_true_iff.
  destruct (eqc x y) eqn:E; [|reflexivity]. apply eqc_eq in E. congruence.
Qed.

Lemma split_date (a b y : jsstring) :
  forallb is_digit a = true -> forallb is_digit b = true -> forallb is_digit y = true ->
  split_on (eqc (ch "/")) (date_text a b y) = [a; b; y].
Proof.
  intros Ha Hb Hy. unfold date_text.
  rewrite split_on_app by (try apply digits_no; auto).
  rewrite split_on_app by (try apply digits_no; auto).
  rewrite split_on_none by (apply digits_no; auto). reflexivity.
Qed.

Lemma clock_no_gap (h mi : jsstring) (osec : option jsstring) :
  forallb is_digit h = true -> forallb is_digit mi = true ->
  match osec with Some ss => forallb is_digit ss = true | None => True end ->
  forallb (fun c => negb (time_gap c)) (h ++ ch ":" :: mi ++ seconds_text osec) = true.
Proof.
  intros Hh Hmi Hs.
  assert (D : forall u, forallb is_digit u = true ->
                        forallb (fun c => negb (time_gap c)) u = true).
  { intro u. apply forallb_imp. intros x Hx. now rewrite digit_not_gap. }
  rewrite forallb_app, (D _ Hh). simpl. rewrite forallb_app, (D _ Hmi).
  destruct osec as [ss|]; simpl; [now rewrite (D _ Hs) | reflexivity].
Qed.

Lemma A_or_P_cases (ap : char) : A_or_P ap = true -> ap = ch "A" \/ ap = ch "P".
Proof.
  unfold A_or_P. intro H. apply orb_true_iff in H as [H | H]; apply eqc_eq in H; auto.
Qed.

Lemma split_time_gap (h mi : jsstring) (osec : option jsstring) (g ap : char) :
  forallb is_digit h = true -> forallb is_digit mi = true ->
  match osec with Some ss => forallb is_digit ss = true | None => True end ->
  time_gap g = true -> A_or_P ap = true ->
  split_on time_gap (time_text h mi osec g ap)
  = [h ++ ch ":" :: mi ++ seconds_text osec; [ap; ch "M"]].
Proof.
  intros Hh Hmi Hs Hg Hap. unfold time_text.
  replace (h ++ ch ":" :: mi ++ seconds_text osec ++ [g; ap; ch "M"])
    with ((h ++ ch ":" :: mi ++ seconds_text osec) ++ g :: [ap; ch "M"])
    by (rewrite <- app_assoc; simpl; now rewrite <- app_assoc).
  rewrite split_on_app by (try apply clock_no_gap; assumption).
  destruct (A_or_P_cases _ Hap) as [-> | ->]; reflexivity.
Qed.

Lemma split_clock (h mi : jsstring) (osec : option jsstring) :
  forallb is_digit h = true -> forallb is_digit mi = true ->
  match osec with Some ss => forallb is_digit ss = true | None => True end ->
  split_on (eqc (ch ":")) (h ++ ch ":" :: mi ++ seconds_text osec)
  = h :: mi :: match osec with Some ss => [ss] | None => [] end.
Proof.
  intros Hh Hmi Hs.
  rewrite split_on_app by (try apply digits_no; auto).
  destruct osec as [ss|]; simpl seconds_text.
  - rewrite split_on_app by (try apply digits_no; auto).
    rewrite split_on_none by (apply digits_no; auto). reflexivity.
  - rewrite app_nil_r. rewrite split_on_none by (apply digits_no; auto). reflexivity.
Qed.

Lemma to_24h_marker (ap : char) (h : Z) :
  A_or_P ap = true ->
  to_24h (Some [ap; ch "M"]) (Int h) = Int (hour24 (eqc ap (ch "P")) h).
Proof.
  intro Hap. unfold to_24h, hour24.
  destruct (A_or_P_cases _ Hap) as [-> | ->]; simpl;
    destruct (Z.eqb_spec h 12) as [-> | _]; reflexivity.
Qed.

Lemma hour24_nonneg (pm : bool) (h : Z) : (0 <= h)%Z -> (0 <= hour24 pm h)%Z.
Proof. unfold hour24. intro H. destruct pm, (h =? 12)%Z; lia. Qed.

Lemma num_string_nonneg (z : Z) : (0 <= z)%Z -> num_string (Int z) = dec (Z.to_N z).
Proof.
  intro H. unfold num_string. apply Z.ltb_ge in H. now rewrite H.
Qed.

Lemma day_month_fields (a b y : jsstring) (formatType : nat) :
  numeric a = true -> numeric b = true ->
  day_month [a; b; y] formatType
  = if day_first a b formatType then (Some a, Some b) else (Some b, Some a).
Proof.
  intros Ha Hb. apply numeric_digits in Ha as [Ha Ha'], Hb as [Hb Hb'].
  unfold day_month, day_first. simpl nth_error. simpl display.
  rewrite !parseInt_digits by assumption. simpl gt12.
  destruct (12 <? dec_value a)%Z; [reflexivity|].
  destruct (12 <? dec_value b)%Z; [reflexivity|].
  destruct (Nat.eqb formatType 2); reflexivity.
Qed.

(** What [parseDateTime] returns on tokens made of numeric fields. *)
Lemma parseDateTime_fields (a b y h mi : jsstring) (osec : option jsstring)
      (g ap : char) (formatType : nat) :
  numeric a = true -> numeric b = true -> numeric y = true ->
  numeric h = true -> short h = true -> numeric mi = true -> short mi = true ->
  match osec with Some ss => numeric ss = true /\ short ss = true | None => True end ->
  time_gap g = true -> A_or_P ap = true ->
  parseDateTime (date_text a b y) (time_text h mi osec g ap) formatType
  = Ok (iso y (if day_first a b formatType then b else a)
              (if day_first a b formatType then a else b)
              (hour24 (eqc ap (ch "P")) (dec_value h))
              (dec_value mi) (seconds_value osec)).
Proof.
  intros Ha Hb Hy Hh Hh' Hmi Hmi' Hs Hg Hap.
  pose proof (numeric_digits _ Ha) as [Da _].
  pose proof (numeric_digits _ Hb) as [Db _].
  pose proof (numeric_digits _ Hy) as [Dy _].
  pose proof (numeric_digits _ Hh) as [Dh Nh].
  pose proof (numeric_digits _ Hmi) as [Dmi Nmi].
  assert (Ds : match osec with Some ss => forallb is_digit ss = true | None => True end).
  { destruct osec as [ss|]; [|exact I]. destruct Hs as [Hs _].
    now apply numeric_digits in Hs. }
  unfold parseDateTime.
  rewrite split_date by assumption. rewrite day_month_fields by assumption.
  rewrite split_time_gap by assumption.
  cbn [nth nth_error]. rewrite split_clock by assumption.
  cbn [List.map nth nth_error].
  rewrite (@Number_digits h) by (try apply Nat.leb_le; assumption).
  rewrite (@Number_digits mi) by (try apply Nat.leb_le; assumption).
  cbn [bind].
  assert (Hsv : (0 <= seconds_value osec)%Z).
  { destruct osec as [ss|]; simpl; [|lia]. apply dec_value_nonneg.
    destruct Hs as [Hs _]. now apply numeric_digits in Hs. }
  assert (Hsec : match match List.map Number
                               match osec with Some ss => [ss] | None => [] end with
                       | [] => None
                       | x :: _ => Some x
                       end with
                 | Some n => v <- n ;; Ok (or_zero (Some v))
                 | None => Ok (or_zero None)
                 end = Ok (Int (seconds_value osec))).
  { destruct osec as [ss|]; [|reflexivity]. destruct Hs as [Hs Hs'].
    apply numeric_digits in Hs as [Hs Ns]. cbn [List.map].
    rewrite Number_digits by (try apply Nat.leb_le; assumption). reflexivity. }
  rewrite Hsec. unfold iso.
  destruct (day_first a b formatType); cbn [bind defined display];
    rewrite to_24h_marker by assumption;
    rewrite !num_string_nonneg
      by (try apply hour24_nonneg; try apply dec_value_nonneg; assumption);
    reflexivity.
Qed.

Lemma date_shape_text (d : jsstring) :
  date_shape d ->
  exists a b y, d = date_text a b y
                /\ numeric a = true /\ numeric b = true /\ numeric y = true.
Proof.
  intros (a & b & y & -> & [Ha La] & [Hb Lb] & [Hy Ly]). exists a, b, y.
  unfold numeric. destruct a, b, y; simpl in *; try lia. auto.
Qed.

Lemma time1_shape_text (t : jsstring) :
  time1_shape t ->
  exists h mi ss ap, t = time_text h mi (Some ss) (ch " ") ap
    /\ numeric h = true /\ short h = true /\ numeric mi = true /\ short mi = true
    /\ numeric ss = true /\ short ss = true /\ A_or_P ap = true.
Proof.
  intros (h & mi & ss & ap & -> & [Hh Lh] & [Hmi Lmi] & [Hss Lss] & Hap).
  exists h, mi, ss, ap. unfold numeric, short, time_text, seconds_text.
  destruct h, mi, ss; simpl in *; try lia.
  repeat split; try assumption; try (apply Nat.leb_le; lia).
Qed.

Lemma time2_shape_text (t : jsstring) :
  time2_shape t ->
  exists h mi g ap, t = time_text h mi None g ap
    /\ numeric h = true /\ short h = true /\ numeric mi = true /\ short mi = true
    /\ time_gap g = true /\ A_or_P ap = true.
Proof.
  intros (h & mi & g & ap & -> & [Hh Lh] & [Hmi Lmi] & Hg & Hap).
  exists h, mi, g, ap. unfold numeric, short, time_text, seconds_text.
  destruct h, mi; simpl in *; try lia.
  repeat split; try assumption; apply Nat.leb_le; lia.
Qed.

(** On the tokens of a start line [parseDateTime] returns a timestamp. *)
Lemma parseDateTime_start_1 (d t : jsstring) (formatType : nat) :
  date_shape d -> time1_shape t ->
  exists ts, parseDateTime d t formatType = Ok ts.
Proof.
  intros Hd Ht.
  destruct (date_shape_text Hd) as (a & b & y & -> & Ha & Hb & Hy).
  destruct (time1_shape_text Ht)
    as (h & mi & ss & ap & -> & Hh & Lh & Hmi & Lmi & Hss & Lss & Hap).
  eexists. apply parseDateTime_fields; auto.
Qed.

Lemma parseDateTime_start_2 (d t : jsstring) (formatType : nat) :
  date_shape d -> time2_shape t ->
  exists ts, parseDateTime d t formatType = Ok ts.
Proof.
  intros Hd Ht.
  destruct (date_shape_text Hd) as (a & b & y & -> & Ha & Hb & Hy).
  destruct (time2_shape_text Ht) as (h & mi & g & ap & -> & Hh & Lh & Hmi & Lmi & Hg & Hap).
  eexists. apply parseDateTime_fields; auto.
Qed.

(** ** [analyzeMessage] *)

Lemma Mt_groupless (r : regex) :
  groupless r = true ->
  forall i u rest c c', Mt r i u rest c c' -> c' = c.
Proof.
  induction r as [|p|a IHa b IHb|a IHa b IHb|g p lo hi|n a IHa| |];
    intros G i u rest c c' H; simpl in G, H; try discriminate.
  - now destruct H.
  - now destruct H as (? & _ & _ & ->).
  - apply andb_true_iff in G as [Ga Gb].
    destruct H as (u1 & u2 & d & _ & Ha & Hb).
    apply (IHa Ga) in Ha. apply (IHb Gb) in Hb. congruence.
  - apply andb_true_iff in G as [Ga Gb]. destruct H as [H | H]; eauto.
  - now destruct H as (_ & _ & _ & ->).
  - now destruct H as (_ & _ & ->).
  - now destruct H as (_ & _ & ->).
Qed.

Lemma exec_attached_inv (content : jsstring) (c : captures) :
  exec MEDIA_ATTACHED_PATTERN content = Some c ->
  exists pre f post,
    content = pre ++ str "<attached: " ++ f ++ ch ">" :: post
    /\ f <> [] /\ forallb dot f = true
    /\ c = [Some (str "<attached: " ++ f ++ [ch ">"]); Some f].
Proof.
  intro H. apply scan_sound in H as (pre & s' & -> & H).
  unfold match_at in H. apply m_sound in H as (u & post & c' & -> & H & Hk).
  injection Hk as <-. destruct H as (c1 & H & ->).
  unfold MEDIA_ATTACHED_PATTERN in H. cbn [Seqs] in H. mt_inv.
  match goal with
  | Hf : forallb dot ?f = true |- _ => exists pre, f, post
  end.
  repeat split; try assumption.
  - now repeat (rewrite <- app_assoc; cbn [app]).
  - intros ->. simpl in *. lia.
Qed.

Lemma exec_attached (pre f post : jsstring) :
  f <> [] -> forallb dot f = true ->
  exec MEDIA_ATTACHED_PATTERN (pre ++ str "<attached: " ++ f ++ ch ">" :: post) <> None.
Proof.
  intros Hne Hf. apply scan_complete. unfold match_at.
  replace (str "<attached: " ++ f ++ ch ">" :: post)
    with ((str "<attached: " ++ f ++ [ch ">"]) ++ post)
    by now repeat (rewrite <- app_assoc; cbn [app]).
  eapply m_complete; [|discriminate].
  eexists. split; [|reflexivity].
  unfold MEDIA_ATTACHED_PATTERN. cbn [Seqs].
  exists (str "<attached: "), (f ++ [ch ">"]), (repeat None 2).
  split; [reflexivity|]. split; [now apply Mt_Str|].
  exists f, [ch ">"], (upd 1 f (repeat None 2)). split; [reflexivity|]. split.
  - eexists. split; [|reflexivity]. simpl. repeat split; try assumption.
    destruct f; [contradiction | simpl; lia].
  - exists [ch ">"], [], (upd 1 f (repeat None 2)). split; [reflexivity|].
    split; [now apply Mt_Lit | now apply Mt_Eps].
Qed.

Lemma exec_attached_2_groups (content : jsstring) (c : captures) :
  exec MEDIA_ATTACHED_PATTERN_2 content = Some c ->
  exists w f e, c = [Some w; Some f; Some e].
Proof.
  unfold MEDIA_ATTACHED_PATTERN_2. cbn [Seqs]. rewrite exec_anchored.
  unfold match_at. intro H.
  apply m_sound in H as (u & post & c' & -> & H & Hk).
  injection Hk as <-. destruct H as (c1 & H & ->).
  destruct H as (u0 & u1 & c2 & -> & HB & H).
  eapply Mt_groupless in HB; [|reflexivity].
  destruct H as (u2 & u3 & c3 & -> & H & H').
  assert (c1 = c3).
  { destruct H' as (u4 & u5 & c4 & -> & H' & [-> ->]).
    eapply Mt_groupless in H'; [congruence | reflexivity]. }
  subst c3. destruct H as (c4 & H & ->).
  destruct H as (u4 & u5 & c5 & -> & HR & H).
  eapply Mt_groupless in HR; [|reflexivity].
  destruct H as (u6 & u7 & c6 & -> & H6 & H).
  destruct H as (u8 & u9 & c7 & -> & H & [-> ->]).
  destruct H as (c8 & H & ->).
  eapply Mt_groupless in H; [|reflexivity].
  eapply Mt_groupless in H6; [|reflexivity].
  subst. cbn [ngroups Nat.max repeat upd].
  do 3 eexists. reflexivity.
Qed.

(** [analyzeMessage] never throws. *)
Lemma analyzeMessage_total (content : jsstring) :
  exists a, analyzeMessage content = Ok a.
Proof.
  unfold analyzeMessage.
  destruct (exec MEDIA_ATTACHED_PATTERN content) as [c|] eqn:E1.
  - apply exec_attached_inv in E1 as (pre & f & post & _ & _ & _ & ->).
    cbn [group nth defined bind].
    destruct (pop_split_on (eqc (ch ".")) f) as [last ->]. cbn [defined bind]. eauto.
  - destruct (exec MEDIA_ATTACHED_PATTERN_2 content) as [c|] eqn:E2.
    + apply exec_attached_2_groups in E2 as (w & f & e & ->).
      cbn [group nth defined bind]. eauto.
    + destruct (test MEDIA_OMITTED_PATTERN content); [eauto|].
      destruct (isSystemMessage content); eauto.
Qed.

(** ** The loop of [parseChatFile] *)

Lemma match_start_inv (line : jsstring) (mt : captures) (isSystem : bool) (ft : nat) :
  match_start line = (Some mt, isSystem, ft) ->
  (exists d t sn b,
      isSystem = false /\ ft = 1
      /\ mt = [Some line; Some d; Some t; Some sn; Some b]
      /\ date_shape d /\ time1_shape t)
  \/ (exists d t sn b,
         isSystem = false /\ ft = 2
         /\ mt = [Some line; Some d; Some t; Some sn; Some b]
         /\ date_shape d /\ time2_shape t)
  \/ (exists d t b,
         isSystem = true /\ ft = 2
         /\ mt = [Some line; Some d; Some t; Some b]
         /\ date_shape d /\ time2_shape t).
Proof.
  unfold match_start.
  destruct (exec MESSAGE_START_PATTERN_1 line) as [c1|] eqn:E1.
  - intro H. injection H as <- <- <-.
    apply exec_pattern_1_inv in E1 as (d & t & sn & b & _ & Hd & Ht & _ & _ & _ & ->).
    left. exists d, t, sn, b. auto.
  - destruct (exec MESSAGE_START_PATTERN_2 line) as [c2|] eqn:E2.
    + intro H. injection H as <- <- <-.
      apply exec_pattern_2_inv in E2 as (d & t & sn & b & _ & Hd & Ht & _ & _ & _ & ->).
      right. left. exists d, t, sn, b. auto.
    + destruct (exec MESSAGE_START_PATTERN_2_SYSTEM line) as [c3|] eqn:E3.
      * intro H. injection H as <- <- <-.
        apply exec_pattern_2_system_inv in E3 as (d & t & b & _ & Hd & Ht & _ & _ & ->).
        right. right. exists d, t, b. auto.
      * discriminate.
Qed.

(** A start line always opens a record. *)
Lemma new_message_total (line : jsstring) (mt : captures) (isSystem : bool)
      (ft n : nat) :
  match_start line = (Some mt, isSystem, ft) ->
  exists msg, new_message mt isSystem ft n = Ok msg
              /\ id msg = msg_id n
              /\ (exists body, body_of (mt, isSystem, ft) = Some body
                               /\ content msg = trim body)
              /\ (isSystem = true -> type msg = System /\ sender msg = str "System").
Proof.
  intro H. apply match_start_inv in H
    as [(d & t & sn & b & -> & -> & -> & Hd & Ht)
       |[(d & t & sn & b & -> & -> & -> & Hd & Ht)
        |(d & t & b & -> & -> & -> & Hd & Ht)]];
    unfold new_message; cbn [group nth defined bind body_of].
  - destruct (parseDateTime_start_1 1 Hd Ht) as [ts ->].
    destruct (analyzeMessage_total b) as [a ->]. cbn [bind].
    eexists. repeat split; try reflexivity; try discriminate. eauto.
  - destruct (parseDateTime_start_2 2 Hd Ht) as [ts ->].
    destruct (analyzeMessage_total b) as [a ->]. cbn [bind].
    eexists. repeat split; try reflexivity; try discriminate. eauto.
  - destruct (parseDateTime_start_2 2 Hd Ht) as [ts ->]. cbn [bind].
    eexists. repeat split; try reflexivity. eauto.
Qed.

Lemma same_header_refl (a : message) : same_header a a.
Proof. unfold same_header. auto. Qed.

Lemma same_header_trans (a b c : message) :
  same_header a b -> same_header b c -> same_header a c.
Proof.
  unfold same_header. intros (? & ? & ? & ? & ?) (? & ? & ? & ? & ?).
  repeat split; congruence.
Qed.

Lemma same_header_append (cur : message) (line : jsstring) :
  same_header cur (append_line cur line).
Proof. unfold same_header. simpl. auto. Qed.

Lemma opened_in_order_length n raws msgs :
  opened_in_order n raws msgs -> List.length raws = List.length msgs.
Proof. induction 1; simpl; congruence. Qed.

Lemma opened_in_order_snoc n raws msgs raw msg :
  opened_in_order n raws msgs ->
  opened_by (n + List.length raws) raw msg ->
  opened_in_order n (raws ++ [raw]) (msgs ++ [msg]).
Proof.
  induction 1 as [n | n r rs m0 ms Hr Hrs IH]; intro H; simpl in *.
  - rewrite Nat.add_0_r in H. constructor; [assumption | constructor].
  - constructor; [assumption|]. apply IH.
    now replace (S (n + List.length rs)) with (n + S (List.length rs)) by lia.
Qed.

Lemma opened_by_grow n raw msg msg' extra :
  opened_by n raw msg -> same_header msg msg' ->
  content msg' = content msg ++ extra ->
  opened_by n raw msg'.
Proof.
  intros (mt & sys & ft & first & tail & Hs & Hn & Hh & Hc) Hh' Hc'.
  exists mt, sys, ft, first, (tail ++ extra).
  split; [assumption|]. split; [assumption|]. split.
  - now apply same_header_trans with msg.
  - rewrite Hc', Hc. now rewrite app_assoc.
Qed.

Lemma opened_in_order_last n raws msgs cur cur' extra :
  opened_in_order n raws (msgs ++ [cur]) ->
  same_header cur cur' -> content cur' = content cur ++ extra ->
  opened_in_order n raws (msgs ++ [cur']).
Proof.
  revert n raws. induction msgs as [|m0 ms IH]; intros n raws H Hh Hc; simpl in *.
  - inversion H as [|? raw rs ? ? Hb Hrest]; subst. inversion Hrest; subst.
    constructor; [|constructor]. eapply opened_by_grow; eassumption.
  - inversion H as [|? raw rs ? ? Hb Hrest]; subst.
    constructor; [assumption|]. now apply IH.
Qed.

Lemma opened_in_order_ids n raws msgs :
  opened_in_order n raws msgs ->
  List.map id msgs = List.map msg_id (seq n (List.length msgs)).
Proof.
  induction 1 as [n | n r rs m0 ms Hr Hrs IH]; simpl; [reflexivity|].
  f_equal; [|assumption].
  destruct Hr as (mt & sys & ft & first & tail & Hs & Hn & (Hid & _) & _).
  rewrite <- Hid. unfold start_of in Hs.
  destruct (clean r) as [|x l] eqn:E; [discriminate|].
  destruct (match_start (x :: l)) as [[[mt'|] sys'] ft'] eqn:Em; [|discriminate].
  injection Hs as -> -> ->.
  destruct (@new_message_total _ _ _ _ n Em) as (msg & Hmsg & Hid' & _). congruence.
Qed.

Lemma is_start_clean_nil (raw : jsstring) : clean raw = [] -> is_start raw = false.
Proof. intro H. unfold is_start, start_of. now rewrite H. Qed.

(** The three things a turn of the loop can do. *)
Lemma step_blank (st : loop_state) (raw : jsstring) :
  clean raw = [] -> step st raw = Ok st.
Proof. intro H. unfold step. now rewrite H. Qed.

Lemma step_start (st : loop_state) (raw : jsstring) mt isSystem ft :
  start_of raw = Some (mt, isSystem, ft) ->
  step st raw = (msg <- new_message mt isSystem ft (S (messageId st)) ;;
                 Ok {| messages := push_current st; currentMessage := Some msg;
                       messageId := S (messageId st) |}).
Proof.
  unfold start_of, step. destruct (clean raw) as [|x l]; [discriminate|].
  destruct (match_start (x :: l)) as [[[mt'|] sys'] ft']; [|discriminate].
  intro H. now injection H as -> -> ->.
Qed.

Lemma step_continuation (st : loop_state) (raw : jsstring) :
  is_continuation raw = true ->
  step st raw = Ok match currentMessage st with
                   | Some cur =>
                       {| messages := messages st;
                          currentMessage := Some (append_line cur (clean raw));
                          messageId := messageId st |}
                   | None => st
                   end.
Proof.
  unfold is_continuation, is_start, start_of, step.
  destruct (clean raw) as [|x l]; [discriminate|].
  destruct (match_start (x :: l)) as [[[mt'|] sys'] ft']; [discriminate|].
  intros _. now destruct (currentMessage st).
Qed.

Lemma line_cases (raw : jsstring) :
  clean raw = [] \/ is_continuation raw = true
  \/ exists start, start_of raw = Some start.
Proof.
  unfold is_continuation, is_start.
  destruct (clean raw) eqn:E; [now left | right].
  destruct (start_of raw); [right; eauto | now left].
Qed.

Lemma start_of_total (raw : jsstring) mt isSystem ft n :
  start_of raw = Some (mt, isSystem, ft) ->
  exists msg, new_message mt isSystem ft n = Ok msg.
Proof.
  unfold start_of. destruct (clean raw) as [|x l]; [discriminate|].
  destruct (match_start (x :: l)) as [[[mt'|] sys'] ft'] eqn:Em; [|discriminate].
  intro H. injection H as -> -> ->.
  destruct (@new_message_total _ _ _ _ n Em) as (msg & Hmsg & _). eauto.
Qed.

Lemma app_last_eq {A : Type} (xs ys more : list A) (x : A) :
  xs ++ [x] = ys ++ more -> more <> [] ->
  exists more', more = more' ++ [x] /\ xs = ys ++ more'.
Proof.
  intros H Hne. destruct (exists_last Hne) as (more' & y & ->).
  rewrite app_assoc in H. apply app_inj_tail in H as [-> ->]. eauto.
Qed.

(** One turn of the loop keeps the invariant. *)
Lemma step_inv frozen n0 done st raw :
  loop_inv frozen n0 done st ->
  exists st', step st raw = Ok st'
              /\ loop_inv frozen n0 (done ++ filter is_start [raw]) st'.
Proof.
  intros (more & Hpush & Hord & Hid & Hcur).
  destruct (line_cases raw) as [Hb | [Hc | [[[mt sys] ft] Hs]]].
  - exists st. split; [now apply step_blank|].
    simpl. rewrite (is_start_clean_nil _ Hb), app_nil_r.
    exists more. auto.
  - exists match currentMessage st with
           | Some cur =>
               {| messages := messages st;
                  currentMessage := Some (append_line cur (clean raw));
                  messageId := messageId st |}
           | None => st
           end.
    split; [now apply step_continuation|].
    assert (Hns : is_start raw = false).
    { unfold is_continuation in Hc. destruct (clean raw); [discriminate|].
      now apply negb_true_iff in Hc. }
    simpl. rewrite Hns, app_nil_r.
    destruct (currentMessage st) as [cur|] eqn:Ecur.
    + unfold push_current in Hpush. rewrite Ecur in Hpush.
      assert (Hne : more <> []) by (intro E; apply Hcur in E; discriminate).
      destruct (app_last_eq _ _ _ Hpush Hne) as (more' & -> & Hm).
      exists (more' ++ [append_line cur (clean raw)]). repeat split.
      * unfold push_current. simpl. rewrite Hm. now rewrite app_assoc.
      * eapply opened_in_order_last; [eassumption | apply same_header_append
                                      | reflexivity].
      * assumption.
      * intro E. now apply app_eq_nil in E as [_ E].
    + exists more. unfold loop_inv. auto.
  - destruct (@start_of_total raw mt sys ft (S (messageId st)) Hs) as [msg Hmsg].
    exists {| messages := push_current st; currentMessage := Some msg;
              messageId := S (messageId st) |}.
    split; [rewrite (step_start st _ Hs), Hmsg; reflexivity|].
    assert (His : is_start raw = true) by (unfold is_start; now rewrite Hs).
    simpl. rewrite His.
    exists (more ++ [msg]). repeat split.
    + unfold push_current at 1. simpl. rewrite Hpush. now rewrite app_assoc.
    + apply opened_in_order_snoc; [assumption|].
      exists mt, sys, ft, msg, []. repeat split; try assumption.
      * now replace (n0 + List.length done) with (S (messageId st)) by lia.
      * now rewrite app_nil_r.
    + rewrite length_app. simpl. lia.
    + intro E. now apply app_eq_nil in E as [_ E].
Qed.

Lemma run_inv frozen n0 lines :
  forall done st,
    loop_inv frozen n0 done st ->
    exists st', run st lines = Ok st'
                /\ loop_inv frozen n0 (done ++ filter is_start lines) st'.
Proof.
  induction lines as [|raw lines IH]; intros done st H.
  - exists st. simpl. now rewrite app_nil_r.
  - destruct (step_inv raw H) as (st1 & Hstep & H1).
    destruct (IH _ _ H1) as (st' & Hrun & H').
    exists st'. simpl run. rewrite Hstep. cbn [bind]. split; [assumption|].
    replace (done ++ filter is_start (raw :: lines))
      with ((done ++ filter is_start [raw]) ++ filter is_start lines); [assumption|].
    rewrite <- app_assoc. f_equal. simpl. now destruct (is_start raw).
Qed.

Lemma loop_inv_initial : loop_inv [] 1 [] initial.
Proof.
  exists []. repeat split; try reflexivity. constructor.
Qed.

Lemma run_app (l1 l2 : list jsstring) :
  forall st, run st (l1 ++ l2) = (st' <- run st l1 ;; run st' l2).
Proof.
  induction l1 as [|raw l1 IH]; intro st; simpl; [reflexivity|].
  destruct (step st raw); simpl; auto.
Qed.

(** The loop returns, and its records are opened, in order, by the start
    lines of the transcript. *)
Lemma parseLines_opened (lines : list jsstring) :
  exists msgs, parseLines lines = Ok msgs
               /\ opened_in_order 1 (filter is_start lines) msgs.
Proof.
  destruct (run_inv lines loop_inv_initial) as (st & Hrun & more & Hp & Ho & _).
  exists (push_current st). unfold parseLines. rewrite Hrun. cbn [bind].
  split; [reflexivity|]. now rewrite Hp.
Qed.

(** ** Lines of the dash-separated format *)

Lemma exec_pattern_2_rest (d t rest : jsstring) (c : captures) :
  date_shape d -> time2_shape t ->
  exec MESSAGE_START_PATTERN_2 (d ++ str ", " ++ t ++ str " - " ++ rest) = Some c ->
  exists sn b, rest = sn ++ str ": " ++ b
               /\ sn <> [] /\ forallb not_colon sn = true /\ forallb dot b = true.
Proof.
  intros Hd Ht H. rewrite pattern_2_dash in H.
  rewrite exec_dash_start in H by assumption.
  now apply m_user_tail_inv in H.
Qed.

Lemma exec_pattern_2_system_rest (d t rest : jsstring) (c : captures) :
  date_shape d -> time2_shape t ->
  exec MESSAGE_START_PATTERN_2_SYSTEM (d ++ str ", " ++ t ++ str " - " ++ rest) = Some c ->
  rest <> [] /\ forallb dot rest = true.
Proof.
  intros Hd Ht H. rewrite pattern_2_system_dash in H.
  rewrite exec_dash_start in H by assumption.
  now apply m_system_tail_inv in H.
Qed.

Lemma starts_with_app (p s : jsstring) : starts_with p (p ++ s) = true.
Proof. induction p as [|x p IH]; simpl; [reflexivity|]. now rewrite eqc_refl. Qed.

Lemma includes_app (u p v : jsstring) : includes (u ++ p ++ v) p = true.
Proof.
  induction u as [|x u IH]; simpl.
  - destruct (p ++ v) eqn:E; simpl; rewrite <- E; now rewrite starts_with_app.
  - rewrite IH. apply orb_true_r.
Qed.

(** The separator of a time token can be exchanged for another. *)
Lemma time2_shape_gap (hm : jsstring) (g1 g2 ap : char) :
  time2_shape (hm ++ [g1; ap; ch "M"]) -> time_gap g2 = true ->
  time2_shape (hm ++ [g2; ap; ch "M"]).
Proof.
  intros (h & mi & g & ap' & E & Hh & Hmi & Hg & Hap) Hg2.
  assert (E' : (hm ++ [g1; ap]) ++ [ch "M"] = ((h ++ ch ":" :: mi) ++ [g; ap']) ++ [ch "M"]).
  { repeat (rewrite <- app_assoc; cbn [app]). exact E. }
  apply app_inj_tail in E' as [E' _].
  change (hm ++ [g1; ap]) with (hm ++ [g1] ++ [ap]) in E'.
  change ((h ++ ch ":" :: mi) ++ [g; ap']) with ((h ++ ch ":" :: mi) ++ [g] ++ [ap']) in E'.
  rewrite !app_assoc in E'. apply app_inj_tail in E' as [E' <-].
  apply app_inj_tail in E' as [-> _].
  exists h, mi, g2, ap. rewrite <- app_assoc. cbn [app]. auto.
Qed.

Lemma parseDateTime_gap (d hm : jsstring) (g1 g2 ap : char) (ft : nat) :
  date_shape d -> time2_shape (hm ++ [g1; ap; ch "M"]) -> time_gap g2 = true ->
  parseDateTime d (hm ++ [g2; ap; ch "M"]) ft
  = parseDateTime d (hm ++ [g1; ap; ch "M"]) ft
  /\ exists ts, parseDateTime d (hm ++ [g1; ap; ch "M"]) ft = Ok ts.
Proof.
  intros Hd Ht Hg2.
  destruct (date_shape_text Hd) as (a & b & y & -> & Ha & Hb & Hy).
  destruct Ht as (h & mi & g & ap' & E & Hh & Hmi & Hg & Hap).
  assert (E' : (hm ++ [g1; ap]) ++ [ch "M"] = ((h ++ ch ":" :: mi) ++ [g; ap']) ++ [ch "M"]).
  { repeat (rewrite <- app_assoc; cbn [app]). exact E. }
  apply app_inj_tail in E' as [E' _].
  change (hm ++ [g1; ap]) with (hm ++ [g1] ++ [ap]) in E'.
  change ((h ++ ch ":" :: mi) ++ [g; ap']) with ((h ++ ch ":" :: mi) ++ [g] ++ [ap']) in E'.
  rewrite !app_assoc in E'. apply app_inj_tail in E' as [E' <-].
  apply app_inj_tail in E' as [-> <-].
  assert (T : forall x, (h ++ ch ":" :: mi) ++ [x; ap; ch "M"] = time_text h mi None x ap).
  { intro x. unfold time_text. simpl. now rewrite <- app_assoc. }
  rewrite !T.
  assert (N : forall u lo, digit_run lo 2 u -> 1 <= lo ->
                           numeric u = true /\ short u = true).
  { intros u lo [Hu Hl] Hlo. unfold numeric, short. destruct u; simpl in *; [lia|].
    split; [assumption | apply Nat.leb_le; lia]. }
  destruct (N _ _ Hh (le_n 1)) as [Nh Sh]. destruct (N _ _ Hmi (le_S _ _ (le_n 1))) as [Nmi Smi].
  rewrite !parseDateTime_fields by (auto; exact I). eauto.
Qed.

Lemma whole_dots (lo : nat) (s : jsstring) :
  whole (Rep true dot lo None) s = true <-> forallb dot s = true /\ lo <= List.length s.
Proof.
  rewrite whole_iff. simpl. split.
  - intros (c' & H1 & H2 & _). auto.
  - intros [H1 H2]. exists []. auto.
Qed.

Lemma match_start_system (d t rem : jsstring) :
  date_shape d -> time2_shape t -> rem <> [] -> forallb dot rem = true ->
  includes rem (str ": ") = false ->
  let line := d ++ str ", " ++ t ++ str " - " ++ rem in
  match_start line = (Some [Some line; Some d; Some t; Some rem], true, 2).
Proof.
  intros Hd Ht Hne Hdot Hinc line. unfold match_start.
  unfold line at 1. rewrite exec_pattern_1_date by assumption.
  destruct (exec MESSAGE_START_PATTERN_2 line) as [c|] eqn:E.
  - apply exec_pattern_2_rest in E as (sn & b & -> & _); try assumption.
    now rewrite includes_app in Hinc.
  - unfold line. now rewrite exec_pattern_2_system.
Qed.

Lemma opened_in_order_split (l1 : list jsstring) (x : jsstring) (l2 : list jsstring) :
  forall n msgs,
    opened_in_order n (l1 ++ x :: l2) msgs ->
    exists m1 r m2,
      msgs = m1 ++ r :: m2 /\ List.length m1 = List.length l1
      /\ opened_by (n + List.length l1) x r.
Proof.
  induction l1 as [|y l1 IH]; intros n msgs H; cbn [app] in H;
    inversion H as [|? ? ? msg msgs' Hby Hrest]; subst.
  - exists [], msg, msgs'. cbn [app List.length]. rewrite Nat.add_0_r. auto.
  - destruct (IH _ _ Hrest) as (m1 & r & m2 & -> & Hlen & Hr).
    exists (msg :: m1), r, m2. cbn [app List.length].
    replace (n + S (List.length l1)) with (S n + List.length l1) by lia.
    rewrite Hlen. auto.
Qed.

(** C10: a line of the transcript that, once cleaned, reads date, time,
    dash and a non-empty remainder without a colon followed by a space is
    a system line, whatever colons the remainder contains otherwise: it
    is matched by the pattern without sender, and wherever it stands in
    the transcript the parser returns a record for it, at the place of
    the line among the start lines, with sender ['System'], type
    ['system'], no media, the timestamp of its date and time, and a
    content that begins with the remainder. *)
Theorem system_without_colon_space (pre post : list jsstring) (raw d t rem : jsstring) :
  is_date_token d = true -> is_time_token_2 t = true ->
  whole (Rep true dot 1 None) rem = true ->
  includes rem (str ": ") = false ->
  clean raw = d ++ str ", " ++ t ++ str " - " ++ rem ->
  match_start (clean raw) = (Some [Some (clean raw); Some d; Some t; Some rem], true, 2)
  /\ exists before rec after ts tail,
      parseLines (pre ++ raw :: post) = Ok (before ++ rec :: after)
      /\ List.length before = List.length (filter is_start pre)
      /\ parseDateTime d t 2 = Ok ts
      /\ timestamp rec = ts
      /\ sender rec = str "System"
      /\ type rec = System
      /\ media rec = None
      /\ content rec = trim rem ++ tail.
Proof.
  intros Hd Ht Hrem Hinc Hclean.
  apply is_date_token_iff in Hd. apply is_time_token_2_iff in Ht.
  apply whole_dots in Hrem as [Hdot Hlen].
  assert (Hne : rem <> []) by (intros ->; simpl in Hlen; lia).
  pose proof (@match_start_system d t rem Hd Ht Hne Hdot Hinc) as Hm.
  cbv zeta in Hm. rewrite <- Hclean in Hm.
  split; [exact Hm|].
  assert (Hs : start_of raw = Some ([Some (clean raw); Some d; Some t; Some rem], true, 2)).
  { unfold start_of. rewrite Hm.
    destruct (clean raw) as [|c l] eqn:E; [|reflexivity].
    destruct Hd as (a & b0 & y & -> & [_ Ha] & _).
    destruct a; [simpl in Ha; lia | discriminate Hclean]. }
  destruct (parseLines_opened (pre ++ raw :: post)) as (msgs & Hp & Ho).
  rewrite filter_app in Ho. cbn [filter] in Ho.
  unfold is_start at 2 in Ho. rewrite Hs in Ho.
  destruct (@opened_in_order_split _ _ _ _ _ Ho) as (before & rec & after & -> & Hlb & Hby).
  destruct Hby as (mt & sys & ft & first & tail & Hs' & Hnew & Hh & Hc).
  rewrite Hs in Hs'. injection Hs' as <- <- <-.
  unfold new_message in Hnew. cbn [group nth defined bind] in Hnew.
  destruct (parseDateTime_start_2 2 Hd Ht) as [ts Hts].
  rewrite Hts in Hnew. cbn [bind] in Hnew. injection Hnew as <-.
  destruct Hh as (_ & Hts' & Hsn & Hty & Hme).
  cbn [timestamp sender type media content] in *.
  exists before, rec, after, ts, tail. auto 10.
Qed.

(** A web address after the dash, between a message and a line that is
    folded into the record: the line is stored as a system message. *)
Lemma system_without_colon_space_url :
  let pre := [str "[13/01/25, 11:52:46 AM] Alice: Hello"] in
  let post := [str "see above"] in
  let raw := str "1/13/26, 12:52 AM - https://example.com" in
  let d := str "1/13/26" in
  let t := str "12:52 AM" in
  let rem := str "https://example.com" in
  match_start (clean raw) = (Some [Some (clean raw); Some d; Some t; Some rem], true, 2)
  /\ exists before rec after ts tail,
      parseLines (pre ++ raw :: post) = Ok (before ++ rec :: after)
      /\ List.length before = List.length (filter is_start pre)
      /\ parseDateTime d t 2 = Ok ts
      /\ timestamp rec = ts
      /\ sender rec = str "System"
      /\ type rec = System
      /\ media rec = None
      /\ content rec = trim rem ++ tail.
Proof.
  intros pre post raw d t rem.
  apply (@system_without_colon_space pre post raw d t rem); reflexivity.
Defined.

(** The digits of a bracketed time, from a token that ends in a space and
    the marker. *)
Lemma time1_shape_clock (hms : jsstring) (ap : char) :
  time1_shape (hms ++ [ch " "; ap; ch "M"]) ->
  exists h mi ss, hms = h ++ ch ":" :: mi ++ ch ":" :: ss
                  /\ digit_run 1 2 h /\ digit_run 2 2 mi /\ digit_run 2 2 ss
                  /\ A_or_P ap = true.
Proof.
  intros (h & mi & ss & ap' & E & Hh & Hmi & Hss & Hap).
  assert (E' : ((hms ++ [ch " "]) ++ [ap]) ++ [ch "M"]
               = (((h ++ ch ":" :: mi ++ ch ":" :: ss) ++ [ch " "]) ++ [ap']) ++ [ch "M"]).
  { repeat (rewrite <- app_assoc; cbn [app]). exact E. }
  apply app_inj_tail in E' as [E' _]. apply app_inj_tail in E' as [E' <-].
  apply app_inj_tail in E' as [-> _]. exists h, mi, ss. auto.
Qed.

(** The bracketed time pattern stops at a narrow no-break space. *)
Lemma m_TIME_1_narrow (h mi ss s : jsstring) (i : nat) (c : captures) k :
  digit_run 1 2 h -> digit_run 2 2 mi -> digit_run 2 2 ss ->
  m TIME_1 i (h ++ ch ":" :: mi ++ ch ":" :: ss ++ NNBSP :: s) c k = None.
Proof.
  intros Hh Hmi Hss. unfold TIME_1. cbn [Seqs].
  rewrite m_digits_lit; [| exact Hh | exact colon_not_digit].
  rewrite m_digits_lit; [| exact Hmi | exact colon_not_digit].
  rewrite m_digits_exact; [| exact Hss]. reflexivity.
Qed.

(** A bracketed line with a narrow no-break space before the marker is
    matched by none of the three patterns. *)
Lemma match_start_bracket_narrow (d hms : jsstring) (ap : char) (rest : jsstring) :
  date_shape d -> time1_shape (hms ++ [ch " "; ap; ch "M"]) ->
  match_start (bracket_line d hms NNBSP ap rest) = (None, false, 1).
Proof.
  intros Hd Ht.
  destruct (time1_shape_clock _ _ Ht) as (h & mi & ss & -> & Hh & Hmi & Hss & _).
  unfold match_start, bracket_line.
  assert (E1 : exec MESSAGE_START_PATTERN_1
                 (ch "[" :: d ++ str ", "
                  ++ ((h ++ ch ":" :: mi ++ ch ":" :: ss) ++ [NNBSP; ap; ch "M"])
                  ++ str "] " ++ rest) = None).
  { rewrite pattern_1_bracket. unfold bracket_start. rewrite exec_anchored.
    unfold match_at. cbn [m Nat.eqb]. unfold Lit at 1. cbn [m].
    rewrite eqc_refl, m_DATE by assumption. rewrite m_Str.
    repeat (rewrite <- app_assoc; cbn [app]).
    now rewrite m_TIME_1_narrow. }
  rewrite E1.
  assert (E2 : forall tail s, exec (dash_start tail) (ch "[" :: s) = None).
  { intros tail s. unfold dash_start. rewrite exec_anchored. reflexivity. }
  rewrite pattern_2_dash, pattern_2_system_dash, !E2. reflexivity.
Qed.

Lemma plain_or_narrow_gap (g : char) : plain_or_narrow g = true -> time_gap g = true.
Proof.
  unfold plain_or_narrow, time_gap. intro H.
  apply orb_true_iff in H as [H | H]; apply eqc_eq in H; subst; reflexivity.
Qed.

(** C5, as the code has it.  In the dash-separated format, a line with
    an ordinary space and the same line with a narrow no-break space
    before the marker are the same kind of start line and open the same
    record, timestamp included.  In the bracketed format only the ordinary
    space is read: with a narrow no-break space before the marker, a
    bracketed line is matched by none of the patterns. *)
Theorem narrow_space_acceptance (d hm rest : jsstring) (g1 g2 ap : char)
        (mt1 : captures) (isSystem : bool) (ft : nat) :
  is_date_token d = true ->
  is_time_token_2 (hm ++ [g1; ap; ch "M"]) = true ->
  plain_or_narrow g1 = true -> plain_or_narrow g2 = true ->
  match_start (dash_line d hm g1 ap rest) = (Some mt1, isSystem, ft) ->
  (exists mt2,
      match_start (dash_line d hm g2 ap rest) = (Some mt2, isSystem, ft)
      /\ ft = 2
      /\ forall n, new_message mt2 isSystem ft n = new_message mt1 isSystem ft n
                   /\ exists msg, new_message mt1 isSystem ft n = Ok msg)
  /\ (forall hms rest1,
         is_time_token_1 (hms ++ [ch " "; ap; ch "M"]) = true ->
         match_start (bracket_line d hms NNBSP ap rest1) = (None, false, 1)).
Proof.
  intros Hd Ht1 Hg1 Hg2 H.
  apply is_date_token_iff in Hd. apply is_time_token_2_iff in Ht1.
  split; [|intros hms rest1 Ht; apply is_time_token_1_iff in Ht;
           now apply match_start_bracket_narrow].
  apply plain_or_narrow_gap in Hg1, Hg2.
  pose proof (@time2_shape_gap hm g1 g2 ap Ht1 Hg2) as Ht2.
  destruct (@parseDateTime_gap d hm g1 g2 ap 2 Hd Ht1 Hg2) as [Hts [ts Hts1]].
  unfold dash_line in *. unfold match_start in H |- *.
  rewrite exec_pattern_1_date in H |- * by assumption.
  destruct (exec MESSAGE_START_PATTERN_2 (d ++ str ", " ++ (hm ++ [g1; ap; ch "M"])
                                            ++ str " - " ++ rest)) as [c|] eqn:E.
  - injection H as <- <- <-.
    destruct (@exec_pattern_2_rest _ _ _ _ Hd Ht1 E) as (sn & b & -> & Hne & Hsn & Hb).
    rewrite exec_pattern_2 in E |- * by assumption. injection E as <-.
    eexists. split; [reflexivity|]. split; [reflexivity|]. intro n.
    unfold new_message. cbn [group nth defined bind].
    change 77%N with (ch "M"). rewrite Hts, Hts1. cbn [bind].
    destruct (analyzeMessage_total b) as [a ->]. cbn [bind]. eauto.
  - destruct (exec MESSAGE_START_PATTERN_2_SYSTEM
                (d ++ str ", " ++ (hm ++ [g1; ap; ch "M"]) ++ str " - " ++ rest))
      as [c|] eqn:E'; [|discriminate].
    injection H as <- <- <-.
    destruct (@exec_pattern_2_system_rest _ _ _ _ Hd Ht1 E') as (Hne & Hb).
    rewrite exec_pattern_2_system in E' |- * by assumption. injection E' as <-.
    destruct (exec MESSAGE_START_PATTERN_2
                (d ++ str ", " ++ (hm ++ [g2; ap; ch "M"]) ++ str " - " ++ rest))
      as [c2|] eqn:E2.
    + destruct (@exec_pattern_2_rest _ _ _ _ Hd Ht2 E2) as (sn & b & -> & Hne' & Hsn & Hb').
      rewrite exec_pattern_2 in E by assumption. discriminate.
    + eexists. split; [reflexivity|]. split; [reflexivity|]. intro n.
      unfold new_message. cbn [group nth defined bind].
      change 77%N with (ch "M"). rewrite Hts, Hts1. cbn [bind]. eauto.
Qed.

(** The two spellings of the time of one line of the dash-separated
    format, and the bracketed lines of the same day. *)
Lemma narrow_space_acceptance_example :
  (exists mt2,
      match_start (dash_line (str "1/13/26") (str "11:52") NNBSP (ch "A") (str "Bob: Hi"))
      = (Some mt2, false, 2)
      /\ 2 = 2
      /\ forall n,
          new_message mt2 false 2 n
          = new_message
              [Some (dash_line (str "1/13/26") (str "11:52") (ch " ") (ch "A")
                       (str "Bob: Hi"));
               Some (str "1/13/26"); Some (str "11:52 AM"); Some (str "Bob");
               Some (str "Hi")] false 2 n
          /\ exists msg,
              new_message
                [Some (dash_line (str "1/13/26") (str "11:52") (ch " ") (ch "A")
                         (str "Bob: Hi"));
                 Some (str "1/13/26"); Some (str "11:52 AM"); Some (str "Bob");
                 Some (str "Hi")] false 2 n = Ok msg)
  /\ (forall hms rest1,
         is_time_token_1 (hms ++ [ch " "; ch "A"; ch "M"]) = true ->
         match_start (bracket_line (str "1/13/26") hms NNBSP (ch "A") rest1)
         = (None, false, 1)).
Proof.
  apply (@narrow_space_acceptance (str "1/13/26") (str "11:52") (str "Bob: Hi")
           (ch " ") NNBSP (ch "A")); reflexivity.
Defined.

(** C5 as stated fails for the bracketed format: with a narrow no-break
    space before the marker the line is no start line, with an ordinary
    space it is. *)
Lemma narrow_space_bracket_rejected :
  is_start (bracket_line (str "13/01/25") (str "11:52:46") (ch " ") (ch "A")
              (str "Alice: Hello")) = true
  /\ is_start (bracket_line (str "13/01/25") (str "11:52:46") NNBSP (ch "A")
                 (str "Alice: Hello")) = false
  /\ match_start (bracket_line (str "13/01/25") (str "11:52:46") NNBSP (ch "A")
                    (str "Alice: Hello")) = (None, false, 1).
Proof. repeat split; vm_compute; reflexivity. Qed.

(** ** Folding of continuation lines *)

Lemma start_of_message (raw : jsstring) (start : captures * bool * nat) (n : nat) :
  start_of raw = Some start ->
  exists msg body,
    (let '(mt, isSystem, ft) := start in new_message mt isSystem ft n) = Ok msg
    /\ id msg = msg_id n
    /\ body_of start = Some body
    /\ content msg = trim body.
Proof.
  destruct start as [[mt sys] ft]. unfold start_of.
  destruct (clean raw) as [|x l]; [discriminate|].
  destruct (match_start (x :: l)) as [[[mt'|] sys'] ft'] eqn:Em; [|discriminate].
  intro H. injection H as -> -> ->.
  destruct (@new_message_total _ _ _ _ n Em) as (msg & Hmsg & Hid & (body & Hb & Hc) & _).
  exists msg, body. auto.
Qed.

(** Lines that are no start lines leave the list and the counter alone
    and are appended, blank ones apart, to the open message. *)
Lemma run_nonstart (conts : list jsstring) :
  forall M cur k,
    Forall (fun l => is_start l = false) conts ->
    exists cur',
      run {| messages := M; currentMessage := Some cur; messageId := k |} conts
      = Ok {| messages := M; currentMessage := Some cur'; messageId := k |}
      /\ same_header cur cur'
      /\ content cur' = content cur ++ folded (filter is_continuation conts).
Proof.
  induction conts as [|raw conts IH]; intros M cur k H.
  - exists cur. simpl. rewrite app_nil_r. split; [reflexivity|].
    split; [apply same_header_refl | reflexivity].
  - inversion H as [|? ? Hraw Hrest]; subst.
    destruct (line_cases raw) as [Hb | [Hc | [start Hs]]].
    + destruct (IH M cur k Hrest) as (cur' & Hrun & Hh & Hcont).
      exists cur'. simpl run. rewrite (step_blank _ _ Hb). cbn [bind].
      split; [assumption|]. split; [assumption|].
      simpl filter. unfold is_continuation at 1. now rewrite Hb.
    + destruct (IH M (append_line cur (clean raw)) k Hrest) as (cur' & Hrun & Hh & Hcont).
      exists cur'. simpl run. rewrite (step_continuation _ _ Hc). cbn [bind].
      cbn [currentMessage messages messageId].
      split; [assumption|]. split.
      * eapply same_header_trans; [apply same_header_append | eassumption].
      * simpl filter. rewrite Hc. rewrite Hcont. simpl. now rewrite <- app_assoc.
    + unfold is_start in Hraw. rewrite Hs in Hraw. discriminate.
Qed.

(** C1: a start line, the lines after it that are no start lines, and
    then the end of the transcript or the next start line, give exactly
    one record.  Its content is the trimmed body of the start line
    followed by the continuation lines in their order, each behind a line
    break (blank lines leave no trace); its number is one more than the
    number of records before it, and the records after it are numbered
    from the next number on. *)
Theorem continuation_folding (pre conts post : list jsstring) (s : jsstring)
        (start : captures * bool * nat) :
  start_of s = Some start ->
  forallb (fun l => negb (is_start l)) conts = true ->
  match post with [] => True | next :: _ => is_start next = true end ->
  exists before rec after body,
    parseLines pre = Ok before
    /\ parseLines (pre ++ s :: conts ++ post) = Ok (before ++ rec :: after)
    /\ body_of start = Some body
    /\ content rec = trim body ++ folded (filter is_continuation conts)
    /\ id rec = msg_id (S (List.length before))
    /\ List.map id after
       = List.map msg_id (seq (S (S (List.length before))) (List.length after))
    /\ List.length after = List.length (filter is_start post).
Proof.
  intros Hs Hconts Hpost.
  assert (Hc : Forall (fun l => is_start l = false) conts).
  { apply Forall_forall. intros l Hl. rewrite forallb_forall in Hconts.
    apply Hconts in Hl. now apply negb_true_iff in Hl. }
  destruct (@run_inv [] 1 pre [] initial loop_inv_initial)
    as (st1 & Hrun1 & more & Hp1 & Ho1 & Hid1 & _).
  simpl in Hp1, Hid1. pose proof (opened_in_order_length Ho1) as Hlen1.
  assert (Hk : messageId st1 = List.length (push_current st1)).
  { simpl in Hlen1. rewrite Hp1. lia. }
  destruct (@start_of_message s start (S (messageId st1)) Hs)
    as (msg0 & body & Hnew & Hid0 & Hbody & Hc0).
  destruct start as [[mt sys] ft].
  destruct (@run_nonstart conts (push_current st1) msg0 (S (messageId st1)) Hc)
    as (cur & Hrun2 & Hh & Hcont).
  exists (push_current st1), cur.
  assert (Hfront : run initial (pre ++ s :: conts)
                   = Ok {| messages := push_current st1; currentMessage := Some cur;
                           messageId := S (messageId st1) |}).
  { rewrite run_app, Hrun1. cbn [bind]. simpl run.
    rewrite (step_start st1 _ Hs), Hnew. cbn [bind]. exact Hrun2. }
  assert (Hidc : id cur = msg_id (S (List.length (push_current st1)))).
  { destruct Hh as (Hh & _). rewrite <- Hh, Hid0. now rewrite Hk. }
  assert (Hcc : content cur = trim body ++ folded (filter is_continuation conts)).
  { now rewrite Hcont, Hc0. }
  assert (Hpre : parseLines pre = Ok (push_current st1)).
  { unfold parseLines. now rewrite Hrun1. }
  replace (pre ++ s :: conts ++ post) with ((pre ++ s :: conts) ++ post)
    by (rewrite <- app_assoc; reflexivity).
  destruct post as [|next post].
  - exists [], body. unfold parseLines. rewrite app_nil_r, Hfront. cbn [bind].
    repeat split; auto.
  - destruct (start_of next) as [[[mt' sys'] ft']|] eqn:Hs';
      [|unfold is_start in Hpost; rewrite Hs' in Hpost; discriminate].
    destruct (@start_of_total next mt' sys' ft' (S (S (messageId st1))) Hs')
      as [msg' Hmsg'].
    set (st3 := {| messages := push_current st1; currentMessage := Some cur;
                   messageId := S (messageId st1) |}) in *.
    set (st4 := {| messages := push_current st3; currentMessage := Some msg';
                   messageId := S (S (messageId st1)) |}).
    assert (Hinv : loop_inv (push_current st1 ++ [cur]) (S (S (messageId st1)))
                     [next] st4).
    { exists [msg']. split; [reflexivity|]. split; [|split; [simpl; lia | discriminate]].
      constructor; [|constructor].
      exists mt', sys', ft', msg', [].
      split; [assumption|]. split; [assumption|].
      split; [apply same_header_refl | now rewrite app_nil_r]. }
    destruct (@run_inv _ _ post _ _ Hinv) as (st5 & Hrun5 & more5 & Hp5 & Ho5 & _).
    exists more5, body. split; [exact Hpre|].
    unfold parseLines. rewrite run_app, Hfront. cbn [bind].
    simpl run. rewrite (step_start st3 _ Hs').
    change (messageId st3) with (S (messageId st1)). rewrite Hmsg'.
    cbn [bind]. fold st4. rewrite Hrun5. cbn [bind]. rewrite Hp5.
    rewrite <- app_assoc. simpl app.
    repeat split; auto.
    + rewrite (opened_in_order_ids Ho5). now rewrite Hk.
    + rewrite <- (opened_in_order_length Ho5). simpl. rewrite Hpost. reflexivity.
Qed.

(** A message of three lines, then the next message. *)
Lemma continuation_folding_example :
  let s := str "[13/01/25, 11:52:46 AM] Alice: Hello" in
  let conts := [str "there"; str "friend"] in
  let post := [str "[13/01/25, 11:53:00 AM] Bob: <attached: pic.jpg>"] in
  let start := match start_of s with Some x => x | None => ([], false, 0) end in
  exists before rec after body,
    parseLines [] = Ok before
    /\ parseLines ([] ++ s :: conts ++ post) = Ok (before ++ rec :: after)
    /\ body_of start = Some body
    /\ content rec = trim body ++ folded (filter is_continuation conts)
    /\ id rec = msg_id (S (List.length before))
    /\ List.map id after
       = List.map msg_id (seq (S (S (List.length before))) (List.length after))
    /\ List.length after = List.length (filter is_start post).
Proof.
  intros s conts post start.
  apply (@continuation_folding [] conts post s start); reflexivity.
Defined.

(** The same transcript, evaluated: one record for the three lines, and
    the counter at 2 for the next message. *)
Example three_lines_one_record :
  exists m1 m2,
    parseChatFile (str "[13/01/25, 11:52:46 AM] Alice: Hello" ++ 10%N :: str "there"
                   ++ 10%N :: str "friend" ++ 10%N
                   :: str "[13/01/25, 11:53:00 AM] Bob: <attached: pic.jpg>")
    = Ok [m1; m2]
    /\ id m1 = str "msg_1"
    /\ content m1 = str "Hello" ++ 10%N :: str "there" ++ 10%N :: str "friend"
    /\ id m2 = str "msg_2".
Proof. do 2 eexists. split; [vm_compute; reflexivity|]. repeat split. Qed.

(** ** Identifiers and order *)

Lemma start_positions_bound (lines : list jsstring) :
  forall i p, In p (start_positions i lines) -> i <= p.
Proof.
  induction lines as [|raw lines IH]; intros i p H; simpl in H; [contradiction|].
  destruct (is_start raw).
  - destruct H as [<- | H]; [lia|]. apply IH in H. lia.
  - apply IH in H. lia.
Qed.

Lemma start_positions_ascending (lines : list jsstring) :
  forall i, ascending (start_positions i lines).
Proof.
  induction lines as [|raw lines IH]; intro i; simpl; [exact I|].
  destruct (is_start raw); [|apply IH]. simpl. split; [|apply IH].
  destruct (start_positions (S i) lines) as [|q l] eqn:E; [exact I|].
  assert (Hq : In q (start_positions (S i) lines)) by (rewrite E; now left).
  apply start_positions_bound in Hq. lia.
Qed.

Lemma start_positions_lines (lines : list jsstring) :
  forall i, List.map (fun p => nth (p - i) lines []) (start_positions i lines)
            = filter is_start lines.
Proof.
  induction lines as [|raw lines IH]; intro i; [reflexivity|].
  cbn [start_positions filter].
  assert (Hshift : List.map (fun p => nth (p - i) (raw :: lines) [])
                     (start_positions (S i) lines)
                   = filter is_start lines).
  { rewrite <- (IH (S i)). apply map_ext_in. intros p Hp.
    apply start_positions_bound in Hp.
    replace (p - i) with (S (p - S i)) by lia. reflexivity. }
  destruct (is_start raw); [|exact Hshift].
  cbn [List.map]. rewrite Hshift, Nat.sub_diag. reflexivity.
Qed.

(** C6: the records carry the ids [msg_1], [msg_2], ... in the order in
    which they are returned, without a gap, and they follow the order of
    the transcript: the start lines stand at indices that go strictly
    upwards, and the record at position [k] is the one opened by the
    [k]-th of them (its timestamp, sender, type and media come from that
    line, its content begins with the body of that line). *)
Theorem ids_and_order (fileText : jsstring) :
  exists msgs,
    parseChatFile fileText = Ok msgs
    /\ List.map id msgs = List.map numbered_id (seq 1 (List.length msgs))
    /\ ascending (start_positions 0 (transcript_lines fileText))
    /\ opened_in_order 1
         (List.map (fun p => nth p (transcript_lines fileText) [])
                   (start_positions 0 (transcript_lines fileText)))
         msgs.
Proof.
  destruct (parseLines_opened (transcript_lines fileText)) as (msgs & Hp & Ho).
  exists msgs. split; [exact Hp|]. split; [exact (opened_in_order_ids Ho)|].
  split; [apply start_positions_ascending|].
  pose proof (start_positions_lines (transcript_lines fileText) 0) as E.
  rewrite <- E in Ho. erewrite map_ext; [exact Ho|].
  intro p. simpl. now rewrite Nat.sub_0_r.
Qed.

(** A transcript of four lines, two of which start a message: the two
    records are [msg_1] and [msg_2], opened by the lines at indices 0
    and 3. *)
Lemma ids_and_order_example :
  let fileText :=
    str "[13/01/25, 11:52:46 AM] Alice: Hello" ++ 10%N :: str "there"
    ++ 10%N :: str "friend" ++ 10%N
    :: str "[13/01/25, 11:53:00 AM] Bob: <attached: pic.jpg>" in
  exists m1 m2,
    parseChatFile fileText = Ok [m1; m2]
    /\ List.map id [m1; m2] = [str "msg_1"; str "msg_2"]
    /\ start_positions 0 (transcript_lines fileText) = [0; 3]
    /\ opened_in_order 1
         [str "[13/01/25, 11:52:46 AM] Alice: Hello";
          str "[13/01/25, 11:53:00 AM] Bob: <attached: pic.jpg>"]
         [m1; m2].
Proof.
  intro fileText.
  destruct (ids_and_order fileText) as (msgs & Hp & Hids & _ & Ho).
  assert (Hc : exists m1 m2, parseChatFile fileText = Ok [m1; m2])
    by (do 2 eexists; vm_compute; reflexivity).
  destruct Hc as (m1 & m2 & Hc). rewrite Hc in Hp. injection Hp as <-.
  exists m1, m2. split; [exact Hc|]. split; [exact Hids|].
  split; [vm_compute; reflexivity|]. exact Ho.
Defined.

(** ** Degenerate inputs *)

(** C9: the empty transcript gives the empty sequence of messages, and
    the metadata of the empty sequence are a count of 0, no participant
    and a date range without start and end; neither call throws. *)
Theorem empty_inputs (e : env) (name : jsstring) :
  parseChatFile [] = Ok []
  /\ exists md,
      extractMetadata e [] name = Ok md
      /\ messageCount md = 0
      /\ participants md = []
      /\ dateRange md = {| start := None; end_ := None |}.
Proof.
  split; [reflexivity|]. eexists. split; [reflexivity|]. repeat split.
Qed.

(** ** Day and month, hour and seconds *)

Lemma clock_no_space (h mi ss : jsstring) :
  forallb is_digit h = true -> forallb is_digit mi = true ->
  forallb is_digit ss = true ->
  forallb (fun c => negb (eqc (ch " ") c)) (h ++ ch ":" :: mi ++ seconds_text (Some ss))
  = true.
Proof.
  intros Hh Hmi Hss.
  assert (D : forall u, forallb is_digit u = true ->
                        forallb (fun c => negb (eqc (ch " ") c)) u = true).
  { intros u Hu. now apply digits_no. }
  rewrite forallb_app, (D _ Hh). cbn [forallb]. rewrite forallb_app, (D _ Hmi).
  cbn [forallb seconds_text]. now rewrite (D _ Hss).
Qed.

Lemma legacy_split_time (h mi ss : jsstring) (ap : char) :
  forallb is_digit h = true -> forallb is_digit mi = true ->
  forallb is_digit ss = true -> A_or_P ap = true ->
  split_on (eqc (ch " ")) (time_text h mi (Some ss) (ch " ") ap)
  = [h ++ ch ":" :: mi ++ seconds_text (Some ss); [ap; ch "M"]].
Proof.
  intros Hh Hmi Hss Hap. unfold time_text.
  replace (h ++ ch ":" :: mi ++ seconds_text (Some ss) ++ [ch " "; ap; ch "M"])
    with ((h ++ ch ":" :: mi ++ seconds_text (Some ss)) ++ ch " " :: [ap; ch "M"])
    by (rewrite <- app_assoc; simpl; now rewrite <- app_assoc).
  rewrite split_on_app by (try apply clock_no_space; auto).
  destruct (A_or_P_cases _ Hap) as [-> | ->]; reflexivity.
Qed.

(** What the single-format [parseDateTime] returns on a bracketed token. *)
Lemma legacy_parseDateTime_fields (a b y h mi ss : jsstring) (ap : char) :
  numeric a = true -> numeric b = true -> numeric y = true ->
  numeric h = true -> short h = true -> numeric mi = true -> short mi = true ->
  numeric ss = true -> short ss = true -> A_or_P ap = true ->
  Legacy.parseDateTime (date_text a b y) (time_text h mi (Some ss) (ch " ") ap)
  = Ok (iso y b a (hour24 (eqc ap (ch "P")) (dec_value h)) (dec_value mi) (dec_value ss)).
Proof.
  intros Ha Hb Hy Hh Hh' Hmi Hmi' Hss Hss' Hap.
  pose proof (numeric_digits _ Ha) as [Da _].
  pose proof (numeric_digits _ Hb) as [Db _].
  pose proof (numeric_digits _ Hy) as [Dy _].
  pose proof (numeric_digits _ Hh) as [Dh Nh].
  pose proof (numeric_digits _ Hmi) as [Dmi Nmi].
  pose proof (numeric_digits _ Hss) as [Dss Nss].
  unfold Legacy.parseDateTime.
  rewrite split_date by assumption. rewrite legacy_split_time by assumption.
  cbn [nth nth_error]. rewrite (@split_clock h mi (Some ss)) by assumption.
  cbn [List.map nth nth_error].
  rewrite (@Number_digits h) by (try apply Nat.leb_le; assumption).
  rewrite (@Number_digits mi) by (try apply Nat.leb_le; assumption).
  rewrite (@Number_digits ss) by (try apply Nat.leb_le; assumption).
  cbn [bind defined display]. rewrite to_24h_marker by assumption.
  rewrite !num_string_nonneg
    by (try apply hour24_nonneg; try apply dec_value_nonneg; assumption).
  reflexivity.
Qed.

(** C2, as the code has it: in the parser that knows both formats, a
    first field above 12 is the day; otherwise a second field above 12 is
    the day; otherwise the bracketed format (1) reads day/month/year and
    the dash-separated format (2) month/day/year.  The parser that only
    knows the bracketed format always reads day/month/year. *)
Theorem day_month_order (a b y h mi ss : jsstring) (osec : option jsstring)
        (g ap : char) (ft : nat) :
  numeric a = true -> numeric b = true -> numeric y = true ->
  numeric h = true -> short h = true -> numeric mi = true -> short mi = true ->
  match osec with Some s => numeric s = true /\ short s = true | None => True end ->
  numeric ss = true -> short ss = true ->
  time_gap g = true -> A_or_P ap = true ->
  let '(day, month) :=
    if (12 <? dec_value a)%Z then (a, b)
    else if (12 <? dec_value b)%Z then (b, a)
    else if Nat.eqb ft 2 then (b, a) else (a, b) in
  (exists clock,
      parseDateTime (date_text a b y) (time_text h mi osec g ap) ft
      = Ok (str "20" ++ y ++ ch "-" :: padStart2 month ++ ch "-" :: padStart2 day
            ++ ch "T" :: clock))
  /\ (exists clock,
         Legacy.parseDateTime (date_text a b y) (time_text h mi (Some ss) (ch " ") ap)
         = Ok (str "20" ++ y ++ ch "-" :: padStart2 b ++ ch "-" :: padStart2 a
               ++ ch "T" :: clock)).
Proof.
  intros Ha Hb Hy Hh Hh' Hmi Hmi' Hs Hss Hss' Hg Hap.
  rewrite parseDateTime_fields by assumption.
  rewrite legacy_parseDateTime_fields by assumption.
  unfold iso, day_first.
  destruct (12 <? dec_value a)%Z; [split; eexists; reflexivity|].
  destruct (12 <? dec_value b)%Z; [split; eexists; reflexivity|].
  destruct (Nat.eqb ft 2); split; eexists; reflexivity.
Qed.

(** The token 01/02/25 under the dash-separated format. *)
Lemma day_month_order_example :
  (exists clock,
      parseDateTime (date_text (str "01") (str "02") (str "25"))
        (time_text (str "11") (str "52") None NNBSP (ch "A")) 2
      = Ok (str "20" ++ str "25" ++ ch "-" :: padStart2 (str "01") ++ ch "-"
            :: padStart2 (str "02") ++ ch "T" :: clock))
  /\ (exists clock,
         Legacy.parseDateTime (date_text (str "01") (str "02") (str "25"))
           (time_text (str "11") (str "52") (Some (str "46")) (ch " ") (ch "A"))
         = Ok (str "20" ++ str "25" ++ ch "-" :: padStart2 (str "02") ++ ch "-"
               :: padStart2 (str "01") ++ ch "T" :: clock)).
Proof.
  apply (@day_month_order (str "01") (str "02") (str "25") (str "11") (str "52")
           (str "46") None NNBSP (ch "A") 2); try reflexivity; exact I.
Defined.

(** The examples of the specification, in the parser with both formats. *)
Example day_month_13_01 :
  parseDateTime (str "13/01/25") (str "11:52:46 AM") 1 = Ok (str "2025-01-13T11:52:46")
  /\ parseDateTime (str "13/01/25") (str "11:52 AM") 2 = Ok (str "2025-01-13T11:52:00")
  /\ parseDateTime (str "01/02/25") (str "11:52:46 AM") 1 = Ok (str "2025-02-01T11:52:46")
  /\ parseDateTime (str "01/02/25") (str "11:52 AM") 2 = Ok (str "2025-01-02T11:52:00")
  /\ parseDateTime (str "01/13/25") (str "11:52:46 AM") 1 = Ok (str "2025-01-13T11:52:46").
Proof. repeat split. Qed.

(** C2 as stated fails in the single-format parser: in 01/13/25 the second
    field is above 12, and the token is still read as day 01 of month 13. *)
Lemma legacy_day_month_fixed :
  Legacy.parseDateTime (str "01/13/25") (str "11:52:46 AM")
  = Ok (str "2025-13-01T11:52:46").
Proof. reflexivity. Qed.

(** C3: for a time token [hour:minute], with or without [:second], a
    separator and the marker AM or PM, the hour of the timestamp is 0 for
    12 AM, 12 for 12 PM, the hour plus 12 for any other PM hour and the
    hour itself for any other AM hour; its seconds are those of the token,
    and 0 when the token has none. *)
Theorem hour_and_seconds (a b y h mi : jsstring) (osec : option jsstring)
        (g ap : char) (ft : nat) :
  numeric a = true -> numeric b = true -> numeric y = true ->
  numeric h = true -> short h = true -> numeric mi = true -> short mi = true ->
  match osec with Some s => numeric s = true /\ short s = true | None => True end ->
  time_gap g = true -> A_or_P ap = true ->
  exists date,
    parseDateTime (date_text a b y) (time_text h mi osec g ap) ft
    = Ok (date ++ ch "T"
          :: padStart2 (dec (Z.to_N (hour24 (eqc ap (ch "P")) (dec_value h))))
          ++ ch ":" :: padStart2 (dec (Z.to_N (dec_value mi)))
          ++ ch ":" :: padStart2 (dec (Z.to_N (seconds_value osec)))).
Proof.
  intros Ha Hb Hy Hh Hh' Hmi Hmi' Hs Hg Hap.
  rewrite parseDateTime_fields by assumption. unfold iso.
  exists (str "20" ++ y ++ ch "-"
          :: padStart2 (if day_first a b ft then b else a) ++ ch "-"
          :: padStart2 (if day_first a b ft then a else b)).
  f_equal. repeat (rewrite <- app_assoc; cbn [app]). reflexivity.
Qed.

(** Midnight: 12:00:00 AM. *)
Lemma hour_and_seconds_example :
  exists date,
    parseDateTime (date_text (str "13") (str "01") (str "25"))
      (time_text (str "12") (str "00") (Some (str "00")) (ch " ") (ch "A")) 1
    = Ok (date ++ ch "T"
          :: padStart2 (dec (Z.to_N (hour24 (eqc (ch "A") (ch "P")) (dec_value (str "12")))))
          ++ ch ":" :: padStart2 (dec (Z.to_N (dec_value (str "00"))))
          ++ ch ":" :: padStart2 (dec (Z.to_N (seconds_value (Some (str "00")))))).
Proof.
  apply (@hour_and_seconds (str "13") (str "01") (str "25") (str "12") (str "00")
           (Some (str "00")) (ch " ") (ch "A") 1); try reflexivity.
  split; reflexivity.
Defined.

(** The examples of the specification. *)
Example hours_of_the_specification :
  parseDateTime (str "13/01/25") (str "12:00:00 AM") 1 = Ok (str "2025-01-13T00:00:00")
  /\ parseDateTime (str "13/01/25") (str "12:00:00 PM") 1 = Ok (str "2025-01-13T12:00:00")
  /\ parseDateTime (str "13/01/25") (str "01:30:00 PM") 1 = Ok (str "2025-01-13T13:30:00")
  /\ parseDateTime (str "13/01/25") (str "11:52 AM") 2 = Ok (str "2025-01-13T11:52:00").
Proof. repeat split. Qed.

(** ** Attachment markers before omission phrases *)

Lemma media_type_of_table (ext : jsstring) :
  media_type_of ext = kind_of_extension ext.
Proof.
  unfold media_type_of, kind_of_extension, ext_in, extension_kinds.
  cbn [existsb find fst snd].
  repeat match goal with
         | |- context [eqs ?a ext] => destruct (eqs a ext); cbn [orb]; try reflexivity
         end.
Qed.

Lemma pop_cons (a b : jsstring) (l : list jsstring) : pop (a :: b :: l) = pop (b :: l).
Proof.
  unfold pop. cbn [rev]. destruct (rev l) as [|x r]; reflexivity.
Qed.

Lemma split_on_two (p : char -> bool) (s : jsstring) :
  existsb p s = true -> exists a b l, split_on p s = a :: b :: l.
Proof.
  induction s as [|c s IH]; [discriminate|]. cbn [existsb split_on].
  destruct (p c) eqn:E; cbn [orb].
  - intros _. destruct (split_on p s) as [|b l] eqn:Es;
      [now apply split_on_nonempty in Es|]. eauto.
  - intro H. destruct (IH H) as (a & b & l & ->). eauto.
Qed.

(** [filename.split('.').pop()] is the text after the last full stop. *)
Lemma pop_split_after_last_dot (name : jsstring) :
  pop (split_on (eqc (ch ".")) name) = Some (after_last_dot name).
Proof.
  induction name as [|c s IH]; [reflexivity|]. cbn [split_on after_last_dot].
  destruct (existsb (eqc (ch ".")) s) eqn:E.
  - destruct (split_on_two _ _ E) as (a & b & l & Es). rewrite Es in IH |- *.
    destruct (eqc (ch ".") c); rewrite pop_cons;
      [exact IH | rewrite pop_cons in IH; exact IH].
  - assert (Hs : split_on (eqc (ch ".")) s = [s]).
    { apply split_on_none. clear IH. induction s as [|x s IHs]; [reflexivity|].
      cbn [existsb] in E. apply orb_false_iff in E as [E1 E2].
      cbn [forallb]. now rewrite E1, IHs. }
    rewrite Hs. destruct (eqc (ch ".") c); reflexivity.
Qed.

(** A lazy quantifier stops at the first place where what follows it
    matches. *)
Lemma rep_lazy_first (p q : char -> bool) (k : nat -> jsstring -> option captures)
      (u : jsstring) :
  forall lo i s' res,
    forallb p u = true -> forallb q u = true -> lo <= List.length u ->
    (forall j x t, q x = true -> k j (x :: t) = None) ->
    k (i + List.length u) s' = Some res ->
    rep false p lo None i (u ++ s') k = Some res.
Proof.
  induction u as [|x u IH]; intros lo i s' res Hp Hq Hlo Hk Hres.
  - cbn [List.length] in Hlo, Hres. rewrite Nat.add_0_r in Hres.
    assert (lo = 0) as -> by lia. cbn [app].
    destruct s'; cbn [rep Nat.eqb]; now rewrite Hres.
  - cbn [forallb] in Hp, Hq. apply andb_true_iff in Hp as [Hx Hp].
    apply andb_true_iff in Hq as [Hqx Hq].
    cbn [app rep]. rewrite Hx. cbn [room andb].
    rewrite (Hk i x (u ++ s') Hqx).
    assert (E : (if Nat.eqb lo 0 then None else None) = @None captures)
      by (destruct (Nat.eqb lo 0); reflexivity).
    rewrite E. cbn [option_map]. apply IH; try assumption.
    + cbn [List.length] in Hlo. lia.
    + cbn [List.length] in Hres. now rewrite <- Nat.add_succ_comm in Hres.
Qed.

Lemma match_at_attached (i : nat) (f post : jsstring) :
  f <> [] -> forallb dot f = true ->
  forallb (fun c => negb (eqc (ch ">") c)) f = true ->
  match_at MEDIA_ATTACHED_PATTERN i (str "<attached: " ++ f ++ ch ">" :: post)
  = Some [Some (str "<attached: " ++ f ++ [ch ">"]); Some f].
Proof.
  intros Hne Hdot Hgt. unfold match_at.
  change (ngroups MEDIA_ATTACHED_PATTERN) with 1. unfold MEDIA_ATTACHED_PATTERN.
  cbn [Seqs repeat]. cbn [m]. rewrite m_Str. cbn [m].
  apply (@rep_lazy_first dot (fun c => negb (eqc (ch ">") c))); try assumption.
  - destruct f; [contradiction | simpl; lia].
  - intros j x t Hx. apply negb_true_iff in Hx. cbn [m Lit]. now rewrite Hx.
  - cbn [m Lit]. rewrite eqc_refl. unfold accept. rewrite firstn_exact. cbn [upd].
    replace (S (i + List.length (str "<attached: ") + List.length f) - i)
      with (List.length (str "<attached: " ++ f ++ [ch ">"]))
      by (rewrite !length_app; cbn [List.length]; lia).
    replace (str "<attached: " ++ f ++ ch ">" :: post)
      with ((str "<attached: " ++ f ++ [ch ">"]) ++ post)
      by (repeat (rewrite <- app_assoc; cbn [app]); reflexivity).
    rewrite firstn_app, firstn_all, Nat.sub_diag. cbn [firstn].
    now rewrite app_nil_r.
Qed.

Lemma match_at_attached_other (i : nat) (x : char) (t : jsstring) :
  eqc (ch "<") x = false -> match_at MEDIA_ATTACHED_PATTERN i (x :: t) = None.
Proof.
  intro H. unfold match_at, MEDIA_ATTACHED_PATTERN. cbn [Seqs].
  change (str "<attached: ") with (ch "<" :: str "attached: ").
  cbn [m Str Lit]. now rewrite H.
Qed.

(** Without a [<] before the marker and a [>] in the name, the match is
    the marker itself. *)
Lemma exec_attached_first (pre f post : jsstring) :
  forallb (fun c => negb (eqc (ch "<") c)) pre = true ->
  f <> [] -> forallb dot f = true ->
  forallb (fun c => negb (eqc (ch ">") c)) f = true ->
  exec MEDIA_ATTACHED_PATTERN (pre ++ str "<attached: " ++ f ++ ch ">" :: post)
  = Some [Some (str "<attached: " ++ f ++ [ch ">"]); Some f].
Proof.
  intros Hpre Hne Hdot Hgt. unfold exec. generalize 0 as i.
  induction pre as [|x pre IH]; intro i.
  - cbn [app]. pose proof (@match_at_attached i f post Hne Hdot Hgt) as Hm.
    destruct (str "<attached: " ++ f ++ ch ">" :: post); cbn [scan]; now rewrite Hm.
  - cbn [forallb] in Hpre. apply andb_true_iff in Hpre as [Hx Hpre].
    apply negb_true_iff in Hx.
    change ((x :: pre) ++ str "<attached: " ++ f ++ ch ">" :: post)
      with (x :: (pre ++ str "<attached: " ++ f ++ ch ">" :: post)).
    cbn [scan]. rewrite (@match_at_attached_other i x _ Hx). now apply IH.
Qed.

(** C4: a body that contains a marker [<attached: NAME>], with a
    non-empty name without line terminator, is classified as media,
    whatever else it contains, an omission phrase included.  The file name
    recorded is one that stands in such a marker of the body, and the kind
    of media is the one that the table of the specification gives for its
    extension, the lower-cased text after its last full stop.  When no
    [<] stands before the marker and no [>] in its name, the file name
    recorded is that name. *)
Theorem attachment_first (pre f post : jsstring) :
  whole (Rep true dot 1 None) f = true ->
  exists name,
    analyzeMessage (pre ++ str "<attached: " ++ f ++ ch ">" :: post)
    = Ok {| a_type := Media;
            a_media :=
              Some {| filename := name;
                      mediaType :=
                        kind_of_extension (toLowerCase (after_last_dot name)) |} |}
    /\ (exists pre' post',
           pre ++ str "<attached: " ++ f ++ ch ">" :: post
           = pre' ++ str "<attached: " ++ name ++ ch ">" :: post')
    /\ (forallb (fun c => negb (eqc (ch "<") c)) pre = true ->
        forallb (fun c => negb (eqc (ch ">") c)) f = true ->
        name = f).
Proof.
  intro Hf. apply whole_dots in Hf as [Hdot Hlen].
  assert (Hne : f <> []) by (intros ->; simpl in Hlen; lia).
  pose proof (@exec_attached pre f post Hne Hdot) as Hex.
  unfold analyzeMessage.
  destruct (exec MEDIA_ATTACHED_PATTERN (pre ++ str "<attached: " ++ f ++ ch ">" :: post))
    as [c|] eqn:E; [|contradiction].
  pose proof E as E'.
  apply exec_attached_inv in E' as (pre' & name & post' & Heq & _ & _ & ->).
  cbn [group nth defined bind].
  rewrite pop_split_after_last_dot. cbn [defined bind].
  rewrite media_type_of_table.
  exists name. split; [reflexivity|]. split; [eauto|].
  intros Hpre Hgt.
  rewrite (@exec_attached_first pre f post Hpre Hne Hdot Hgt) in E.
  now injection E as _ <-.
Qed.

(** The body of the specification: the attachment marker wins over the
    omission phrase, and [photo.jpg] is an image. *)
Lemma attachment_first_example :
  analyzeMessage (str "<attached: photo.jpg> image omitted")
  = Ok {| a_type := Media;
          a_media := Some {| filename := str "photo.jpg"; mediaType := Image |} |}.
Proof.
  destruct (@attachment_first [] (str "photo.jpg") (str " image omitted") eq_refl)
    as (name & Ha & _ & Hn).
  rewrite (Hn eq_refl eq_refl) in Ha. exact Ha.
Defined.

(** The same body evaluated, next to the omission phrase alone. *)
Example attachment_beats_omission :
  analyzeMessage (str "<attached: photo.jpg> image omitted")
  = Ok {| a_type := Media;
          a_media := Some {| filename := str "photo.jpg"; mediaType := Image |} |}
  /\ analyzeMessage (str "image omitted")
     = Ok {| a_type := MediaOmitted; a_media := None |}.
Proof. split; reflexivity. Qed.

(** ** Tokens of another shape *)

(** C7 as stated fails: tokens of another shape are not refused.  A date
    of four fields and a time without marker go through, and what comes
    back is a string. *)
Lemma malformed_tokens_accepted :
  is_date_token (str "1/2/3/4") = false
  /\ is_time_token_1 (str "7:5") = false
  /\ is_time_token_2 (str "7:5") = false
  /\ parseDateTime (str "1/2/3/4") (str "7:5") 1 = Ok (str "203-02-01T07:05:00").
Proof. repeat split. Qed.

Lemma Number_no_throw (s : jsstring) (e : error) : Number s <> Throw e.
Proof.
  unfold Number. destruct (trim s) as [|x l]; [discriminate|].
  destruct (forallb is_digit (x :: l)).
  - destruct (Nat.leb _ _); discriminate.
  - destruct (forallb numeric_char (x :: l)); discriminate.
Qed.

(** Where [parseDateTime] is found to throw, on fields that [Number] is
    given a meaning for: a method call on a field that is not there. *)
Lemma parseDateTime_throw (d t : jsstring) (ft : nat) (e : error) :
  parseDateTime d t ft = Throw e ->
  e = TypeError
  /\ (List.length (split_on (eqc (ch "/")) d) < 2
      \/ List.length (split_on (eqc (ch ":")) (nth 0 (split_on time_gap t) [])) < 2).
Proof.
  unfold parseDateTime.
  generalize (nth_error (split_on time_gap t) 1) as period.
  generalize (split_on (eqc (ch "/")) d) as parts.
  generalize (split_on (eqc (ch ":")) (nth 0 (split_on time_gap t) [])) as clock.
  intros clock parts period. unfold day_month.
  destruct parts as [|p0 [|p1 ps]], clock as [|c0 [|c1 [|c2 cs]]];
    cbn [nth_error nth List.map display List.length];
    repeat match goal with
    | |- context [Number ?x] =>
        let E := fresh "E" in
        destruct (Number x) as [?|?|] eqn:E;
        [| exfalso; exact (@Number_no_throw _ _ E) |]
    end;
    repeat match goal with
    | |- context [if ?b then _ else _] => destruct b
    end;
    cbn [bind defined]; intro H; try discriminate;
    injection H as <-; (split; [reflexivity | simpl; lia]).
Qed.

(** A date without a slash leaves [day] or [month] undefined, and the
    template fails on it, whatever the time is. *)
Lemma parseDateTime_no_slash (d h mi : jsstring) (osec : option jsstring)
      (g ap : char) (formatType : nat) :
  forallb (fun c => negb (eqc (ch "/") c)) d = true ->
  numeric h = true -> short h = true -> numeric mi = true -> short mi = true ->
  match osec with Some ss => numeric ss = true /\ short ss = true | None => True end ->
  time_gap g = true -> A_or_P ap = true ->
  parseDateTime d (time_text h mi osec g ap) formatType = Throw TypeError.
Proof.
  intros Hd Hh Hh' Hmi Hmi' Hs Hg Hap.
  pose proof (numeric_digits _ Hh) as [Dh Nh].
  pose proof (numeric_digits _ Hmi) as [Dmi Nmi].
  assert (Ds : match osec with Some ss => forallb is_digit ss = true | None => True end).
  { destruct osec as [ss|]; [|exact I]. destruct Hs as [Hs _].
    now apply numeric_digits in Hs. }
  unfold parseDateTime. rewrite (split_on_none _ _ Hd).
  rewrite split_time_gap by assumption.
  cbn [nth nth_error]. rewrite split_clock by assumption.
  cbn [List.map nth nth_error].
  rewrite (@Number_digits h) by (try apply Nat.leb_le; assumption).
  rewrite (@Number_digits mi) by (try apply Nat.leb_le; assumption).
  cbn [bind].
  assert (Hsec : exists v,
             match match List.map Number
                           match osec with Some ss => [ss] | None => [] end with
                   | [] => None
                   | x :: _ => Some x
                   end with
             | Some n => v <- n ;; Ok (or_zero (Some v))
             | None => Ok (or_zero None)
             end = Ok v).
  { destruct osec as [ss|]; [|eexists; reflexivity]. destruct Hs as [Hs Hs'].
    apply numeric_digits in Hs as [Hs Ns]. cbn [List.map].
    rewrite Number_digits by (try apply Nat.leb_le; assumption).
    eexists. reflexivity. }
  destruct Hsec as [v ->]. cbn [bind].
  unfold day_month. cbn [nth_error display].
  destruct (gt12 (parseInt d)); [reflexivity|].
  destruct (gt12 (parseInt (str "undefined"))); [reflexivity|].
  destruct (Nat.eqb formatType 2); reflexivity.
Qed.

(** C7, as the code has it: [parseDateTime] checks no shape and has no
    error of its own.  On the tokens that a start pattern has captured it
    returns a timestamp; and where a field is missing altogether, as in a
    date without a slash next to a time of either shape, what is raised
    is the [TypeError] of the language. *)
Theorem timestamp_of_start_line (line : jsstring) (mt : captures)
        (isSystem : bool) (ft : nat) :
  match_start line = (Some mt, isSystem, ft) ->
  (exists d t ts,
      group 1 mt = Some d /\ group 2 mt = Some t
      /\ is_date_token d = true
      /\ (is_time_token_1 t = true \/ is_time_token_2 t = true)
      /\ parseDateTime d t ft = Ok ts)
  /\ (forall d t formatType,
         forallb (fun c => negb (eqc (ch "/") c)) d = true ->
         is_time_token_1 t = true \/ is_time_token_2 t = true ->
         parseDateTime d t formatType = Throw TypeError).
Proof.
  intro H. split.
  - apply match_start_inv in H
      as [(d & t & sn & b & -> & -> & -> & Hd & Ht)
         |[(d & t & sn & b & -> & -> & -> & Hd & Ht)
          |(d & t & b & -> & -> & -> & Hd & Ht)]].
    + destruct (parseDateTime_start_1 1 Hd Ht) as [ts Hts].
      exists d, t, ts. repeat split; try assumption.
      * now apply is_date_token_iff.
      * left. now apply is_time_token_1_iff.
    + destruct (parseDateTime_start_2 2 Hd Ht) as [ts Hts].
      exists d, t, ts. repeat split; try assumption.
      * now apply is_date_token_iff.
      * right. now apply is_time_token_2_iff.
    + destruct (parseDateTime_start_2 2 Hd Ht) as [ts Hts].
      exists d, t, ts. repeat split; try assumption.
      * now apply is_date_token_iff.
      * right. now apply is_time_token_2_iff.
  - intros d t formatType Hd [Ht|Ht].
    + apply is_time_token_1_iff in Ht.
      destruct (time1_shape_text Ht)
        as (h & mi & ss & ap & -> & Hh & Lh & Hmi & Lmi & Hss & Lss & Hap).
      apply parseDateTime_no_slash; auto.
    + apply is_time_token_2_iff in Ht.
      destruct (time2_shape_text Ht)
        as (h & mi & g & ap & -> & Hh & Lh & Hmi & Lmi & Hg & Hap).
      apply parseDateTime_no_slash; auto.
Qed.

(** The first line of the specification's example, and a date without
    a slash. *)
Lemma timestamp_of_start_line_example :
  (exists d t ts,
      group 1 [Some (str "[13/01/25, 11:52:46 AM] Alice: Hello"); Some (str "13/01/25");
               Some (str "11:52:46 AM"); Some (str "Alice"); Some (str "Hello")] = Some d
      /\ group 2 [Some (str "[13/01/25, 11:52:46 AM] Alice: Hello"); Some (str "13/01/25");
                  Some (str "11:52:46 AM"); Some (str "Alice"); Some (str "Hello")] = Some t
      /\ is_date_token d = true
      /\ (is_time_token_1 t = true \/ is_time_token_2 t = true)
      /\ parseDateTime d t 1 = Ok ts)
  /\ parseDateTime (str "130125") (str "11:52:46 AM") 1 = Throw TypeError.
Proof.
  destruct (@timestamp_of_start_line (str "[13/01/25, 11:52:46 AM] Alice: Hello")
              [Some (str "[13/01/25, 11:52:46 AM] Alice: Hello"); Some (str "13/01/25");
               Some (str "11:52:46 AM"); Some (str "Alice"); Some (str "Hello")]
              false 1 eq_refl) as [H1 H2].
  split; [exact H1|].
  apply H2; [reflexivity | left; reflexivity].
Defined.

(** ** The date range of the metadata *)

(** What the loop of [extractMetadata] computes: the earliest and the
    latest of the moments that the timestamps denote, system messages
    included. *)
Lemma forEach_range (e : env) (msgs : list message) :
  forall (times : list Z) (st : fold_state) (lo hi : Z) (old : list Z),
    Forall2 (fun msg t => Date_parse e (timestamp msg) = Ok t) msgs times ->
    earliestDate st = Some lo -> latestDate st = Some hi ->
    In lo old -> In hi old -> Forall (fun t => lo <= t <= hi)%Z old ->
    exists st' lo' hi',
      forEach e st msgs = Ok st'
      /\ earliestDate st' = Some lo' /\ latestDate st' = Some hi'
      /\ In lo' (old ++ times) /\ In hi' (old ++ times)
      /\ Forall (fun t => lo' <= t <= hi')%Z (old ++ times).
Proof.
  induction msgs as [|msg msgs IH]; intros times st lo hi old H Hlo Hhi Ilo Ihi Hall.
  - inversion H; subst. exists st, lo, hi. rewrite app_nil_r. simpl. auto 10.
  - inversion H as [|? t ? ts Ht Hts]; subst.
    simpl forEach. unfold visit. rewrite Ht, Hlo, Hhi. cbn [bind].
    set (lo1 := if (t <? lo)%Z then t else lo).
    set (hi1 := if (hi <? t)%Z then t else hi).
    destruct (IH ts {| seen := if negb (is_system (type msg))
                               then set_add (sender msg) (seen st) else seen st;
                       earliestDate := Some lo1; latestDate := Some hi1 |}
                lo1 hi1 (old ++ [t]) Hts eq_refl eq_refl)
      as (st' & lo' & hi' & Hrun & Hlo' & Hhi' & Ilo' & Ihi' & Hall').
    + unfold lo1. rewrite in_app_iff. destruct (t <? lo)%Z; simpl; auto.
    + unfold hi1. rewrite in_app_iff. destruct (hi <? t)%Z; simpl; auto.
    + assert (Hlh : (lo <= hi)%Z).
      { rewrite Forall_forall in Hall. apply Hall in Ilo. lia. }
      apply Forall_app. split.
      * eapply Forall_impl; [|exact Hall]. intros x Hx. cbv beta in Hx.
        unfold lo1, hi1.
        destruct (Z.ltb_spec t lo), (Z.ltb_spec hi t); lia.
      * constructor; [|constructor]. unfold lo1, hi1.
        destruct (Z.ltb_spec t lo), (Z.ltb_spec hi t); lia.
    + exists st', lo', hi'. rewrite <- app_assoc in Ilo', Ihi', Hall'. auto 10.
Qed.

(** The date range of a non-empty sequence: the UTC dates of the earliest
    and of the latest moment. *)
Lemma extractMetadata_range (e : env) (msg : message) (msgs : list message)
      (name : jsstring) (t : Z) (times : list Z) :
  Forall2 (fun m t => Date_parse e (timestamp m) = Ok t) (msg :: msgs) (t :: times) ->
  exists md lo hi,
    extractMetadata e (msg :: msgs) name = Ok md
    /\ dateRange md = {| start := Some (iso_date lo); end_ := Some (iso_date hi) |}
    /\ In lo (t :: times) /\ In hi (t :: times)
    /\ Forall (fun x => lo <= x <= hi)%Z (t :: times).
Proof.
  intro H. inversion H as [|? ? ? ? Ht Hts]; subst.
  unfold extractMetadata. simpl forEach. unfold visit at 1. rewrite Ht. cbn [bind].
  cbn [earliestDate latestDate seen].
  destruct (@forEach_range e msgs times
              {| seen := if negb (is_system (type msg))
                         then set_add (sender msg) [] else [];
                 earliestDate := Some t; latestDate := Some t |}
              t t [t] Hts eq_refl eq_refl)
    as (st' & lo & hi & Hrun & Hlo & Hhi & Ilo & Ihi & Hall).
  - now left.
  - now left.
  - constructor; [lia | constructor].
  - rewrite Hrun. cbn [bind]. rewrite Hlo, Hhi.
    eexists. exists lo, hi. split; [reflexivity|]. simpl. auto.
Qed.

(** C8 fails on a machine whose clock is ahead of UTC: a message written
    at two in the morning of 18 June 2025 is reported under 17 June.  The
    timestamp is read as local time, and the date is then taken from its
    UTC form.  On a machine on UTC the same message gives 18 June. *)
Theorem date_range_shifted (name : jsstring) :
  exists msgs md md0,
    parseChatFile (str "[18/06/25, 2:00:00 AM] Alice: Hi") = Ok msgs
    /\ List.map timestamp msgs = [str "2025-06-18T02:00:00"]
    /\ extractMetadata {| tzOffset := 330; now := 0 |} msgs name = Ok md
    /\ dateRange md = {| start := Some (str "2025-06-17");
                         end_ := Some (str "2025-06-17") |}
    /\ extractMetadata {| tzOffset := 0; now := 0 |} msgs name = Ok md0
    /\ dateRange md0 = {| start := Some (str "2025-06-18");
                          end_ := Some (str "2025-06-18") |}.
Proof.
  do 3 eexists. split; [vm_compute; reflexivity|].
  split; [reflexivity|]. split; [vm_compute; reflexivity|].
  split; [reflexivity|]. split; [vm_compute; reflexivity|]. reflexivity.
Qed.

(** ** The scenario of the specification, end to end *)

Example end_to_end :
  exists m1 m2 md,
    parseChatFile (str "[13/01/25, 11:52:46 AM] Alice: Hello" ++ 10%N :: str "there"
                   ++ 10%N :: str "[13/01/25, 11:53:00 AM] Bob: <attached: pic.jpg>")
    = Ok [m1; m2]
    /\ m1 = {| id := str "msg_1"; timestamp := str "2025-01-13T11:52:46";
               sender := str "Alice"; content := str "Hello" ++ 10%N :: str "there";
               type := Text; media := None |}
    /\ m2 = {| id := str "msg_2"; timestamp := str "2025-01-13T11:53:00";
               sender := str "Bob"; content := str "<attached: pic.jpg>";
               type := Media;
               media := Some {| filename := str "pic.jpg"; mediaType := Image |} |}
    /\ extractMetadata {| tzOffset := 0; now := 0 |} [m1; m2] (str "Family") = Ok md
    /\ participants md = [str "Alice"; str "Bob"]
    /\ messageCount md = 2.
Proof.
  do 3 eexists. split; [vm_compute; reflexivity|].
  split; [reflexivity|]. split; [reflexivity|].
  split; [vm_compute; reflexivity|]. split; reflexivity.
Qed.

(** * Further properties *)

(** ** Line ends *)

Lemma replace_crlf_plain (s : jsstring) :
  forallb (fun c => negb (eqc c 13%N)) s = true -> replace_crlf s = s.
Proof.
  induction s as [|c s IH]; intro H; [reflexivity|].
  simpl in H. apply andb_true_iff in H as [Hc Hs].
  destruct s as [|d s']; [reflexivity|].
  apply negb_true_iff in Hc.
  change (replace_crlf (c :: d :: s'))
    with (if eqc c 13%N && eqc d 10%N then 10%N :: replace_crlf s'
          else c :: replace_crlf (d :: s')).
  rewrite Hc. cbn [andb]. now rewrite (IH Hs).
Qed.

Lemma replace_crlf_break (l rest : jsstring) :
  forallb (fun c => negb (eqc c 13%N)) l = true ->
  replace_crlf (l ++ 13%N :: 10%N :: rest) = l ++ 10%N :: replace_crlf rest.
Proof.
  induction l as [|c l IH]; intro H; [reflexivity|].
  simpl in H. apply andb_true_iff in H as [Hc Hl].
  apply negb_true_iff in Hc. specialize (IH Hl).
  cbn [app]. destruct (l ++ 13%N :: 10%N :: rest) as [|d s'] eqn:E.
  - now destruct l.
  - change (replace_crlf (c :: d :: s'))
      with (if eqc c 13%N && eqc d 10%N then 10%N :: replace_crlf s'
            else c :: replace_crlf (d :: s')).
    rewrite Hc. cbn [andb]. now rewrite IH.
Qed.

Lemma no_line_break_cr (l : jsstring) :
  forallb no_line_break l = true -> forallb (fun c => negb (eqc c 13%N)) l = true.
Proof.
  apply forallb_imp. intros x H. unfold no_line_break in H.
  now apply andb_true_iff in H as [_ H].
Qed.

Lemma no_line_break_lf (l : jsstring) :
  forallb no_line_break l = true -> forallb (fun c => negb (eqc 10%N c)) l = true.
Proof.
  apply forallb_imp. intros x H. unfold no_line_break in H.
  apply andb_true_iff in H as [H _]. unfold eqc in *. now rewrite N.eqb_sym.
Qed.

Lemma replace_crlf_join (ls : list jsstring) :
  forallb (forallb no_line_break) ls = true ->
  replace_crlf (join_lines [13%N; 10%N] ls) = join_lines [10%N] ls.
Proof.
  induction ls as [|l ls IH]; intro H; [reflexivity|].
  simpl in H. apply andb_true_iff in H as [Hl Hls].
  destruct ls as [|l2 ls'].
  - simpl. now apply replace_crlf_plain, no_line_break_cr.
  - change (join_lines [13%N; 10%N] (l :: l2 :: ls'))
      with (l ++ 13%N :: 10%N :: join_lines [13%N; 10%N] (l2 :: ls')).
    rewrite replace_crlf_break by now apply no_line_break_cr.
    now rewrite (IH Hls).
Qed.

Lemma join_lf_no_cr (ls : list jsstring) :
  forallb (forallb no_line_break) ls = true ->
  forallb (fun c => negb (eqc c 13%N)) (join_lines [10%N] ls) = true.
Proof.
  induction ls as [|l ls IH]; intro H; [reflexivity|].
  simpl in H. apply andb_true_iff in H as [Hl Hls].
  destruct ls as [|l2 ls'].
  - simpl. now apply no_line_break_cr.
  - change (join_lines [10%N] (l :: l2 :: ls'))
      with (l ++ 10%N :: join_lines [10%N] (l2 :: ls')).
    rewrite forallb_app. rewrite (no_line_break_cr _ Hl). cbn [andb forallb].
    now rewrite (IH Hls).
Qed.

Lemma split_join_lines (ls : list jsstring) :
  forallb (forallb no_line_break) ls = true -> ls <> [] ->
  split_on (eqc 10%N) (join_lines [10%N] ls) = ls.
Proof.
  induction ls as [|l ls IH]; intros H Hne; [contradiction|].
  simpl in H. apply andb_true_iff in H as [Hl Hls].
  destruct ls as [|l2 ls'].
  - simpl. now apply split_on_none, no_line_break_lf.
  - change (join_lines [10%N] (l :: l2 :: ls'))
      with (l ++ 10%N :: join_lines [10%N] (l2 :: ls')).
    rewrite split_on_app; [|now apply no_line_break_lf | reflexivity].
    f_equal. apply IH; [assumption | discriminate].
Qed.

(** X1: a transcript whose lines are separated by carriage return and
    line feed is read exactly like the same lines separated by line feeds
    alone: in both cases the loop runs over the lines themselves. *)
Theorem line_ends_agree (ls : list jsstring) :
  forallb (forallb no_line_break) ls = true ->
  parseChatFile (join_lines [13%N; 10%N] ls) = parseLines ls
  /\ parseChatFile (join_lines [10%N] ls) = parseLines ls.
Proof.
  intro H. destruct ls as [|l ls'] eqn:E; [split; reflexivity|]. rewrite <- E in *.
  assert (Hne : ls <> []) by (rewrite E; discriminate).
  unfold parseChatFile. split.
  - now rewrite replace_crlf_join, split_join_lines.
  - rewrite replace_crlf_plain by now apply join_lf_no_cr.
    now rewrite split_join_lines.
Qed.

Lemma line_ends_agree_example :
  let ls := [str "[13/01/25, 11:52:46 AM] Alice: Hello"; str "there"; [];
             str "1/13/25, 11:53 AM - Bob: Hi"] in
  parseChatFile (join_lines [13%N; 10%N] ls) = parseLines ls
  /\ parseChatFile (join_lines [10%N] ls) = parseLines ls.
Proof. apply line_ends_agree. reflexivity. Defined.

(** ** Cleaning of the lines *)

Lemma drop_while_head (p : char -> bool) (s : jsstring) (x : char) (t : jsstring) :
  drop_while p s = x :: t -> p x = false.
Proof.
  induction s as [|c s IH]; simpl; [discriminate|].
  destruct (p c) eqn:E; [assumption|]. intro H. now injection H as <- _.
Qed.

Lemma drop_while_split (p : char -> bool) (s : jsstring) :
  exists pre, s = pre ++ drop_while p s /\ forallb p pre = true.
Proof.
  induction s as [|c s (pre & IH & Hp)]; [now exists []|]. simpl.
  destruct (p c) eqn:E.
  - exists (c :: pre). simpl. rewrite E, Hp. split; [now f_equal | reflexivity].
  - now exists [].
Qed.

Lemma drop_while_fix (p : char -> bool) (s : jsstring) :
  match s with [] => True | x :: _ => p x = false end -> drop_while p s = s.
Proof. destruct s as [|x s]; [reflexivity|]. simpl. now intros ->. Qed.

Lemma forallb_drop_while (q p : char -> bool) (s : jsstring) :
  forallb q s = true -> forallb q (drop_while p s) = true.
Proof.
  destruct (drop_while_split p s) as (pre & E & _). intro H.
  rewrite E, forallb_app in H. now apply andb_true_iff in H as [_ H].
Qed.

Lemma forallb_trim (q : char -> bool) (s : jsstring) :
  forallb q s = true -> forallb q (trim s) = true.
Proof.
  intro H. unfold trim. rewrite forallb_rev. apply forallb_drop_while.
  rewrite forallb_rev. now apply forallb_drop_while.
Qed.

(** A trimmed string begins and ends with something else than white
    space. *)
Lemma trim_ends (s : jsstring) :
  match trim s with [] => True | x :: _ => is_space x = false end
  /\ match rev (trim s) with [] => True | y :: _ => is_space y = false end.
Proof.
  unfold trim. rewrite rev_involutive.
  set (a := drop_while is_space s).
  set (b := drop_while is_space (rev a)).
  split.
  - destruct (rev b) as [|x t] eqn:E; [exact I|].
    destruct (drop_while_split is_space (rev a)) as (pre & Ha & _).
    fold b in Ha. apply (f_equal (@rev char)) in Ha.
    rewrite rev_involutive, rev_app_distr, E in Ha.
    unfold a in Ha. now apply drop_while_head in Ha.
  - destruct b as [|y t] eqn:E; [exact I|]. now apply drop_while_head in E.
Qed.

Lemma trim_fix (s : jsstring) :
  match s with [] => True | x :: _ => is_space x = false end ->
  match rev s with [] => True | y :: _ => is_space y = false end ->
  trim s = s.
Proof.
  intros H1 H2. unfold trim. rewrite (drop_while_fix _ _ H1).
  rewrite (drop_while_fix _ _ H2). apply rev_involutive.
Qed.

Lemma trim_trim (s : jsstring) : trim (trim s) = trim s.
Proof. destruct (trim_ends s). now apply trim_fix. Qed.

Lemma filter_all (q : char -> bool) (s : jsstring) :
  forallb q s = true -> filter q s = s.
Proof.
  induction s as [|c s IH]; [reflexivity|]. simpl.
  intro H. apply andb_true_iff in H as [-> H]. now rewrite IH.
Qed.

Lemma forallb_filter (q : char -> bool) (s : jsstring) : forallb q (filter q s) = true.
Proof.
  induction s as [|c s IH]; [reflexivity|]. simpl.
  destruct (q c) eqn:E; [simpl; now rewrite E|assumption].
Qed.

Lemma clean_clean (raw : jsstring) : clean (clean raw) = clean raw.
Proof.
  unfold clean, strip_invisible.
  rewrite (filter_all _ (trim (filter _ raw))).
  - apply trim_trim.
  - apply forallb_trim, forallb_filter.
Qed.

Lemma step_clean (st : loop_state) (raw : jsstring) : step st (clean raw) = step st raw.
Proof. unfold step. now rewrite clean_clean. Qed.

Lemma run_cleaned (lines : list jsstring) :
  forall st,
    run st (filter (fun l => negb (is_blank l)) (List.map clean lines)) = run st lines.
Proof.
  induction lines as [|raw lines IH]; intro st; [reflexivity|].
  cbn [List.map filter]. unfold is_blank at 1. rewrite clean_clean.
  destruct (clean raw) as [|x l] eqn:E; cbn [negb].
  - cbn [run]. rewrite (step_blank st _ E). cbn [bind]. apply IH.
  - rewrite <- E. cbn [run]. rewrite step_clean.
    destruct (step st raw); cbn [bind]; auto.
Qed.

(** X2: the records depend on the lines only through what is left of
    them once the invisible direction marks are removed and they are
    trimmed, and blank lines count for nothing, wherever they stand. *)
Theorem cleaned_lines_decide (lines : list jsstring) :
  parseLines (filter (fun l => negb (is_blank l)) (List.map clean lines))
  = parseLines lines.
Proof. unfold parseLines. now rewrite run_cleaned. Qed.

(** ** Lines before the first start line *)

Lemma step_initial_nonstart (raw : jsstring) :
  is_start raw = false -> step initial raw = Ok initial.
Proof.
  intro H. destruct (line_cases raw) as [Hb | [Hc | [start Hs]]].
  - now apply step_blank.
  - now rewrite step_continuation.
  - unfold is_start in H. now rewrite Hs in H.
Qed.

Lemma run_initial_nonstart (pre : list jsstring) :
  forallb (fun l => negb (is_start l)) pre = true -> run initial pre = Ok initial.
Proof.
  induction pre as [|raw pre IH]; intro H; [reflexivity|].
  simpl in H. apply andb_true_iff in H as [Hr Hp]. apply negb_true_iff in Hr.
  cbn [run]. rewrite (step_initial_nonstart _ Hr). cbn [bind]. now apply IH.
Qed.

(** X3: whatever stands before the first start line leaves no trace: the
    transcript is read as if it began with its first start line, and a
    transcript without a start line gives no record at all. *)
Theorem preamble_dropped (pre lines : list jsstring) :
  forallb (fun l => negb (is_start l)) pre = true ->
  parseLines (pre ++ lines) = parseLines lines /\ parseLines pre = Ok [].
Proof.
  intro H. unfold parseLines. rewrite run_app, (run_initial_nonstart _ H).
  split; reflexivity.
Qed.

Lemma preamble_dropped_example :
  let pre := [str "Chat export"; []; str "13/01/25 Alice: no time here"] in
  let lines := [str "[13/01/25, 11:52:46 AM] Alice: Hello"; str "there"] in
  parseLines (pre ++ lines) = parseLines lines /\ parseLines pre = Ok [].
Proof. apply preamble_dropped. reflexivity. Defined.

(** ** What every record looks like *)

Lemma trim_nil (s : jsstring) : trim s = [] -> forallb is_space s = true.
Proof.
  unfold trim. intro H.
  apply (f_equal (@rev char)) in H. rewrite rev_involutive in H. simpl in H.
  destruct (drop_while_split is_space (rev (drop_while is_space s))) as (pre & E & Hp).
  rewrite H, app_nil_r in E. rewrite <- E, forallb_rev in Hp.
  destruct (drop_while_split is_space s) as (pre' & E' & Hp').
  destruct (drop_while is_space s) as [|x t] eqn:Ed.
  - rewrite E', app_nil_r. assumption.
  - apply drop_while_head in Ed. simpl in Hp. rewrite Ed in Hp. discriminate.
Qed.

Lemma rev_head_app (a b : jsstring) (y : char) :
  b <> [] -> (exists t, rev (a ++ b) = y :: t) -> exists t, rev b = y :: t.
Proof.
  intros Hb [t H]. rewrite rev_app_distr in H.
  destruct (rev b) as [|z r] eqn:E.
  - apply (f_equal (@rev char)) in E. rewrite rev_involutive in E. contradiction.
  - simpl in H. injection H as -> _. eauto.
Qed.

(** The end of a trimmed line is no white space, and so the end of any
    non-empty piece that ends the line is not either. *)
Lemma trimmed_tail (s pre b : jsstring) :
  trim s = pre ++ b -> b <> [] -> trim b <> [].
Proof.
  intros E Hb Ht. apply trim_nil in Ht.
  destruct (trim_ends s) as [_ H]. rewrite E in H.
  destruct (rev (pre ++ b)) as [|y t] eqn:Er.
  - apply (f_equal (@rev char)) in Er. rewrite rev_involutive in Er. simpl in Er.
    apply app_eq_nil in Er as [_ Er]. contradiction.
  - destruct (@rev_head_app pre b y Hb) as [t' Ht']; [rewrite Er; eauto|].
    rewrite <- forallb_rev, Ht' in Ht. simpl in Ht. rewrite H in Ht. discriminate.
Qed.

Lemma trimmed_no_space_end (s pre : jsstring) : trim s <> pre ++ [ch " "].
Proof.
  intro E. destruct (trim_ends s) as [_ H]. rewrite E, rev_app_distr in H.
  simpl in H. discriminate.
Qed.

(** What the match of a start line holds, with the place of sender and
    body in the line. *)
Lemma match_start_shape (line : jsstring) (mt : captures) (isSystem : bool) (ft : nat) :
  match_start line = (Some mt, isSystem, ft) ->
  (exists d t sn b pre,
      isSystem = false
      /\ mt = [Some line; Some d; Some t; Some sn; Some b]
      /\ line = pre ++ sn ++ str ": " ++ b
      /\ forallb not_colon sn = true)
  \/ (exists d t b pre,
         isSystem = true
         /\ mt = [Some line; Some d; Some t; Some b]
         /\ line = pre ++ b /\ b <> []).
Proof.
  unfold match_start.
  destruct (exec MESSAGE_START_PATTERN_1 line) as [c1|] eqn:E1.
  - intro H. injection H as <- <- <-.
    apply exec_pattern_1_inv in E1 as (d & t & sn & b & E & _ & _ & _ & Hsn & _ & ->).
    left. exists d, t, sn, b, (ch "[" :: d ++ str ", " ++ t ++ str "] ").
    repeat split; try assumption.
    rewrite E at 1. cbn [app]. f_equal. now rewrite <- !app_assoc.
  - destruct (exec MESSAGE_START_PATTERN_2 line) as [c2|] eqn:E2.
    + intro H. injection H as <- <- <-.
      apply exec_pattern_2_inv in E2 as (d & t & sn & b & E & _ & _ & _ & Hsn & _ & ->).
      left. exists d, t, sn, b, (d ++ str ", " ++ t ++ str " - ").
      repeat split; try assumption.
      rewrite E at 1. now rewrite <- !app_assoc.
    + destruct (exec MESSAGE_START_PATTERN_2_SYSTEM line) as [c3|] eqn:E3.
      * intro H. injection H as <- <- <-.
        apply exec_pattern_2_system_inv in E3 as (d & t & b & E & _ & _ & Hb & _ & ->).
        right. exists d, t, b, (d ++ str ", " ++ t ++ str " - ").
        repeat split; try assumption.
        rewrite E at 1. now rewrite <- !app_assoc.
      * discriminate.
Qed.

Lemma opened_in_order_Forall (P : message -> Prop) n raws msgs :
  opened_in_order n raws msgs ->
  (forall k raw msg, opened_by k raw msg -> P msg) ->
  Forall P msgs.
Proof. induction 1; intro HP; constructor; eauto. Qed.

Lemma parseChatFile_opened (fileText : jsstring) (P : message -> Prop) :
  (forall k raw msg, opened_by k raw msg -> P msg) ->
  exists msgs, parseChatFile fileText = Ok msgs /\ Forall P msgs.
Proof.
  intro H. unfold parseChatFile.
  destruct (parseLines_opened (split_on (eqc 10%N) (replace_crlf fileText)))
    as (msgs & Hp & Ho).
  exists msgs. split; [assumption|]. eapply opened_in_order_Forall; eassumption.
Qed.

(** The attachment pattern of the second kind, taken apart: a stem, a
    full stop, an extension of the list in any case, and the words that
    follow. *)
Lemma Mt_StrI (s : jsstring) :
  forall i u rest c c', Mt (StrI s) i u rest c c' -> same_i s u = true /\ c' = c.
Proof.
  induction s as [|x s IH]; intros i u rest c c' H; simpl in H.
  - destruct H as [-> ->]. auto.
  - destruct H as (u1 & u2 & d & -> & (y & -> & Hy & ->) & H).
    apply IH in H as [H ->]. simpl. unfold LitI in Hy. now rewrite Hy, H.
Qed.

Lemma Mt_Alts_StrI (l : list string) :
  forall i u rest c c',
    Mt (Alts (List.map (fun e => StrI (str e)) l)) i u rest c c' ->
    (exists e, In e l /\ same_i (str e) u = true) /\ c' = c.
Proof.
  induction l as [|e l IH]; intros i u rest c c' H.
  - simpl in H. destruct H as (x & _ & Hx & _). discriminate.
  - destruct l as [|e2 l'].
    + simpl in H. apply Mt_StrI in H as [H ->]. split; [|reflexivity].
      exists e. split; [now left | assumption].
    + change (Mt (Alt (StrI (str e)) (Alts (List.map (fun e => StrI (str e)) (e2 :: l'))))
                 i u rest c c') in H.
      destruct H as [H | H].
      * apply Mt_StrI in H as [H ->]. split; [|reflexivity].
        exists e. split; [now left | assumption].
      * apply IH in H as [(e' & Hin & H) ->]. split; [|reflexivity].
        exists e'. split; [now right | assumption].
Qed.

Lemma exec_attached_2_inv (content : jsstring) (c : captures) :
  exec MEDIA_ATTACHED_PATTERN_2 content = Some c ->
  exists stem x e words rest,
    content = stem ++ x :: e ++ words ++ rest
    /\ c = [Some (stem ++ x :: e ++ words); Some (stem ++ x :: e); Some e]
    /\ stem <> [] /\ forallb dot stem = true
    /\ x = ch "."
    /\ (exists name, In name media_extensions /\ same_i (str name) e = true)
    /\ same_i (str " (file attached)") words = true.
Proof.
  unfold MEDIA_ATTACHED_PATTERN_2. cbn [Seqs]. rewrite exec_anchored.
  unfold match_at. intro H.
  apply m_sound in H as (u & post & c' & -> & H & Hk).
  injection Hk as <-. destruct H as (c1 & H & ->).
  destruct H as (u0 & u1 & c2 & -> & (_ & -> & ->) & H).
  destruct H as (u2 & u3 & c3 & -> & H & H').
  destruct H' as (u4 & u5 & c4 & -> & H' & [-> ->]).
  apply Mt_StrI in H' as [Hw ->].
  destruct H as (c5 & H & ->).
  destruct H as (stem & u7 & c6 & -> & (Hstem & Hlen & _ & ->) & H).
  destruct H as (u8 & u9 & c7 & -> & (x & -> & Hx & ->) & H).
  destruct H as (e & u10 & c8 & -> & H & [-> ->]).
  destruct H as (c9 & H & ->).
  apply Mt_Alts_StrI in H as [Hext ->].
  exists stem, x, e, u4, post.
  assert (Ex : x = ch ".").
  { unfold LitI, eqc_i, eqc, upper_ascii, ch in Hx. simpl N_of_ascii in Hx.
    symmetry. apply N.eqb_eq in Hx. cbn in Hx.
    destruct ((97 <=? x)%N && (x <=? 122)%N) eqn:E; [|assumption].
    apply andb_true_iff in E as [E1 E2].
    apply N.leb_le in E1. apply N.leb_le in E2. lia. }
  repeat split; try assumption.
  - cbn [app]. rewrite !app_nil_r. now rewrite <- !app_assoc.
  - rewrite !app_nil_r. rewrite <- app_assoc. cbn [app]. reflexivity.
  - intros ->. simpl in Hlen. lia.
Qed.

Lemma eqc_i_dot (x y : char) : eqc_i x y = true -> dot x = true -> dot y = true.
Proof.
  unfold eqc_i, upper_ascii, dot, is_line_terminator, eqc. intros H Hx.
  apply N.eqb_eq in H. apply negb_true_iff in Hx. apply negb_true_iff.
  repeat (apply orb_false_iff in Hx; destruct Hx as [Hx ?]).
  repeat match goal with
         | H : (_ =? _)%N = false |- _ => apply N.eqb_neq in H
         end.
  destruct ((97 <=? x)%N && (x <=? 122)%N) eqn:Ex;
    destruct ((97 <=? y)%N && (y <=? 122)%N) eqn:Ey;
    repeat match goal with
           | H : _ && _ = true |- _ => apply andb_true_iff in H; destruct H
           | H : (_ <=? _)%N = true |- _ => apply N.leb_le in H
           end;
    repeat match goal with
           | |- context [N.eqb ?a ?b] => destruct (N.eqb_spec a b); try lia
           end;
    try reflexivity.
Qed.

Lemma same_i_dot (s u : jsstring) :
  same_i s u = true -> forallb dot s = true -> forallb dot u = true.
Proof.
  revert u. induction s as [|x s IH]; intros [|y u] H Hs; try discriminate;
    [reflexivity|].
  simpl in *. apply andb_true_iff in H as [Hxy H]. apply andb_true_iff in Hs as [Hx Hs].
  now rewrite (@eqc_i_dot _ _ Hxy Hx), (IH _ H Hs).
Qed.

Lemma media_extensions_dot (name : string) :
  In name media_extensions -> forallb dot (str name) = true.
Proof.
  intro H.
  assert (A : forallb (fun n => forallb dot (str n)) media_extensions = true)
    by reflexivity.
  rewrite forallb_forall in A. now apply A.
Qed.

(** What [analyzeMessage] returns goes together: a file is recorded for
    the type ['media'] and for no other, and its name is never empty and
    stands on one line. *)
Lemma analyzeMessage_media (content : jsstring) (a : analysis) :
  analyzeMessage content = Ok a ->
  (a_type a = Media <-> a_media a <> None)
  /\ forall mi, a_media a = Some mi ->
                filename mi <> [] /\ forallb dot (filename mi) = true.
Proof.
  unfold analyzeMessage.
  destruct (exec MEDIA_ATTACHED_PATTERN content) as [c|] eqn:E1.
  - apply exec_attached_inv in E1 as (pre & f & post & _ & Hne & Hf & ->).
    cbn [group nth defined bind].
    destruct (pop_split_on (eqc (ch ".")) f) as [last ->]. cbn [defined bind].
    intro H. injection H as <-. cbn [a_type a_media]. split.
    + split; [discriminate | reflexivity].
    + intros mi H. injection H as <-. cbn [filename]. auto.
  - destruct (exec MEDIA_ATTACHED_PATTERN_2 content) as [c|] eqn:E2.
    + apply exec_attached_2_inv in E2
        as (stem & x & e & words & rest & _ & -> & Hne & Hstem & -> & (name & Hin & He) & _).
      cbn [group nth defined bind].
      intro H. injection H as <-. cbn [a_type a_media]. split.
      * split; [discriminate | reflexivity].
      * intros mi H. injection H as <-. cbn [filename]. split.
        -- intro E. now apply app_eq_nil in E as [E _].
        -- rewrite forallb_app, Hstem. cbn [andb forallb].
           rewrite (@same_i_dot _ _ He (@media_extensions_dot _ Hin)). reflexivity.
    + destruct (test MEDIA_OMITTED_PATTERN content).
      { intro H. injection H as <-. cbn. split; [|discriminate].
        split; [discriminate | intro H; now contradiction H]. }
      destruct (isSystemMessage content); intro H; injection H as <-; cbn;
        (split; [|discriminate]); (split; [discriminate | intro H; now contradiction H]).
Qed.

(** The two kinds of record that a start line opens. *)
Lemma opened_by_cases (k : nat) (raw : jsstring) (msg : message) :
  opened_by k raw msg ->
  (exists sn b pre a tail,
      clean raw = pre ++ sn ++ str ": " ++ b
      /\ forallb not_colon sn = true
      /\ analyzeMessage b = Ok a
      /\ sender msg = trim sn /\ type msg = a_type a /\ media msg = a_media a
      /\ content msg = trim b ++ tail)
  \/ (exists b pre tail,
         clean raw = pre ++ b /\ b <> []
         /\ sender msg = str "System" /\ type msg = System /\ media msg = None
         /\ content msg = trim b ++ tail).
Proof.
  intros (mt & sys & ft & first & tail & Hs & Hn & (_ & _ & Hsd & Hty & Hme) & Hc).
  unfold start_of in Hs. destruct (clean raw) as [|x l] eqn:E; [discriminate|].
  destruct (match_start (x :: l)) as [[[mt'|] sys'] ft'] eqn:Em; [|discriminate].
  injection Hs as -> -> ->.
  apply match_start_shape in Em
    as [(d & t & sn & b & pre & -> & -> & El & Hsn)|(d & t & b & pre & -> & -> & El & Hb)];
    unfold new_message in Hn; cbn [group nth defined bind] in Hn.
  - destruct (parseDateTime d t ft) as [ts| |]; cbn [bind] in Hn; try discriminate.
    destruct (analyzeMessage b) as [a| |] eqn:Ea; cbn [bind] in Hn; try discriminate.
    injection Hn as <-. cbn in Hsd, Hty, Hme, Hc.
    left. exists sn, b, pre, a, tail. auto 10.
  - destruct (parseDateTime d t ft) as [ts| |]; cbn [bind] in Hn; try discriminate.
    injection Hn as <-. cbn in Hsd, Hty, Hme, Hc.
    right. exists b, pre, tail. auto 10.
Qed.

(** X4: in every record that [parseChatFile] returns, a file is recorded
    exactly when the type is ['media'], and the name of a recorded file
    is not empty and holds no line terminator. *)
Theorem records_media (fileText : jsstring) :
  exists msgs,
    parseChatFile fileText = Ok msgs
    /\ Forall (fun msg =>
                 (type msg = Media <-> media msg <> None)
                 /\ forall mi, media msg = Some mi ->
                               filename mi <> [] /\ forallb dot (filename mi) = true)
              msgs.
Proof.
  apply parseChatFile_opened. intros k raw msg H.
  apply opened_by_cases in H
    as [(sn & b & pre & a & tail & _ & _ & Ha & _ & -> & -> & _)
       |(b & pre & tail & _ & _ & _ & -> & -> & _)].
  - now apply analyzeMessage_media in Ha.
  - split; [|discriminate]. split; [discriminate | intro H; now contradiction H].
Qed.

Lemma not_colon_System : forallb not_colon (str "System") = true.
Proof. reflexivity. Qed.

(** X5: in every record that [parseChatFile] returns, the sender holds no
    colon and no white space at either end, and the content is not empty
    and begins with something else than white space. *)
Theorem records_sender_content (fileText : jsstring) :
  exists msgs,
    parseChatFile fileText = Ok msgs
    /\ Forall (fun msg =>
                 forallb not_colon (sender msg) = true
                 /\ trim (sender msg) = sender msg
                 /\ match content msg with
                    | [] => False
                    | x :: _ => is_space x = false
                    end)
              msgs.
Proof.
  apply parseChatFile_opened. intros k raw msg H.
  assert (Hbody : forall pre b tail,
             clean raw = pre ++ b -> b <> [] -> content msg = trim b ++ tail ->
             match content msg with [] => False | x :: _ => is_space x = false end).
  { intros pre b tail E Hb Hc. rewrite Hc.
    pose proof (@trimmed_tail (strip_invisible raw) pre b E Hb) as Hne.
    destruct (trim_ends b) as [Hh _].
    destruct (trim b) as [|x t]; [contradiction | exact Hh]. }
  apply opened_by_cases in H
    as [(sn & b & pre & a & tail & E & Hsn & _ & -> & _ & _ & Hc)
       |(b & pre & tail & E & Hb & -> & _ & _ & Hc)].
  - split; [now apply forallb_trim|]. split; [apply trim_trim|].
    apply (Hbody (pre ++ sn ++ str ": ") b tail); [now rewrite <- !app_assoc| |assumption].
    intros ->. rewrite app_nil_r in E.
    apply (@trimmed_no_space_end (strip_invisible raw) (pre ++ sn ++ [ch ":"])).
    unfold clean in E. rewrite E. now rewrite <- !app_assoc.
  - split; [reflexivity|]. split; [reflexivity|]. eapply Hbody; eassumption.
Qed.

(** ** The participants *)

Lemma eqs_refl (a : jsstring) : eqs a a = true.
Proof. now apply eqs_eq. Qed.

Lemma eqs_sym (a b : jsstring) : eqs a b = eqs b a.
Proof.
  destruct (eqs a b) eqn:E1, (eqs b a) eqn:E2; try reflexivity.
  - apply eqs_eq in E1. subst. now rewrite eqs_refl in E2.
  - apply eqs_eq in E2. subst. now rewrite eqs_refl in E1.
Qed.

Lemma existsb_eqs_In (x : jsstring) (l : list jsstring) :
  existsb (eqs x) l = true <-> In x l.
Proof.
  rewrite existsb_exists. split.
  - intros (y & Hy & E). apply eqs_eq in E. now subst.
  - intro H. exists x. split; [assumption | apply eqs_refl].
Qed.

Lemma filter_twice {A : Type} (p q : A -> bool) (l : list A) :
  filter p (filter q l) = filter (fun y => q y && p y) l.
Proof.
  induction l as [|x l IH]; [reflexivity|]. simpl.
  destruct (q x); simpl; [destruct (p x)|]; now rewrite IH.
Qed.

Lemma filter_always {A : Type} (l : list A) : filter (fun _ => true) l = l.
Proof. induction l as [|x l IH]; simpl; [|rewrite IH]; reflexivity. Qed.

Lemma forEach_seen (e : env) (msgs : list message) :
  forall st st',
    forEach e st msgs = Ok st' ->
    seen st' = fold_left (fun l x => set_add x l) (user_senders msgs) (seen st).
Proof.
  induction msgs as [|msg msgs IH]; intros st st' H.
  - injection H as <-. reflexivity.
  - simpl in H. unfold visit in H.
    destruct (Date_parse e (timestamp msg)) as [t| |]; cbn [bind] in H; try discriminate.
    apply IH in H. rewrite H. cbn [seen]. unfold user_senders. cbn [filter].
    destruct (is_system (type msg)); reflexivity.
Qed.

Lemma fold_set_add (xs : list jsstring) :
  forall acc,
    fold_left (fun l x => set_add x l) xs acc
    = acc ++ filter (fun y => negb (existsb (eqs y) acc)) (first_occurrences xs).
Proof.
  induction xs as [|x xs IH]; intro acc; simpl.
  - now rewrite app_nil_r.
  - rewrite IH. unfold set_add. destruct (existsb (eqs x) acc) eqn:E; cbn [negb].
    + f_equal. rewrite filter_twice. apply filter_ext_in. intros y _.
      destruct (existsb (eqs y) acc) eqn:Ey; cbn [negb]; [now rewrite andb_false_r|].
      rewrite andb_true_r. destruct (eqs x y) eqn:Exy; [|reflexivity].
      apply eqs_eq in Exy. subst. congruence.
    + rewrite <- app_assoc. cbn [app]. do 2 f_equal.
      rewrite filter_twice. apply filter_ext_in. intros y _.
      rewrite existsb_app. cbn [existsb]. rewrite orb_false_r, negb_orb.
      rewrite (eqs_sym y x). apply andb_comm.
Qed.

Lemma first_occurrences_In (l : list jsstring) (s : jsstring) :
  In s (first_occurrences l) <-> In s l.
Proof.
  induction l as [|x l IH]; [reflexivity|]. simpl.
  rewrite filter_In, IH. split.
  - intros [H | [H _]]; auto.
  - intros [H | H]; [now left|].
    destruct (eqs x s) eqn:E; [left; now apply eqs_eq | right; auto].
Qed.

Lemma first_occurrences_NoDup (l : list jsstring) : NoDup (first_occurrences l).
Proof.
  induction l as [|x l IH]; simpl; constructor.
  - rewrite filter_In. intros [_ H]. now rewrite eqs_refl in H.
  - now apply NoDup_filter.
Qed.

Lemma forEach_total (e : env) (msgs : list message) :
  Forall (fun msg => exists t, Date_parse e (timestamp msg) = Ok t) msgs ->
  forall st, exists st', forEach e st msgs = Ok st'.
Proof.
  induction 1 as [|msg msgs [t Ht] _ IH]; intro st.
  - now exists st.
  - cbn [forEach]. unfold visit. rewrite Ht. cbn [bind]. apply IH.
Qed.

(** X6: on messages whose timestamps all name a moment of the calendar,
    [extractMetadata] returns, and its participants are the senders of
    the messages that are not of type ['system'], each once, in the order
    in which they first write; the count is the number of messages, the
    name is the one handed in, and the export date is the UTC date of the
    clock. *)
Theorem participants_in_order (e : env) (msgs : list message) (name : jsstring) :
  Forall (fun msg => exists t, Date_parse e (timestamp msg) = Ok t) msgs ->
  exists md,
    extractMetadata e msgs name = Ok md
    /\ participants md = first_occurrences (user_senders msgs)
    /\ NoDup (participants md)
    /\ (forall s, In s (participants md) <->
                  exists msg, In msg msgs /\ is_system (type msg) = false
                              /\ sender msg = s)
    /\ messageCount md = List.length msgs
    /\ chatName md = name
    /\ exportDate md = iso_date (now e).
Proof.
  intro Hall. unfold extractMetadata.
  destruct (@forEach_total e msgs Hall
              {| seen := []; earliestDate := None; latestDate := None |}) as [st E].
  rewrite E. cbn [bind]. eexists. split; [reflexivity|].
  cbn [participants messageCount chatName exportDate].
  apply forEach_seen in E. cbn [seen] in E. rewrite fold_set_add in E.
  cbn [app existsb negb] in E.
  rewrite filter_always in E.
  rewrite E. split; [reflexivity|]. split; [apply first_occurrences_NoDup|].
  split; [|auto]. intro s. rewrite first_occurrences_In. unfold user_senders.
  rewrite in_map_iff. split.
  - intros (msg & Hs & Hin). apply filter_In in Hin as [Hin Hty].
    apply negb_true_iff in Hty. eauto.
  - intros (msg & Hin & Hty & Hs). exists msg. split; [assumption|].
    apply filter_In. split; [assumption|]. now rewrite Hty.
Qed.

(** Alice, the system, Bob and Alice again: the participants are Alice
    and Bob. *)
Lemma participants_in_order_example :
  let e := {| tzOffset := 0; now := 0 |} in
  let rec_ (s : jsstring) (ty : msg_type) :=
    {| id := str "msg_1"; timestamp := str "2025-01-13T11:52:46"; sender := s;
       content := str "Hello"; type := ty; media := None |} in
  let msgs := [rec_ (str "Alice") Text; rec_ (str "System") System;
               rec_ (str "Bob") Text; rec_ (str "Alice") Text] in
  exists md,
    extractMetadata e msgs (str "Family") = Ok md
    /\ participants md = [str "Alice"; str "Bob"]
    /\ NoDup (participants md)
    /\ (forall s, In s (participants md) <->
                  exists msg, In msg msgs /\ is_system (type msg) = false
                              /\ sender msg = s)
    /\ messageCount md = 4
    /\ chatName md = str "Family"
    /\ exportDate md = str "1970-01-01".
Proof.
  intros e rec_ msgs.
  apply (@participants_in_order e msgs (str "Family")).
  repeat (constructor; [eexists; vm_compute; reflexivity|]). constructor.
Defined.

(** ** Replacement of single characters *)

Lemma match_at_Cls (p : char -> bool) (i : nat) (s : jsstring) :
  match_at (Cls p) i s
  = match s with
    | x :: _ => if p x then Some [Some [x]] else None
    | [] => None
    end.
Proof.
  unfold match_at. cbn [m ngroups repeat]. destruct s as [|x s]; [reflexivity|].
  destruct (p x); [|reflexivity]. unfold accept. cbn [upd].
  replace (S i - i) with 1 by lia. reflexivity.
Qed.

Lemma replace_class (p : char -> bool) (text s : jsstring) :
  forall i,
    replace_from (Cls p) (fun _ => text) i 0 s
    = flat_map (fun c => if p c then text else [c]) s.
Proof.
  induction s as [|x s IH]; intro i.
  - cbn [replace_from]. now rewrite match_at_Cls.
  - cbn [replace_from flat_map]. rewrite match_at_Cls.
    destruct (p x); cbn [group nth display List.length]; now rewrite IH.
Qed.

Lemma replace_with_class (p : char -> bool) (text s : jsstring) :
  replace_with (Cls p) text s = flat_map (fun c => if p c then text else [c]) s.
Proof. apply replace_class. Qed.

Lemma flat_map_twice {A B C : Type} (f : A -> list B) (g : B -> list C) (l : list A) :
  flat_map g (flat_map f l) = flat_map (fun x => flat_map g (f x)) l.
Proof.
  induction l as [|x l IH]; [reflexivity|]. simpl.
  now rewrite flat_map_app, IH.
Qed.

Lemma escapeHtml_chars (text : jsstring) : escapeHtml text = flat_map escape_char text.
Proof.
  unfold escapeHtml. destruct text as [|x t] eqn:E; [reflexivity|]. rewrite <- E.
  unfold Lit. rewrite !replace_with_class, !flat_map_twice.
  apply flat_map_ext. intro c.
  unfold escape_char, eqc. rewrite !(N.eqb_sym c).
  destruct (N.eqb_spec (ch "&") c) as [<-|H1]; [reflexivity|].
  cbn [flat_map app]. rewrite ?app_nil_r.
  destruct (N.eqb_spec (ch "<") c) as [<-|H2]; [reflexivity|].
  cbn [flat_map app]. rewrite ?app_nil_r.
  destruct (N.eqb_spec (ch ">") c) as [<-|H3]; [reflexivity|].
  cbn [flat_map app]. rewrite ?app_nil_r.
  destruct (N.eqb_spec quote c) as [<-|H4]; [reflexivity|].
  cbn [flat_map app]. rewrite ?app_nil_r.
  destruct (N.eqb_spec (ch "'") c) as [<-|H5]; reflexivity.
Qed.

(** X7: the five replacements of [escapeHtml], made one after the other,
    come to the same as replacing every character by itself or by its
    entity in one pass: no entity written by an earlier replacement is
    touched by a later one.  So the function goes through concatenation. *)
Theorem escapeHtml_one_pass (a b : jsstring) :
  escapeHtml a = flat_map escape_char a
  /\ escapeHtml (a ++ b) = escapeHtml a ++ escapeHtml b.
Proof.
  split; [apply escapeHtml_chars|].
  now rewrite !escapeHtml_chars, flat_map_app.
Qed.

Lemma escape_char_plain (c : char) : forallb (fun x => negb (is_markup x)) (escape_char c) = true.
Proof.
  unfold escape_char, is_markup, eqc.
  destruct (N.eqb_spec c (ch "&")) as [->|H1]; [reflexivity|].
  destruct (N.eqb_spec c (ch "<")) as [->|H2]; [reflexivity|].
  destruct (N.eqb_spec c (ch ">")) as [->|H3]; [reflexivity|].
  destruct (N.eqb_spec c quote) as [->|H4]; [reflexivity|].
  destruct (N.eqb_spec c (ch "'")) as [->|H5]; [reflexivity|].
  cbn [forallb]. apply N.eqb_neq in H2, H3, H4, H5. now rewrite H2, H3, H4, H5.
Qed.

Lemma escapeHtml_plain (text : jsstring) :
  forallb (fun x => negb (is_markup x)) (escapeHtml text) = true.
Proof.
  rewrite escapeHtml_chars. induction text as [|c t IH]; [reflexivity|].
  cbn [flat_map]. now rewrite forallb_app, escape_char_plain, IH.
Qed.

(** X8: whatever the text, what [escapeHtml] returns holds no angle
    bracket and no quotation mark, single or double. *)
Theorem escapeHtml_no_markup (text : jsstring) (c : char) :
  In c (escapeHtml text) ->
  c <> ch "<" /\ c <> ch ">" /\ c <> quote /\ c <> ch "'".
Proof.
  intro H. pose proof (escapeHtml_plain text) as Hp.
  rewrite forallb_forall in Hp. apply Hp in H.
  unfold is_markup, eqc in H. apply negb_true_iff in H.
  repeat (apply orb_false_iff in H; destruct H as [H ?]).
  repeat match goal with
         | H : (_ =? _)%N = false |- _ => apply N.eqb_neq in H
         end.
  auto.
Qed.

Lemma escapeHtml_no_markup_example :
  In (ch "&") (escapeHtml (str "<b>")) /\
  (ch "&" <> ch "<" /\ ch "&" <> ch ">" /\ ch "&" <> quote /\ ch "&" <> ch "'").
Proof.
  assert (H : In (ch "&") (escapeHtml (str "<b>"))) by (vm_compute; auto).
  split; [exact H|]. exact (@escapeHtml_no_markup (str "<b>") (ch "&") H).
Defined.

Lemma unescape_escape_char (c : char) (rest : jsstring) :
  unescape 0 (escape_char c ++ rest) = c :: unescape 0 rest.
Proof.
  unfold escape_char, eqc.
  destruct (N.eqb_spec c (ch "&")) as [->|H1]; [reflexivity|].
  destruct (N.eqb_spec c (ch "<")) as [->|H2]; [reflexivity|].
  destruct (N.eqb_spec c (ch ">")) as [->|H3]; [reflexivity|].
  destruct (N.eqb_spec c quote) as [->|H4]; [reflexivity|].
  destruct (N.eqb_spec c (ch "'")) as [->|H5]; [reflexivity|].
  cbn [app unescape]. 
  assert (E : eqc (ch "&") c = false) by (unfold eqc; apply N.eqb_neq; congruence).
  unfold str. cbn [list_ascii_of_string List.map starts_with].
  fold (ch "&"). now rewrite E.
Qed.

Lemma unescape_escapeHtml (text : jsstring) : unescape 0 (escapeHtml text) = text.
Proof.
  rewrite escapeHtml_chars. induction text as [|c t IH]; [reflexivity|].
  cbn [flat_map]. now rewrite unescape_escape_char, IH.
Qed.

(** X9: [escapeHtml] loses nothing: reading the five entities back gives
    the text again, and two different texts are never written alike. *)
Theorem escapeHtml_injective (a b : jsstring) :
  unescape 0 (escapeHtml a) = a
  /\ (escapeHtml a = escapeHtml b -> a = b).
Proof.
  split; [apply unescape_escapeHtml|].
  intro H. rewrite <- (unescape_escapeHtml a), <- (unescape_escapeHtml b). now rewrite H.
Qed.

(** ** Links *)

Lemma eqc_i_not_space (x y : char) :
  eqc_i x y = true -> not_space x = true -> not_space y = true.
Proof.
  unfold eqc_i, upper_ascii, not_space, eqc. intros H Hx.
  apply N.eqb_eq in H. apply negb_true_iff in Hx. apply negb_true_iff.
  destruct ((97 <=? y)%N && (y <=? 122)%N) eqn:Ey.
  - apply andb_true_iff in Ey as [E1 E2]. apply N.leb_le in E1. apply N.leb_le in E2.
    clear H Hx. char_arith.
  - destruct ((97 <=? x)%N && (x <=? 122)%N) eqn:Ex.
    + apply andb_true_iff in Ex as [E1 E2]. apply N.leb_le in E1. apply N.leb_le in E2.
      assert (Hy : (65 <= y <= 90)%N) by lia. clear H Hx Ey E1 E2. char_arith.
    + now subst.
Qed.

Lemma same_i_not_space (s u : jsstring) :
  same_i s u = true -> forallb not_space s = true -> forallb not_space u = true.
Proof.
  revert u. induction s as [|x s IH]; intros [|y u] H Hs; try discriminate;
    [reflexivity|].
  simpl in *. apply andb_true_iff in H as [Hxy H]. apply andb_true_iff in Hs as [Hx Hs].
  now rewrite (@eqc_i_not_space _ _ Hxy Hx), (IH _ H Hs).
Qed.

Lemma forallb_eqc_i_not_space (x : char) (u : jsstring) :
  not_space x = true -> forallb (eqc_i x) u = true -> forallb not_space u = true.
Proof.
  intros Hx. apply forallb_imp. intros y Hy. eapply eqc_i_not_space; eassumption.
Qed.

(** What a match of the link pattern is: a piece of the text, not empty
    and without white space, that both slots of the result hold. *)
Lemma match_at_url (i : nat) (s : jsstring) (c : captures) :
  match_at urlPattern i s = Some c ->
  exists u rest, s = u ++ rest /\ u <> [] /\ forallb not_space u = true
                 /\ c = [Some u; Some u].
Proof.
  unfold match_at. intro H.
  apply m_sound in H as (u & rest & c' & -> & H & Hk).
  injection Hk as <-. destruct H as (c1 & H & ->).
  unfold urlPattern in H. destruct H as (c2 & H & ->).
  exists u, rest. split; [reflexivity|].
  assert (Hc : c2 = repeat None 2 /\ u <> [] /\ forallb not_space u = true).
  { destruct H as [H | H]; cbn [Seqs] in H.
    - destruct H as (a & u1 & d1 & -> & Ha & H).
      destruct H as (b & u2 & d2 & -> & (Hb & _ & _ & ->) & H).
      destruct H as (cc & u3 & d3 & -> & Hc & H).
      destruct H as (w & u4 & d4 & -> & (Hw & Hlen & _ & ->) & [-> ->]).
      apply Mt_StrI in Ha as [Ha ->]. apply Mt_StrI in Hc as [Hc ->].
      split; [reflexivity|]. split.
      + intro E. rewrite ?app_nil_r in E.
        repeat (apply app_eq_nil in E; destruct E as [_ E]).
        subst. simpl in Hlen. lia.
      + rewrite !forallb_app.
        rewrite (@same_i_not_space _ _ Ha eq_refl).
        rewrite (@forallb_eqc_i_not_space (ch "s") b eq_refl Hb).
        rewrite (@same_i_not_space _ _ Hc eq_refl). now rewrite Hw.
    - destruct H as (a & u1 & d1 & -> & Ha & H).
      destruct H as (b & u2 & d2 & -> & (y & -> & Hy & ->) & H).
      destruct H as (w & u3 & d3 & -> & (Hw & Hlen & _ & ->) & [-> ->]).
      apply Mt_StrI in Ha as [Ha ->].
      split; [reflexivity|]. split.
      + intro E. rewrite ?app_nil_r in E.
        repeat (apply app_eq_nil in E; destruct E as [_ E]).
        subst. simpl in Hlen. lia.
      + rewrite !forallb_app.
        rewrite (@same_i_not_space _ _ Ha eq_refl). cbn [forallb].
        unfold LitI in Hy. rewrite (@eqc_i_not_space _ _ Hy eq_refl). now rewrite Hw. }
  destruct Hc as (-> & Hne & Hsp). auto.
Qed.

Lemma linkify_from (s : jsstring) :
  forall i skip,
    linkified (skipn skip s)
      (replace_from urlPattern (fun c => anchor (display (group 0 c))) i skip s).
Proof.
  induction s as [|x s IH]; intros i skip.
  - destruct skip; cbn [replace_from skipn]; [|constructor].
    destruct (match_at urlPattern i []) as [c|] eqn:E; [|constructor].
    apply match_at_url in E as (u & rest & E & Hne & _).
    symmetry in E. apply app_eq_nil in E as [-> _]. contradiction.
  - destruct skip as [|k]; cbn [replace_from skipn]; [|apply IH].
    destruct (match_at urlPattern i (x :: s)) as [c|] eqn:E.
    + apply match_at_url in E as (u & rest & E & Hne & Hsp & ->).
      cbn [group nth display]. destruct u as [|y u]; [contradiction|].
      cbn [List.length]. injection E as -> ->.
      change (y :: u ++ rest) with ((y :: u) ++ rest).
      apply linkified_anchor; try assumption.
      specialize (IH (S i) (List.length u)).
      now rewrite skipn_app, skipn_all, Nat.sub_diag in IH.
    + apply linkified_char. apply (IH (S i) 0).
Qed.

(** X10: [linkifyText] only wraps: what it returns is the escaped text,
    unchanged and in order, with some pieces of it, none empty or with
    white space inside, each inside an anchor; and the escaped text holds
    no angle bracket and no quotation mark.  So no character of the
    message can open a tag or close the value of an attribute. *)
Theorem linkifyText_wraps (text : jsstring) :
  linkified (escapeHtml text) (linkifyText text)
  /\ forallb (fun c => negb (is_markup c)) (escapeHtml text) = true.
Proof.
  split; [|apply escapeHtml_plain].
  unfold linkifyText. destruct text as [|x t] eqn:E; [constructor|]. rewrite <- E.
  apply (linkify_from (escapeHtml text) 0 0).
Qed.

(** A greedy quantifier takes the whole run when what follows accepts
    there. *)
Lemma rep_greedy_take (p : char -> bool) (k : nat -> jsstring -> option captures)
      (u : jsstring) :
  forall lo hi i s' res,
    forallb p u = true -> lo <= List.length u -> within hi (List.length u) ->
    (hi = Some (List.length u) \/ match s' with [] => True | y :: _ => p y = false end) ->
    k (i + List.length u) s' = Some res ->
    rep true p lo hi i (u ++ s') k = Some res.
Proof.
  induction u as [|x u IH]; intros lo hi i s' res Hu Hlo Hhi Hend Hk.
  - simpl in *. rewrite Nat.add_0_r in Hk. assert (lo = 0) as -> by lia.
    destruct s' as [|y s']; simpl.
    + assumption.
    + destruct Hend as [-> | Hy].
      * rewrite andb_false_r. assumption.
      * rewrite Hy. assumption.
  - simpl in Hu. apply andb_true_iff in Hu as [Hx Hu]. simpl in Hlo, Hhi.
    assert (Hroom : room hi = true).
    { destruct hi as [[|h]|]; simpl in *; try reflexivity; lia. }
    simpl. rewrite Hx, Hroom. simpl.
    rewrite (IH (Nat.pred lo) (option_map Nat.pred hi) (S i) s' res); try assumption;
      try lia.
    + reflexivity.
    + destruct hi as [[|h]|]; simpl in *; lia.
    + destruct Hend as [-> | Hy]; [left | now right]. reflexivity.
    + now replace (S i + List.length u) with (i + S (List.length u)) by lia.
Qed.


Lemma firstn_whole (s : jsstring) (n : nat) : n = List.length s -> firstn (n - 0) s = s.
Proof. intros ->. rewrite Nat.sub_0_r. apply firstn_all. Qed.

Lemma rep_rest (e : jsstring) (i : nat) (k : nat -> jsstring -> option captures)
      (res : captures) :
  e <> [] -> forallb not_space e = true ->
  k (i + List.length e) [] = Some res ->
  rep true not_space 1 None i e k = Some res.
Proof.
  intros Hne He Hk. rewrite <- (app_nil_r e).
  apply rep_greedy_take; try assumption; simpl; auto.
  destruct e; [contradiction | simpl; lia].
Qed.

Lemma match_at_https (e : jsstring) :
  e <> [] -> forallb not_space e = true ->
  match_at urlPattern 0 (str "https://" ++ e)
  = Some [Some (str "https://" ++ e); Some (str "https://" ++ e)].
Proof.
  intros Hne He. unfold match_at, urlPattern.
  cbn -[rep].
  rewrite (@rep_greedy_take (eqc_i 115%N) _ [115%N] 0 (Some 1) 4
             (58%N :: 47%N :: 47%N :: e)
             [Some (str "https://" ++ e); Some (str "https://" ++ e)]);
    try reflexivity; try (simpl; lia); [now left|].
  cbn -[rep]. apply rep_rest; try assumption.
  unfold accept. rewrite firstn_whole by (simpl; lia). reflexivity.
Qed.

Lemma match_at_http (e : jsstring) :
  e <> [] -> forallb not_space e = true ->
  match_at urlPattern 0 (str "http://" ++ e)
  = Some [Some (str "http://" ++ e); Some (str "http://" ++ e)].
Proof.
  intros Hne He. unfold match_at, urlPattern.
  cbn -[rep].
  rewrite (@rep_greedy_take (eqc_i 115%N) _ [] 0 (Some 1) 4
             (58%N :: 47%N :: 47%N :: e)
             [Some (str "http://" ++ e); Some (str "http://" ++ e)]);
    try reflexivity; try (simpl; lia); [now right|].
  cbn -[rep]. apply rep_rest; try assumption.
  unfold accept. rewrite firstn_whole by (simpl; lia). reflexivity.
Qed.

Lemma match_at_www (e : jsstring) :
  e <> [] -> forallb not_space e = true ->
  match_at urlPattern 0 (str "www." ++ e)
  = Some [Some (str "www." ++ e); Some (str "www." ++ e)].
Proof.
  intros Hne He. unfold match_at, urlPattern.
  cbn -[rep]. apply rep_rest; try assumption.
  unfold accept. rewrite firstn_whole by (simpl; lia). reflexivity.
Qed.

Lemma replace_skip_all (fn : captures -> jsstring) (s : jsstring) :
  forall i n, n = List.length s -> replace_from urlPattern fn i n s = [].
Proof.
  induction s as [|x s IH]; intros i n ->; [reflexivity|]. cbn. now apply IH.
Qed.

Lemma escape_char_not_space (c : char) :
  not_space c = true -> forallb not_space (escape_char c) = true.
Proof.
  intro H. unfold escape_char.
  repeat match goal with
         | |- context [if ?b then _ else _] => destruct b; [reflexivity|]
         end.
  cbn [forallb]. now rewrite H.
Qed.

Lemma escapeHtml_not_space (r : jsstring) :
  forallb not_space r = true -> forallb not_space (escapeHtml r) = true.
Proof.
  rewrite escapeHtml_chars. induction r as [|c r IH]; [reflexivity|].
  cbn [forallb flat_map]. intro H. apply andb_true_iff in H as [Hc Hr].
  now rewrite forallb_app, (escape_char_not_space _ Hc), (IH Hr).
Qed.

Lemma escape_char_nonempty (c : char) : escape_char c <> [].
Proof.
  unfold escape_char.
  repeat match goal with
         | |- context [if ?b then _ else _] => destruct b; [discriminate|]
         end.
  discriminate.
Qed.

Lemma escapeHtml_nonempty (r : jsstring) : r <> [] -> escapeHtml r <> [].
Proof.
  rewrite escapeHtml_chars. destruct r as [|c r]; [contradiction|]. intros _ E.
  cbn [flat_map] in E. apply app_eq_nil in E as [E _]. now apply escape_char_nonempty in E.
Qed.

(** X11: a piece of text that begins with [http://], [https://] or [www.]
    and goes on, without white space, to the end of the text, is put into
    one anchor as a whole: its escaped form is the text of the link, and
    the address of the link as well, behind [https://] if the piece
    begins with [www.]. *)
Theorem linkifyText_url (p r : jsstring) :
  p = str "http://" \/ p = str "https://" \/ p = str "www." ->
  r <> [] -> forallb not_space r = true ->
  linkifyText (p ++ r) = anchor (p ++ escapeHtml r)
  /\ anchor (p ++ escapeHtml r)
     = str "<a " ++ attr (str "href")
                      ((if eqs p (str "www.") then str "https://" else []) ++ p
                       ++ escapeHtml r)
       ++ str " " ++ attr (str "target") (str "_blank")
       ++ str " " ++ attr (str "rel") (str "noopener noreferrer") ++ str ">"
       ++ p ++ escapeHtml r ++ str "</a>".
Proof.
  intros Hp Hne Hr.
  pose proof (escapeHtml_nonempty Hne) as Hne'.
  pose proof (escapeHtml_not_space _ Hr) as Hr'.
  assert (Hpp : escapeHtml p = p) by (destruct Hp as [-> | [-> | ->]]; reflexivity).
  split.
  - unfold linkifyText.
    destruct (p ++ r) as [|x t] eqn:E.
    { apply app_eq_nil in E as [_ E]. contradiction. }
    rewrite <- E.
    destruct (escapeHtml_one_pass p r) as [_ ->]. rewrite Hpp.
    unfold replace_all.
    destruct Hp as [-> | [-> | ->]]; cbn [str list_ascii_of_string List.map app];
      cbn [replace_from].
    + pose proof (match_at_http Hne' Hr') as M.
      cbn [str list_ascii_of_string List.map app] in M. rewrite M.
      cbn [group nth display List.length].
      rewrite replace_skip_all by reflexivity.
      now rewrite app_nil_r.
    + pose proof (match_at_https Hne' Hr') as M.
      cbn [str list_ascii_of_string List.map app] in M. rewrite M.
      cbn [group nth display List.length].
      rewrite replace_skip_all by reflexivity.
      now rewrite app_nil_r.
    + pose proof (match_at_www Hne' Hr') as M.
      cbn [str list_ascii_of_string List.map app] in M. rewrite M.
      cbn [group nth display List.length].
      rewrite replace_skip_all by reflexivity.
      now rewrite app_nil_r.
  - unfold anchor. destruct Hp as [-> | [-> | ->]]; cbn [app]; rewrite <- ?app_assoc;
      reflexivity.
Qed.

Lemma linkifyText_url_example :
  linkifyText (str "www." ++ str "example.com/a?b=1&c=2")
  = anchor (str "www." ++ escapeHtml (str "example.com/a?b=1&c=2"))
  /\ anchor (str "www." ++ escapeHtml (str "example.com/a?b=1&c=2"))
     = str "<a " ++ attr (str "href")
                      ((if eqs (str "www.") (str "www.") then str "https://" else [])
                       ++ str "www." ++ escapeHtml (str "example.com/a?b=1&c=2"))
       ++ str " " ++ attr (str "target") (str "_blank")
       ++ str " " ++ attr (str "rel") (str "noopener noreferrer") ++ str ">"
       ++ str "www." ++ escapeHtml (str "example.com/a?b=1&c=2") ++ str "</a>".
Proof.
  apply linkifyText_url; [right; right; reflexivity | discriminate | reflexivity].
Defined.

(** ** The media files *)

Lemma take_drop_while (p : char -> bool) (s : jsstring) :
  s = take_while p s ++ drop_while p s.
Proof.
  induction s as [|c s IH]; [reflexivity|]. simpl.
  destruct (p c); [simpl; now f_equal | reflexivity].
Qed.

Lemma take_while_forallb (p : char -> bool) (s : jsstring) :
  forallb p (take_while p s) = true.
Proof.
  induction s as [|c s IH]; [reflexivity|]. simpl.
  destruct (p c) eqn:E; [simpl; now rewrite E | reflexivity].
Qed.

Lemma take_while_app (p : char -> bool) (u : jsstring) (x : char) (s : jsstring) :
  forallb p u = true -> p x = false -> take_while p (u ++ x :: s) = u.
Proof.
  induction u as [|c u IH]; simpl; intros Hu Hx; [now rewrite Hx|].
  apply andb_true_iff in Hu as [-> Hu]. now rewrite IH.
Qed.

Lemma drop_while_app (p : char -> bool) (u : jsstring) (x : char) (s : jsstring) :
  forallb p u = true -> p x = false -> drop_while p (u ++ x :: s) = x :: s.
Proof.
  induction u as [|c u IH]; simpl; intros Hu Hx; [now rewrite Hx|].
  apply andb_true_iff in Hu as [-> Hu]. now rewrite IH.
Qed.

(** [extname] of a name with a stem, a full stop and an ending without
    full stop. *)
Lemma extname_split (stem e : jsstring) :
  existsb (eqc (ch "/")) (stem ++ ch "." :: e) = false ->
  stem <> [] -> forallb not_full_stop e = true ->
  starts_with (str ".") (stem ++ ch "." :: e) = false ->
  extname (stem ++ ch "." :: e) = Ok (ch "." :: e).
Proof.
  intros Hs Hne He Hd. unfold extname. rewrite Hs.
  rewrite rev_app_distr. cbn [rev]. rewrite <- app_assoc. cbn [app].
  fold not_full_stop.
  rewrite take_while_app, drop_while_app;
    try (now rewrite forallb_rev); try reflexivity.
  rewrite rev_involutive.
  change (ch "." :: rev stem) with ([ch "."] ++ rev stem).
  rewrite rev_app_distr, rev_involutive. cbn [rev app].
  destruct stem as [|x stem']; [contradiction|].
  assert (E : eqs ((x :: stem') ++ ch "." :: e) (str "..") = false).
  { destruct (eqs ((x :: stem') ++ ch "." :: e) (str "..")) eqn:E; [|reflexivity].
    apply eqs_eq in E. injection E as -> _. discriminate. }
  rewrite E. now destruct stem'.
Qed.

Lemma extname_shape (f e0 : jsstring) :
  extname f = Ok e0 -> e0 <> [] ->
  exists stem e, f = stem ++ ch "." :: e /\ stem <> []
                 /\ forallb not_full_stop e = true /\ e0 = ch "." :: e.
Proof.
  unfold extname. destruct (existsb (eqc (ch "/")) f); [discriminate|].
  fold not_full_stop.
  pose proof (take_drop_while not_full_stop (rev f)) as Hf.
  apply (f_equal (@rev char)) in Hf. rewrite rev_involutive, rev_app_distr in Hf.
  pose proof (take_while_forallb not_full_stop (rev f)) as Ht.
  rewrite <- forallb_rev in Ht.
  destruct (drop_while not_full_stop (rev f)) as [|x t] eqn:Ed.
  - cbn [rev]. intro H. injection H as <-. now intros [].
  - pose proof (drop_while_head _ _ Ed) as Hx.
    assert (x = ch ".") as ->.
    { unfold not_full_stop in Hx. apply negb_false_iff in Hx. now apply eqc_eq in Hx. }
    cbn [rev] in *. destruct (rev t) as [|y t'] eqn:Et; cbn [app] in *.
    + intro H. injection H as <-. now intros [].
    + assert (Hm : forall A (a b : A),
                 match y :: t' ++ [ch "."] with _ :: _ :: _ => a | _ => b end = a)
        by (intros; now destruct t').
      rewrite Hm.
      destruct (eqs f (str "..")); intro H; injection H as <-; [now intros []|].
      intros _. exists (y :: t'), (rev (take_while not_full_stop (rev f))).
      repeat split; try assumption; try discriminate.
      rewrite Hf at 1. now rewrite <- app_assoc.
Qed.

Lemma mediaExtensions_In (x : jsstring) :
  existsb (eqs x) mediaExtensions = true <-> In x mediaExtensions.
Proof.
  rewrite existsb_exists. split.
  - intros (y & Hy & E). apply eqs_eq in E. now subst.
  - intro H. exists x. split; [assumption | now apply eqs_eq].
Qed.

(** The names that the filter of [getMediaFiles] lets through: those with
    a stem, a full stop and one of the nineteen endings in any case.  The
    test for [_chat.txt] adds nothing to this. *)
Lemma is_media_file_iff (f : jsstring) :
  existsb (eqc (ch "/")) f = false ->
  (is_media_file f = Ok true <->
   starts_with (str ".") f = false
   /\ exists stem e, f = stem ++ ch "." :: e /\ stem <> []
                     /\ forallb not_full_stop e = true
                     /\ In (toLowerCase (ch "." :: e)) mediaExtensions).
Proof.
  intro Hs. unfold is_media_file. split.
  - destruct (eqs f (str "_chat.txt")); [discriminate|]. cbn [orb].
    destruct (starts_with (str ".") f) eqn:Hd; [discriminate|].
    destruct (extname f) as [e0| |] eqn:E; cbn [bind]; try discriminate.
    intro H. injection H as H. split; [reflexivity|].
    destruct e0 as [|c e0'] eqn:E0; [discriminate|]. rewrite <- E0 in *.
    apply extname_shape in E as (stem & e & -> & Hne & He & ->); [|rewrite E0; discriminate].
    exists stem, e. repeat split; try assumption. now apply mediaExtensions_In.
  - intros (Hd & stem & e & -> & Hne & He & Hin).
    rewrite Hd, orb_false_r.
    rewrite (@extname_split _ _ Hs Hne He Hd). cbn [bind].
    destruct (eqs (stem ++ ch "." :: e) (str "_chat.txt")) eqn:E.
    + exfalso. apply eqs_eq in E.
      assert (Hx : extname (stem ++ ch "." :: e) = Ok (str ".txt"))
        by (rewrite E; reflexivity).
      rewrite (@extname_split _ _ Hs Hne He Hd) in Hx. injection Hx as ->.
      revert Hin. vm_compute. intuition discriminate.
    + f_equal. now apply mediaExtensions_In.
Qed.

Lemma filter_files_filter (files : list jsstring) :
  forall kept,
    filter_files files = Ok kept ->
    kept = filter (fun f => match is_media_file f with Ok b => b | _ => false end) files.
Proof.
  induction files as [|f files IH]; intros kept H.
  - now injection H as <-.
  - cbn [filter_files] in H.
    destruct (is_media_file f) as [b| |] eqn:E; cbn [bind] in H; try discriminate.
    destruct (filter_files files) as [rest| |]; cbn [bind] in H; try discriminate.
    injection H as <-. cbn [filter]. rewrite E, (IH rest eq_refl). reflexivity.
Qed.

Lemma is_media_file_total (f : jsstring) :
  existsb (eqc (ch "/")) f = false -> exists b, is_media_file f = Ok b.
Proof.
  intro Hs. unfold is_media_file, extname. rewrite Hs.
  destruct (eqs f (str "_chat.txt") || starts_with (str ".") f); [eauto|].
  destruct (rev (drop_while _ (rev f))) as [|x [|y t]]; cbn [bind]; eauto.
  destruct (eqs f (str "..")); cbn [bind]; eauto.
Qed.

Lemma filter_files_total (files : list jsstring) :
  forallb (fun f => negb (existsb (eqc (ch "/")) f)) files = true ->
  exists kept, filter_files files = Ok kept.
Proof.
  induction files as [|f files IH]; intro H; [now exists []|].
  simpl in H. apply andb_true_iff in H as [Hf Hfs]. apply negb_true_iff in Hf.
  destruct (is_media_file_total _ Hf) as [b Hb]. destruct (IH Hfs) as [rest Hr].
  cbn [filter_files]. rewrite Hb, Hr. cbn [bind]. eauto.
Qed.

(** X12: from the names of a directory, none of them with a slash,
    [getMediaFiles] returns, in their order, the names that do not begin
    with a full stop and consist of a stem, a full stop and one of the
    nineteen endings of the list, in upper or lower case; nothing else is
    returned, [_chat.txt] in particular. *)
Theorem getMediaFiles_keeps (files : list jsstring) :
  forallb (fun f => negb (existsb (eqc (ch "/")) f)) files = true ->
  exists kept,
    getMediaFiles files = Ok kept
    /\ kept = filter (fun f => match is_media_file f with Ok b => b | _ => false end)
                     files
    /\ (forall f, In f kept <->
                  In f files
                  /\ starts_with (str ".") f = false
                  /\ exists stem e, f = stem ++ ch "." :: e /\ stem <> []
                                    /\ forallb not_full_stop e = true
                                    /\ In (toLowerCase (ch "." :: e)) mediaExtensions)
    /\ ~ In (str "_chat.txt") kept.
Proof.
  intro H. unfold getMediaFiles.
  destruct (filter_files_total _ H) as [kept Hk]. exists kept.
  split; [assumption|]. pose proof (filter_files_filter _ Hk) as E.
  split; [assumption|].
  assert (Hiff : forall f, In f kept <-> In f files /\ is_media_file f = Ok true).
  { intro f. rewrite E, filter_In. split; intros [Hin Hf]; split; try assumption.
    - destruct (is_media_file f) as [[|]| |]; try discriminate. reflexivity.
    - now rewrite Hf. }
  split.
  - intro f. rewrite Hiff. rewrite forallb_forall in H. split.
    + intros [Hin Hf]. split; [assumption|].
      apply is_media_file_iff; [|assumption].
      apply H in Hin. now apply negb_true_iff in Hin.
    + intros [Hin Hf]. split; [assumption|].
      apply is_media_file_iff; [|assumption].
      apply H in Hin. now apply negb_true_iff in Hin.
  - rewrite Hiff. intros [_ Hf]. discriminate.
Qed.

Lemma getMediaFiles_keeps_example :
  let files := List.map str ["_chat.txt"; ".hidden.jpg"; "a.JPG"; "notes.txt";
                             "c.Mp4"; "noext"; "d.jpg.bak"]%string in
  exists kept,
    getMediaFiles files = Ok kept
    /\ kept = filter (fun f => match is_media_file f with Ok b => b | _ => false end)
                     files
    /\ (forall f, In f kept <->
                  In f files
                  /\ starts_with (str ".") f = false
                  /\ exists stem e, f = stem ++ ch "." :: e /\ stem <> []
                                    /\ forallb not_full_stop e = true
                                    /\ In (toLowerCase (ch "." :: e)) mediaExtensions)
    /\ ~ In (str "_chat.txt") kept.
Proof. apply getMediaFiles_keeps. reflexivity. Defined.

(** ** References to media files *)

Lemma check_reference_app (files : list jsstring) (acc : list missing) (msg : message) :
  check_reference files acc msg = acc ++ check_reference files [] msg.
Proof.
  unfold check_reference. destruct (media msg) as [mi|]; [|now rewrite app_nil_r].
  destruct (filename mi); [now rewrite app_nil_r|].
  destruct (existsb _ files); [now rewrite app_nil_r | reflexivity].
Qed.

Lemma fold_check_reference (files : list jsstring) (msgs : list message) :
  forall acc,
    fold_left (check_reference files) msgs acc
    = acc ++ flat_map (check_reference files []) msgs.
Proof.
  induction msgs as [|msg msgs IH]; intro acc; simpl; [now rewrite app_nil_r|].
  rewrite IH, (check_reference_app files acc msg). now rewrite <- app_assoc.
Qed.

Lemma check_reference_In (files : list jsstring) (msg : message) (r : missing) :
  In r (check_reference files [] msg) <->
  exists mi, media msg = Some mi /\ filename mi <> [] /\ ~ In (filename mi) files
             /\ r = {| m_messageId := id msg; m_filename := filename mi |}.
Proof.
  unfold check_reference. destruct (media msg) as [mi|].
  - destruct (filename mi) as [|x t] eqn:Ef.
    + split; [intros [] | intros (mi' & H & Hne & _)].
      injection H as <-. now rewrite Ef in Hne.
    + rewrite <- Ef. destruct (existsb (eqs (filename mi)) files) eqn:Ein.
      * apply existsb_eqs_In in Ein.
        split; [intros [] | intros (mi' & H & _ & Hn & _)].
        injection H as <-. contradiction.
      * split.
        -- intros [<- | []]. exists mi. repeat split; try reflexivity.
           ++ rewrite Ef. discriminate.
           ++ intro H. apply existsb_eqs_In in H. congruence.
        -- intros (mi' & H & _ & _ & ->). injection H as <-. now left.
  - split; [intros [] | intros (mi & H & _)]. discriminate.
Qed.

Lemma check_reference_length (files : list jsstring) (msg : message) :
  List.length (check_reference files [] msg) <= 1.
Proof.
  unfold check_reference. destruct (media msg) as [mi|]; [|simpl; lia].
  destruct (filename mi); [simpl; lia|].
  destruct (existsb _ files); simpl; lia.
Qed.

Lemma missing_In (msgs : list message) (mediaFiles : list jsstring) (r : missing) :
  In r (flat_map (check_reference mediaFiles []) msgs) <->
  exists msg mi, In msg msgs /\ media msg = Some mi /\ filename mi <> []
                 /\ ~ In (filename mi) mediaFiles
                 /\ r = {| m_messageId := id msg; m_filename := filename mi |}.
Proof.
  rewrite in_flat_map. split.
  - intros (msg & Hm & Hr). apply check_reference_In in Hr as (mi & H). eauto.
  - intros (msg & mi & Hm & H). exists msg. split; [assumption|].
    apply check_reference_In. eauto.
Qed.

Lemma check_reference_unlisted (mediaFiles : list jsstring) (msg : message) :
  check_reference mediaFiles [] msg
  = if unlisted mediaFiles msg then [report_of msg] else [].
Proof.
  unfold check_reference, unlisted, report_of.
  destruct (media msg) as [mi|]; [|reflexivity].
  destruct (filename mi) as [|c f]; [reflexivity|]. cbn [eqs negb andb].
  destruct (existsb _ mediaFiles); reflexivity.
Qed.

Lemma missing_filter (mediaFiles : list jsstring) (msgs : list message) :
  flat_map (check_reference mediaFiles []) msgs
  = List.map report_of (filter (unlisted mediaFiles) msgs).
Proof.
  induction msgs as [|msg msgs IH]; [reflexivity|].
  cbn [flat_map filter]. rewrite IH, check_reference_unlisted.
  destruct (unlisted mediaFiles msg); reflexivity.
Qed.

(** X13: [validateMediaReferences] returns, in the order of the
    messages, one entry for every message with a file whose name is not
    empty and not among the media files, and no other: the list it
    returns is the list of those messages, each turned into its entry.
    So it returns nothing exactly when every such name is among the media
    files.  It prints nothing in that case, and otherwise one heading and
    at most five of the entries. *)
Theorem validateMediaReferences_reports (msgs : list message) (mediaFiles : list jsstring) :
  let '(missingMedia, printed) := validateMediaReferences msgs mediaFiles in
  missingMedia = List.map report_of (filter (unlisted mediaFiles) msgs)
  /\ (forall msg, unlisted mediaFiles msg = true <->
                  exists mi, media msg = Some mi /\ filename mi <> []
                             /\ ~ In (filename mi) mediaFiles)
  /\ (forall r, In r missingMedia <->
                exists msg mi, In msg msgs /\ media msg = Some mi /\ filename mi <> []
                               /\ ~ In (filename mi) mediaFiles
                               /\ r = {| m_messageId := id msg;
                                         m_filename := filename mi |})
  /\ (missingMedia = [] <->
      forall msg mi, In msg msgs -> media msg = Some mi -> filename mi <> [] ->
                     In (filename mi) mediaFiles)
  /\ List.length missingMedia <= List.length msgs
  /\ List.length printed
     = match missingMedia with
       | [] => 0
       | _ :: _ => 1 + Nat.min 5 (List.length missingMedia)
       end.
Proof.
  unfold validateMediaReferences. rewrite fold_check_reference. cbn [app].
  split; [apply missing_filter|].
  split.
  { intro msg. unfold unlisted. destruct (media msg) as [mi|].
    - rewrite andb_true_iff, !negb_true_iff. split.
      + intros [Hne Hnot]. exists mi. split; [reflexivity|]. split.
        * intros E. rewrite E in Hne. discriminate Hne.
        * intro Hin. apply existsb_eqs_In in Hin. congruence.
      + intros (mi' & E & Hne & Hnot). injection E as <-. split.
        * destruct (filename mi); [contradiction | reflexivity].
        * destruct (existsb (eqs (filename mi)) mediaFiles) eqn:Ex; [|reflexivity].
          exfalso. apply Hnot. now apply existsb_eqs_In.
    - split; [discriminate|]. intros (mi & E & _). discriminate E. }
  set (missingMedia := flat_map (check_reference mediaFiles []) msgs).
  assert (Hin : forall r, In r missingMedia <->
             exists msg mi, In msg msgs /\ media msg = Some mi /\ filename mi <> []
                            /\ ~ In (filename mi) mediaFiles
                            /\ r = {| m_messageId := id msg; m_filename := filename mi |}).
  { intro r. apply missing_In. }
  split; [exact Hin|]. split; [|split].
  - split.
    + intros E msg mi Hm Hme Hne.
      destruct (in_dec (list_eq_dec N.eq_dec) (filename mi) mediaFiles) as [|Hn];
        [assumption|].
      exfalso.
      assert (H : In {| m_messageId := id msg; m_filename := filename mi |} missingMedia)
        by (apply Hin; eauto 10).
      now rewrite E in H.
    + intro H. destruct missingMedia as [|r l] eqn:E; [reflexivity|]. exfalso.
      assert (Hr : In r (r :: l)) by now left.
      apply Hin in Hr as (msg & mi & Hm & Hme & Hne & Hn & _). eauto.
  - unfold missingMedia. clear. induction msgs as [|msg msgs IH]; [simpl; lia|].
    cbn [flat_map]. rewrite length_app. cbn [List.length].
    pose proof (check_reference_length mediaFiles msg). lia.
  - unfold warnings. destruct missingMedia as [|r l]; [reflexivity|].
    cbn [List.length]. now rewrite length_map, length_firstn.
Qed.

(** ** The extensions of the parser and those of the media handler *)

Lemma eqc_i_lower (c y : char) :
  ((97 <=? c)%N && (c <=? 122)%N) || is_digit c = true ->
  eqc_i c y = true -> lower_unit y = [c].
Proof.
  unfold eqc_i, upper_ascii, lower_unit, is_digit, eqc. intros Hc H.
  apply N.eqb_eq in H.
  destruct ((97 <=? c)%N && (c <=? 122)%N) eqn:Ec.
  - apply andb_true_iff in Ec as [E1 E2]. apply N.leb_le in E1. apply N.leb_le in E2.
    destruct ((97 <=? y)%N && (y <=? 122)%N) eqn:Ey.
    + apply andb_true_iff in Ey as [E3 E4]. apply N.leb_le in E3. apply N.leb_le in E4.
      assert (y = c) as -> by lia.
      destruct (N.leb_spec 65 c), (N.leb_spec c 90); cbn [andb]; try lia;
        destruct (N.eqb_spec c 8490); try lia; destruct (N.eqb_spec c 304); try lia;
        reflexivity.
    + assert (Hy : (65 <= y <= 90)%N) by lia.
      destruct (N.leb_spec 65 y), (N.leb_spec y 90); cbn [andb]; try lia.
      f_equal. lia.
  - cbn [orb] in Hc. apply andb_true_iff in Hc as [E1 E2].
    apply N.leb_le in E1. apply N.leb_le in E2.
    destruct ((97 <=? y)%N && (y <=? 122)%N) eqn:Ey.
    + apply andb_true_iff in Ey as [E3 E4]. apply N.leb_le in E3. apply N.leb_le in E4. lia.
    + subst y.
      destruct (N.leb_spec 65 c), (N.leb_spec c 90); cbn [andb]; try lia;
        destruct (N.eqb_spec c 8490); try lia; destruct (N.eqb_spec c 304); try lia;
        reflexivity.
Qed.

Lemma eqc_i_not_full_stop (c y : char) :
  ((97 <=? c)%N && (c <=? 122)%N) || is_digit c = true ->
  eqc_i c y = true -> not_full_stop y = true.
Proof.
  intros Hc H. pose proof (@eqc_i_lower _ _ Hc H) as L.
  unfold not_full_stop, eqc. apply negb_true_iff. apply N.eqb_neq. intros ->.
  cbv in L. injection L as <-. cbv in Hc. discriminate.
Qed.

Lemma same_i_lower (s e : jsstring) :
  forallb (fun c => ((97 <=? c)%N && (c <=? 122)%N) || is_digit c) s = true ->
  same_i s e = true ->
  toLowerCase e = s /\ forallb not_full_stop e = true.
Proof.
  revert e. induction s as [|c s IH]; intros [|y e] Hs H; try discriminate.
  - split; reflexivity.
  - simpl in Hs, H. apply andb_true_iff in Hs as [Hc Hs].
    apply andb_true_iff in H as [Hy H]. destruct (IH _ Hs H) as [E1 E2].
    unfold toLowerCase in *. cbn [flat_map forallb].
    rewrite (@eqc_i_lower _ _ Hc Hy), E1, (@eqc_i_not_full_stop _ _ Hc Hy), E2.
    split; reflexivity.
Qed.

Lemma media_extensions_lists (name : string) :
  In name media_extensions ->
  forallb (fun c => ((97 <=? c)%N && (c <=? 122)%N) || is_digit c) (str name) = true
  /\ In (ch "." :: str name) mediaExtensions.
Proof.
  intro H.
  assert (A : forallb (fun n =>
                forallb (fun c => ((97 <=? c)%N && (c <=? 122)%N) || is_digit c) (str n)
                && existsb (eqs (ch "." :: str n)) mediaExtensions)
              media_extensions = true) by reflexivity.
  rewrite forallb_forall in A. apply A in H. apply andb_true_iff in H as [H1 H2].
  split; [assumption | now apply mediaExtensions_In].
Qed.

(** X14: the parser and the media handler know the same endings.  A file
    name that [analyzeMessage] has read from a body of the kind [NAME.ext
    (file attached)] passes the filter of [getMediaFiles], as long as it
    holds no slash and does not begin with a full stop. *)
Theorem attached_name_passes_filter (body : jsstring) (a : analysis) (mi : media_info) :
  analyzeMessage body = Ok a ->
  exec MEDIA_ATTACHED_PATTERN body = None ->
  a_media a = Some mi ->
  existsb (eqc (ch "/")) (filename mi) = false ->
  starts_with (str ".") (filename mi) = false ->
  is_media_file (filename mi) = Ok true.
Proof.
  unfold analyzeMessage. intros Ha E1 Hm Hs Hd. rewrite E1 in Ha.
  destruct (exec MEDIA_ATTACHED_PATTERN_2 body) as [c|] eqn:E2.
  - apply exec_attached_2_inv in E2
      as (stem & x & e & words & rest & _ & -> & Hne & _ & -> & (name & Hin & He) & _).
    cbn [group nth defined bind] in Ha. injection Ha as <-. cbn [a_media] in Hm.
    injection Hm as <-. cbn [filename] in *.
    destruct (@media_extensions_lists _ Hin) as [Hl Hin'].
    destruct (@same_i_lower _ _ Hl He) as [El Hdots].
    apply is_media_file_iff; [assumption|]. split; [assumption|].
    exists stem, e. repeat split; try assumption.
    unfold toLowerCase in *. cbn [flat_map]. rewrite El. exact Hin'.
  - destruct (test MEDIA_OMITTED_PATTERN body); [injection Ha as <-; discriminate|].
    destruct (isSystemMessage body); injection Ha as <-; discriminate.
Qed.

Lemma attached_name_passes_filter_example :
  let body := str "IMG-0001.JPG (file attached)" in
  let mi := {| filename := str "IMG-0001.JPG"; mediaType := Image |} in
  let a := {| a_type := Media; a_media := Some mi |} in
  analyzeMessage body = Ok a /\ is_media_file (filename mi) = Ok true.
Proof.
  intros body mi a.
  assert (H : analyzeMessage body = Ok a) by (vm_compute; reflexivity).
  split; [exact H|].
  apply (@attached_name_passes_filter body a mi H); reflexivity.
Defined.

(** X15: a file whose name does not pass the filter of [getMediaFiles]
    is always reported as missing, whatever the directory holds: the
    parser records any name between [<attached: ] and [>], the media
    handler only knows the names with one of its endings. *)
Theorem foreign_name_reported (files kept : list jsstring) (msgs : list message)
        (msg : message) (mi : media_info) :
  getMediaFiles files = Ok kept ->
  In msg msgs -> media msg = Some mi -> filename mi <> [] ->
  is_media_file (filename mi) <> Ok true ->
  In {| m_messageId := id msg; m_filename := filename mi |}
     (fst (validateMediaReferences msgs kept)).
Proof.
  intros Hk Hm Hme Hne Hf.
  unfold validateMediaReferences. cbn [fst]. rewrite fold_check_reference. cbn [app].
  apply missing_In. exists msg, mi.
  repeat split; try assumption.
  intro Hin. apply filter_files_filter in Hk. rewrite Hk in Hin.
  apply filter_In in Hin as [_ Hin]. apply Hf.
  destruct (is_media_file (filename mi)) as [[|]| |]; try discriminate. reflexivity.
Qed.

Lemma foreign_name_reported_example :
  let files := [str "notes.txt"; str "a.jpg"] in
  let kept := [str "a.jpg"] in
  let mi := {| filename := str "notes.txt"; mediaType := Document |} in
  let msg := {| id := str "msg_1"; timestamp := str "2025-01-13T11:52:46";
                sender := str "Alice"; content := str "<attached: notes.txt>";
                type := Media; media := Some mi |} in
  getMediaFiles files = Ok kept
  /\ In {| m_messageId := id msg; m_filename := filename mi |}
        (fst (validateMediaReferences [msg] kept)).
Proof.
  intros files kept mi msg.
  assert (H : getMediaFiles files = Ok kept) by (vm_compute; reflexivity).
  split; [exact H|].
  apply (@foreign_name_reported files kept [msg] msg mi H);
    [now left | reflexivity | discriminate | vm_compute; discriminate].
Defined.

(** ** The calendar *)

Local Open Scope Z_scope.

Ltac split_ifs :=
  repeat match goal with
         | |- context [if ?b then _ else _] =>
             match b with
             | ?x <? ?y => destruct (Z.ltb_spec x y)
             | ?x <=? ?y => destruct (Z.leb_spec x y)
             end
         end.

(** From a day number to the date and back. *)
Lemma days_of_civil (z : Z) :
  let '(y, mo, d) := civil_from_days z in days_from_civil y mo d = z.
Proof.
  unfold civil_from_days, days_from_civil. cbv zeta.
  split_ifs; Z.to_euclidean_division_equations; lia.
Qed.

Lemma civil_month_day (z : Z) :
  let '(y, mo, d) := civil_from_days z in 1 <= mo <= 12 /\ 1 <= d <= 31.
Proof.
  unfold civil_from_days. cbv zeta.
  split_ifs; Z.to_euclidean_division_equations; lia.
Qed.

Lemma civil_year (z : Z) :
  0 <= z -> let '(y, mo, d) := civil_from_days z in 1900 <= y.
Proof.
  unfold civil_from_days. cbv zeta. intro H.
  split_ifs; Z.to_euclidean_division_equations; lia.
Qed.

Lemma is_leap_era (a k : Z) : is_leap (a + k * 400) = is_leap a.
Proof.
  unfold is_leap.
  replace ((a + k * 400) mod 4) with (a mod 4)
    by (replace (a + k * 400) with (a + (k * 100) * 4) by ring;
        now rewrite Z_mod_plus_full).
  replace ((a + k * 400) mod 100) with (a mod 100)
    by (replace (a + k * 400) with (a + (k * 4) * 100) by ring;
        now rewrite Z_mod_plus_full).
  now rewrite Z_mod_plus_full.
Qed.

Lemma is_leap_true (y : Z) :
  is_leap y = true -> y mod 4 = 0 /\ (y mod 100 <> 0 \/ y mod 400 = 0).
Proof.
  unfold is_leap. intro H. apply andb_true_iff in H as [H1 H2].
  apply Z.eqb_eq in H1. split; [assumption|].
  apply orb_true_iff in H2 as [H2 | H2].
  - left. apply negb_true_iff in H2. now apply Z.eqb_neq in H2.
  - right. now apply Z.eqb_eq in H2.
Qed.

(** The day of the year, counted from the first of March, gives month
    and day back; it is the 366th only on the 29th of February. *)
Lemma day_of_year (y mo d : Z) :
  1 <= mo <= 12 -> 1 <= d <= days_in_month y mo ->
  let mp := if 2 <? mo then mo - 3 else mo + 9 in
  let doy := (153 * mp + 2) / 5 + d - 1 in
  0 <= doy <= 365
  /\ (doy = 365 -> is_leap y = true /\ mo = 2)
  /\ (5 * doy + 2) / 153 = mp
  /\ doy - (153 * mp + 2) / 5 + 1 = d.
Proof.
  intros Hmo Hd.
  assert (Hm : mo = 1 \/ mo = 2 \/ mo = 3 \/ mo = 4 \/ mo = 5 \/ mo = 6 \/ mo = 7
               \/ mo = 8 \/ mo = 9 \/ mo = 10 \/ mo = 11 \/ mo = 12) by lia.
  unfold days_in_month in Hd.
  repeat destruct Hm as [Hm | Hm]; subst mo; simpl in Hd; cbv zeta;
    match goal with
    | |- context [2 <? ?k] =>
        let b := eval vm_compute in (2 <? k) in change (2 <? k) with b
    end;
    cbv iota;
    try destruct (is_leap y);
    (split; [|split; [|split]]);
    try (Z.to_euclidean_division_equations; lia);
    intro E;
    first [ split; reflexivity | exfalso; Z.to_euclidean_division_equations; lia ].
Qed.

Lemma year_of_era (yoe doy : Z) :
  0 <= yoe <= 399 -> 0 <= doy <= 365 ->
  (doy = 365 -> (yoe + 1) mod 4 = 0 /\ ((yoe + 1) mod 100 <> 0 \/ yoe = 399)) ->
  let doe := yoe * 365 + yoe / 4 - yoe / 100 + doy in
  0 <= doe < 146097
  /\ (doe - doe / 1460 + doe / 36524 - doe / 146096) / 365 = yoe.
Proof.
  intros Hy Hd Hl. cbv zeta. split; Z.to_euclidean_division_equations; lia.
Qed.

Lemma civil_from_days_era (z : Z) :
  civil_from_days z
  = let z' := z + 719468 in
    let era := z' / 146097 in
    let '(yoe, mo, d) := date_of_era (z' - era * 146097) in
    (if mo <=? 2 then yoe + era * 400 + 1 else yoe + era * 400, mo, d).
Proof. reflexivity. Qed.

(** From a date of the calendar to its day number and back. *)
Lemma civil_of_days (y mo d : Z) :
  1 <= mo <= 12 -> 1 <= d <= days_in_month y mo ->
  civil_from_days (days_from_civil y mo d) = (y, mo, d).
Proof.
  intros Hmo Hd.
  set (delta := if mo <=? 2 then 1 else 0).
  set (era := (y - delta) / 400).
  set (yoe := y - delta - era * 400).
  assert (Hyoe : 0 <= yoe < 400).
  { unfold yoe, era. pose proof (Z.mod_pos_bound (y - delta) 400 eq_refl) as H.
    rewrite Z.mod_eq in H by lia. lia. }
  assert (Hdays : days_from_civil y mo d = era * 146097 + day_of_era yoe mo d - 719468).
  { unfold days_from_civil, day_of_era, yoe, era, delta.
    destruct (mo <=? 2); cbv zeta; rewrite ?Z.sub_0_r; reflexivity. }
  destruct (day_of_year y Hmo Hd) as (Hdoy & H365 & Hmp & Hdd).
  set (mp := if 2 <? mo then mo - 3 else mo + 9) in *.
  set (doy := (153 * mp + 2) / 5 + d - 1) in *.
  assert (Hl : doy = 365 ->
               (yoe + 1) mod 4 = 0 /\ ((yoe + 1) mod 100 <> 0 \/ yoe = 399)).
  { intro E. destruct (H365 E) as [Hleap ->].
    assert (Ey : y = yoe + 1 + era * 400) by (unfold yoe, delta; simpl; ring).
    rewrite Ey, is_leap_era in Hleap. apply is_leap_true in Hleap as [H4 H100].
    split; [assumption|]. destruct H100 as [H100 | H400]; [now left | right].
    Z.to_euclidean_division_equations; lia. }
  destruct (@year_of_era yoe doy ltac:(lia) Hdoy Hl) as [Hdoe Hy].
  rewrite Hdays, civil_from_days_era. cbv zeta.
  replace (era * 146097 + day_of_era yoe mo d - 719468 + 719468)
    with (day_of_era yoe mo d + era * 146097) by ring.
  assert (Edoe : day_of_era yoe mo d = yoe * 365 + yoe / 4 - yoe / 100 + doy)
    by reflexivity.
  rewrite Z.div_add by lia. rewrite (Z.div_small (day_of_era yoe mo d)) by lia.
  replace (day_of_era yoe mo d + era * 146097 - (0 + era) * 146097)
    with (day_of_era yoe mo d) by ring.
  unfold date_of_era. rewrite Edoe. cbv zeta. rewrite Hy.
  replace (yoe * 365 + yoe / 4 - yoe / 100 + doy - (365 * yoe + yoe / 4 - yoe / 100))
    with doy by ring.
  rewrite Hmp, Hdd.
  assert (Emo : (if mp <? 10 then mp + 3 else mp - 9) = mo).
  { unfold mp. destruct (Z.ltb_spec 2 mo); split_ifs; lia. }
  rewrite Emo. f_equal. f_equal. unfold yoe, delta. destruct (mo <=? 2); ring.
Qed.

(** ** Timestamps as moments *)

Lemma is_digit_In (c : char) : is_digit c = true -> In c digit_chars.
Proof.
  unfold is_digit. intro H. apply andb_true_iff in H as [H1 H2].
  apply N.leb_le in H1. apply N.leb_le in H2. unfold digit_chars.
  assert (c = 48 \/ c = 49 \/ c = 50 \/ c = 51 \/ c = 52 \/ c = 53 \/ c = 54
          \/ c = 55 \/ c = 56 \/ c = 57)%N as H by lia.
  simpl. intuition auto.
Qed.

Lemma two_digits (a b : char) :
  is_digit a = true -> is_digit b = true ->
  pad_zeros 2 (dec (Z.to_N (dec_value [a; b]))) = [a; b].
Proof.
  intros Ha Hb.
  assert (C : forallb (fun a => forallb (fun b => two_digit_ok a b) digit_chars)
                      digit_chars = true) by (vm_compute; reflexivity).
  rewrite forallb_forall in C.
  specialize (C a (is_digit_In _ Ha)). rewrite forallb_forall in C.
  specialize (C b (is_digit_In _ Hb)). now apply eqs_eq in C.
Qed.

Lemma four_digits (a b c d : char) :
  is_digit a = true -> is_digit b = true -> is_digit c = true -> is_digit d = true ->
  dec_value [a; b; c; d] <= 9999
  /\ pad_zeros 4 (dec (Z.to_N (dec_value [a; b; c; d]))) = [a; b; c; d].
Proof.
  intros Ha Hb Hc Hd.
  assert (C : forallb (fun a =>
                forallb (fun b =>
                  forallb (fun c => forallb (fun d => four_digit_ok a b c d) digit_chars)
                          digit_chars)
                  digit_chars)
                digit_chars = true) by (vm_compute; reflexivity).
  rewrite forallb_forall in C.
  specialize (C a (is_digit_In _ Ha)). rewrite forallb_forall in C.
  specialize (C b (is_digit_In _ Hb)). rewrite forallb_forall in C.
  specialize (C c (is_digit_In _ Hc)). rewrite forallb_forall in C.
  specialize (C d (is_digit_In _ Hd)). apply andb_true_iff in C as [C1 C2].
  apply Z.leb_le in C1. now apply eqs_eq in C2.
Qed.

Lemma field_digits (s : jsstring) (v : Z) :
  field s = Some v -> forallb is_digit s = true /\ v = dec_value s /\ 0 <= v.
Proof.
  unfold field. destruct (forallb is_digit s) eqn:E; [|discriminate].
  intro H. injection H as <-. repeat split. now apply dec_value_nonneg.
Qed.

(** What [new Date(s)] has read when it returns. *)
Lemma Date_parse_inv (e : env) (ts : jsstring) (ms : Z) :
  Date_parse e ts = Ok ms ->
  exists y1 y2 y3 y4 m1 m2 d1 d2 hh1 hh2 mi1 mi2 s1 s2,
    ts = [y1; y2; y3; y4; ch "-"; m1; m2; ch "-"; d1; d2; ch "T";
          hh1; hh2; ch ":"; mi1; mi2; ch ":"; s1; s2]
    /\ forallb is_digit [y1; y2; y3; y4; m1; m2; d1; d2] = true
    /\ 1 <= dec_value [m1; m2] <= 12
    /\ 1 <= dec_value [d1; d2]
       <= days_in_month (dec_value [y1; y2; y3; y4]) (dec_value [m1; m2])
    /\ 0 <= seconds_of_day ts < 86400
    /\ ms = days_from_civil (dec_value [y1; y2; y3; y4]) (dec_value [m1; m2])
                            (dec_value [d1; d2]) * msPerDay
            + seconds_of_day ts * 1000 - tzOffset e * 60000.
Proof.
  unfold Date_parse.
  do 20 (destruct ts as [|? ts]; try discriminate).
  destruct (field [c; c0; c1; c2]) as [y|] eqn:Ey; [|discriminate].
  destruct (field [c4; c5]) as [mo|] eqn:Emo; [|discriminate].
  destruct (field [c7; c8]) as [d|] eqn:Ed; [|discriminate].
  destruct (field [c10; c11]) as [hh|] eqn:Ehh; [|discriminate].
  destruct (field [c13; c14]) as [mi|] eqn:Emi; [|discriminate].
  destruct (field [c16; c17]) as [ss|] eqn:Ess; [|discriminate].
  match goal with |- (if ?b then _ else _) = _ -> _ => destruct b eqn:B end;
    [|discriminate].
  intro H. injection H as <-.
  repeat match goal with
         | H : _ && _ = true |- _ => apply andb_true_iff in H; destruct H
         end.
  repeat match goal with
         | H : eqc _ _ = true |- _ => apply eqc_eq in H; subst
         | H : (_ <=? _) = true |- _ => apply Z.leb_le in H
         end.
  apply field_digits in Ey as (Dy & -> & Hy).
  apply field_digits in Emo as (Dmo & -> & Hmo).
  apply field_digits in Ed as (Dd & -> & Hd).
  apply field_digits in Ehh as (Dhh & -> & Hhh).
  apply field_digits in Emi as (Dmi & -> & Hmi).
  apply field_digits in Ess as (Dss & -> & Hss).
  exists c, c0, c1, c2, c4, c5, c7, c8, c10, c11, c13, c14, c16, c17.
  split; [reflexivity|]. split.
  { cbn [forallb] in *.
    repeat match goal with
           | H : _ && _ = true |- _ => apply andb_true_iff in H; destruct H
           end.
    repeat match goal with
           | H : is_digit _ = true |- _ => rewrite H; clear H
           end.
    reflexivity. }
  cbn [seconds_of_day]. repeat split; try lia.
Qed.

Lemma pad_zeros_short (width : nat) (s : jsstring) :
  (width <= List.length s)%nat -> pad_zeros width s = s.
Proof.
  intro H. unfold pad_zeros.
  replace (width - List.length s)%nat with 0%nat by lia. reflexivity.
Qed.

(** A timestamp read as local time and written as a UTC date gives its
    own date back when its time of day, moved by the offset of the zone,
    stays within the day. *)
Lemma own_date (e : env) (ts : jsstring) (ms : Z) :
  Date_parse e ts = Ok ms ->
  0 <= seconds_of_day ts - tzOffset e * 60 < 86400 ->
  iso_date ms = firstn 10 ts.
Proof.
  intros H Hr.
  apply Date_parse_inv in H
    as (y1 & y2 & y3 & y4 & m1 & m2 & d1 & d2 & hh1 & hh2 & mi1 & mi2 & s1 & s2
        & -> & Hdig & Hmo & Hd & Hs & ->).
  set (ts := [y1; y2; y3; y4; ch "-"; m1; m2; ch "-"; d1; d2; ch "T";
              hh1; hh2; ch ":"; mi1; mi2; ch ":"; s1; s2]) in *.
  cbn [forallb] in Hdig.
  repeat match goal with
         | H : _ && _ = true |- _ => apply andb_true_iff in H; destruct H
         end.
  unfold iso_date.
  set (D := days_from_civil (dec_value [y1; y2; y3; y4]) (dec_value [m1; m2])
                            (dec_value [d1; d2])).
  replace ((D * msPerDay + seconds_of_day ts * 1000 - tzOffset e * 60000) / msPerDay)
    with D.
  2:{ apply Z.div_unique with
        (r := (seconds_of_day ts - tzOffset e * 60) * 1000); unfold msPerDay; lia. }
  unfold D. rewrite civil_of_days by assumption.
  destruct (@four_digits y1 y2 y3 y4) as [Hy4 Ey]; try assumption.
  assert (Hy0 : 0 <= dec_value [y1; y2; y3; y4]).
  { apply dec_value_nonneg. cbn [forallb].
    repeat match goal with
           | H : is_digit ?c = true |- context [is_digit ?c] => rewrite H
           end.
    reflexivity. }
  replace ((0 <=? dec_value [y1; y2; y3; y4]) && (dec_value [y1; y2; y3; y4] <=? 9999))
    with true
    by (symmetry; apply andb_true_iff; split; apply Z.leb_le; lia).
  rewrite Ey, !two_digits by assumption. reflexivity.
Qed.

(** X16: the date key of a timestamp, and so the date under which the
    page puts a message, is the date that the timestamp itself names
    whenever its time of day is at least the offset of the time zone east
    of UTC (and, west of UTC, less than a day minus the offset); on a
    machine on UTC this is always so. *)
Theorem date_key_own_date (e : env) (ts : jsstring) (ms : Z) :
  Date_parse e ts = Ok ms ->
  (0 <= seconds_of_day ts - tzOffset e * 60 < 86400 ->
   getDateKey e ts = Ok (firstn 10 ts))
  /\ (tzOffset e = 0 -> getDateKey e ts = Ok (firstn 10 ts)).
Proof.
  intro H.
  assert (A : 0 <= seconds_of_day ts - tzOffset e * 60 < 86400 ->
              getDateKey e ts = Ok (firstn 10 ts)).
  { intro Hr. unfold getDateKey. rewrite H. cbn [bind]. f_equal.
    eapply own_date; eassumption. }
  split; [exact A|]. intro E. apply A. rewrite E.
  apply Date_parse_inv in H.
  destruct H as (? & ? & ? & ? & ? & ? & ? & ? & ? & ? & ? & ? & ? & ? & _ & _ & _
                 & _ & H & _).
  lia.
Qed.

Lemma date_key_own_date_example :
  let e := {| tzOffset := 330; now := 0 |} in
  let ts := str "2025-06-18T05:30:00" in
  Date_parse e ts = Ok 1750204800000
  /\ (0 <= seconds_of_day ts - tzOffset e * 60 < 86400 ->
      getDateKey e ts = Ok (firstn 10 ts))
  /\ (tzOffset e = 0 -> getDateKey e ts = Ok (firstn 10 ts)).
Proof.
  intros e ts.
  assert (H : Date_parse e ts = Ok 1750204800000) by (vm_compute; reflexivity).
  split; [exact H|]. exact (@date_key_own_date e ts 1750204800000 H).
Defined.

Lemma Forall_times (e : env) (msgs : list message) :
  Forall (fun msg =>
            exists t, Date_parse e (timestamp msg) = Ok t
                      /\ 0 <= seconds_of_day (timestamp msg) - tzOffset e * 60 < 86400)
         msgs ->
  exists times, Forall2 (fun msg t => Date_parse e (timestamp msg) = Ok t) msgs times.
Proof.
  induction 1 as [|msg msgs (t & Ht & _) _ (times & IH)]; [exists []; constructor|].
  exists (t :: times). now constructor.
Qed.

Lemma Forall2_In_right (e : env) (msgs : list message) (times : list Z) (t : Z) :
  Forall2 (fun msg t => Date_parse e (timestamp msg) = Ok t) msgs times ->
  In t times -> exists msg, In msg msgs /\ Date_parse e (timestamp msg) = Ok t.
Proof.
  induction 1 as [|msg t0 msgs times H0 _ IH]; intros []; subst.
  - exists msg. split; [now left | assumption].
  - destruct (IH H) as (m' & Hin & Hm). exists m'. split; [now right | assumption].
Qed.

Lemma Forall2_In_left (e : env) (msgs : list message) (times : list Z) (msg : message) :
  Forall2 (fun msg t => Date_parse e (timestamp msg) = Ok t) msgs times ->
  In msg msgs -> exists t, In t times /\ Date_parse e (timestamp msg) = Ok t.
Proof.
  induction 1 as [|m0 t0 msgs times H0 _ IH]; intros []; subst.
  - exists t0. split; [now left | assumption].
  - destruct (IH H) as (t & Hin & Hm). exists t. split; [now right | assumption].
Qed.

(** X17: when every timestamp names a moment of the calendar whose time
    of day, moved by the offset of the zone, stays within the day (on a
    machine on UTC: always), the date range of the metadata runs from the
    date of the earliest message to the date of the latest, both as the
    timestamps write them. *)
Theorem date_range_own_dates (e : env) (msg0 : message) (msgs : list message)
        (name : jsstring) :
  Forall (fun msg =>
            exists t, Date_parse e (timestamp msg) = Ok t
                      /\ 0 <= seconds_of_day (timestamp msg) - tzOffset e * 60 < 86400)
         (msg0 :: msgs) ->
  exists md first last t0 t1,
    extractMetadata e (msg0 :: msgs) name = Ok md
    /\ In first (msg0 :: msgs) /\ In last (msg0 :: msgs)
    /\ dateRange md = {| start := Some (firstn 10 (timestamp first));
                         end_ := Some (firstn 10 (timestamp last)) |}
    /\ Date_parse e (timestamp first) = Ok t0
    /\ Date_parse e (timestamp last) = Ok t1
    /\ forall msg t, In msg (msg0 :: msgs) -> Date_parse e (timestamp msg) = Ok t ->
                     t0 <= t <= t1.
Proof.
  intro H. destruct (@Forall_times e (msg0 :: msgs) H) as (times & H2).
  destruct times as [|t times]; [inversion H2|].
  destruct (@extractMetadata_range e msg0 msgs name t times H2)
    as (md & lo & hi & Hmd & Hr & Ilo & Ihi & Hall).
  destruct (@Forall2_In_right e _ _ lo H2 Ilo) as (first & If & Hf).
  destruct (@Forall2_In_right e _ _ hi H2 Ihi) as (last & Il & Hl).
  exists md, first, last, lo, hi. rewrite Forall_forall in H.
  split; [assumption|]. split; [assumption|]. split; [assumption|].
  split; [|split; [assumption|split; [assumption|]]].
  - rewrite Hr. f_equal.
    + f_equal. destruct (H _ If) as (t' & Ht' & Hrange).
      eapply own_date; [exact Hf | assumption].
    + f_equal. destruct (H _ Il) as (t' & Ht' & Hrange).
      eapply own_date; [exact Hl | assumption].
  - intros msg t' Hin Hp.
    destruct (@Forall2_In_left e _ _ msg H2 Hin) as (t'' & It & Ht'').
    rewrite Ht'' in Hp. injection Hp as <-.
    rewrite Forall_forall in Hall. now apply Hall.
Qed.

Lemma date_range_own_dates_example :
  let e := {| tzOffset := 0; now := 0 |} in
  let rec_ (ts : jsstring) :=
    {| id := str "msg_1"; timestamp := ts; sender := str "Alice";
       content := str "Hi"; type := Text; media := None |} in
  let msg0 := rec_ (str "2025-06-18T02:00:00") in
  let msgs := [rec_ (str "2025-06-17T23:59:59")] in
  exists md first last t0 t1,
    extractMetadata e (msg0 :: msgs) (str "Family") = Ok md
    /\ In first (msg0 :: msgs) /\ In last (msg0 :: msgs)
    /\ dateRange md = {| start := Some (firstn 10 (timestamp first));
                         end_ := Some (firstn 10 (timestamp last)) |}
    /\ Date_parse e (timestamp first) = Ok t0
    /\ Date_parse e (timestamp last) = Ok t1
    /\ forall msg t, In msg (msg0 :: msgs) -> Date_parse e (timestamp msg) = Ok t ->
                     t0 <= t <= t1.
Proof.
  intros e rec_ msg0 msgs. apply date_range_own_dates.
  constructor; [|constructor; [|constructor]];
    eexists; (split; [vm_compute; reflexivity|]); vm_compute;
    (split; [discriminate | reflexivity]).
Defined.

(** ** The label of a day *)

Lemma MakeDay_fields (y mo d : Z) :
  1 <= mo <= 12 -> MakeDay y (mo - 1) d = days_from_civil y mo d.
Proof.
  intro H. unfold MakeDay.
  rewrite (Z.div_small (mo - 1) 12), (Z.mod_small (mo - 1) 12) by lia.
  replace (y + 0) with y by ring. replace (mo - 1 + 1) with mo by ring.
  unfold days_from_civil. cbv zeta. ring.
Qed.

(** Local midnight of the local day of a moment. *)
Lemma midnight (e : env) (t : Z) :
  0 <= local_day e t ->
  Date_of_fields e (local_fields e t) = local_day e t * msPerDay - tzOffset e * 60000.
Proof.
  intro H. unfold Date_of_fields, local_fields.
  pose proof (days_of_civil (local_day e t)) as Hd.
  pose proof (civil_month_day (local_day e t)) as Hm.
  pose proof (civil_year H) as Hy.
  destruct (civil_from_days (local_day e t)) as [[y mo] d].
  replace ((0 <=? y) && (y <=? 99)) with false
    by (symmetry; apply andb_false_iff; right; apply Z.leb_gt; lia).
  rewrite MakeDay_fields by lia. now rewrite Hd.
Qed.

(** The day before, at the same local time. *)
Lemma day_before (e : env) (t : Z) :
  local_day e (setDate e t (let '(_, _, d) := local_fields e t in d - 1))
  = local_day e t - 1.
Proof.
  unfold setDate, local_fields.
  pose proof (days_of_civil (local_day e t)) as Hd.
  pose proof (civil_month_day (local_day e t)) as Hm.
  destruct (civil_from_days (local_day e t)) as [[y mo] d].
  rewrite MakeDay_fields by lia.
  assert (E : days_from_civil y mo (d - 1) = local_day e t - 1).
  { rewrite <- Hd. unfold days_from_civil. cbv zeta. ring. }
  rewrite E. unfold local_day at 1.
  pose proof (Z.mod_pos_bound (t + tzOffset e * 60000) msPerDay eq_refl) as Hr.
  symmetry. apply Z.div_unique with (r := (t + tzOffset e * 60000) mod msPerDay);
    [lia | ring].
Qed.

Lemma midnight_eqb (a b c : Z) :
  (a * msPerDay - c =? b * msPerDay - c) = (a =? b).
Proof.
  unfold msPerDay. destruct (Z.eqb_spec a b) as [->|H].
  - apply Z.eqb_refl.
  - apply Z.eqb_neq. lia.
Qed.

(** X18: for a timestamp and a clock on or after 1 and 2 January 1970,
    local time, the label that [formatDate] returns is [Today] if the
    timestamp lies on the local day of the clock, [Yesterday] if it lies
    on the day before, and the long form of the date otherwise; and the
    local day of a timestamp is the same in every time zone. *)
Theorem formatDate_label (toLocaleDateString : Z -> jsstring) (e : env)
        (ts : jsstring) (ms : Z) :
  Date_parse e ts = Ok ms ->
  0 <= local_day e ms -> 1 <= local_day e (now e) ->
  formatDate toLocaleDateString e ts
  = Ok (if local_day e ms =? local_day e (now e) then str "Today"
        else if local_day e ms =? local_day e (now e) - 1 then str "Yesterday"
        else toLocaleDateString ms)
  /\ forall e' ms', Date_parse e' ts = Ok ms' -> local_day e' ms' = local_day e ms.
Proof.
  intros H HD HN. split.
  - unfold formatDate. rewrite H. cbn [bind]. cbv zeta.
    rewrite (midnight e ms HD), (midnight e (now e)) by lia.
    rewrite midnight by (rewrite day_before; lia).
    rewrite day_before, !midnight_eqb.
    destruct (local_day e ms =? local_day e (now e)); [reflexivity|].
    destruct (local_day e ms =? local_day e (now e) - 1); reflexivity.
  - intros e' ms' H'.
    apply Date_parse_inv in H
      as (y1 & y2 & y3 & y4 & m1 & m2 & d1 & d2 & hh1 & hh2 & mi1 & mi2 & s1 & s2
          & -> & _ & _ & _ & _ & ->).
    apply Date_parse_inv in H'
      as (? & ? & ? & ? & ? & ? & ? & ? & ? & ? & ? & ? & ? & ? & E & _ & _ & _ & _ & ->).
    injection E as <- <- <- <- <- <- <- <- <- <- <- <- <- <-.
    unfold local_day. f_equal. ring.
Qed.

Lemma formatDate_label_example :
  let e := {| tzOffset := 330; now := 1750200000000 |} in
  let ts := str "2025-06-18T02:00:00" in
  let ms := 1750192200000 in
  let toLocaleDateString := fun _ : Z => str "June 18, 2025" in
  Date_parse e ts = Ok ms
  /\ formatDate toLocaleDateString e ts
     = Ok (if local_day e ms =? local_day e (now e) then str "Today"
           else if local_day e ms =? local_day e (now e) - 1 then str "Yesterday"
           else toLocaleDateString ms)
  /\ forall e' ms', Date_parse e' ts = Ok ms' -> local_day e' ms' = local_day e ms.
Proof.
  intros e ts ms f.
  assert (H : Date_parse e ts = Ok ms) by (vm_compute; reflexivity).
  split; [exact H|].
  apply (@formatDate_label f e ts ms H); vm_compute; discriminate.
Defined.

Local Close Scope Z_scope.

(** ** Messages by date *)

Lemma lookup_push_at (key : jsstring) (msg : message) (o : by_date) (k : jsstring) :
  lookup k (push_at key msg o)
  = if eqs key k then lookup k o ++ [msg] else lookup k o.
Proof.
  unfold lookup. induction o as [|[k0 l0] o IH]; cbn [push_at find fst snd].
  - destruct (eqs key k); reflexivity.
  - destruct (eqs k0 key) eqn:E0; cbn [find fst snd].
    + apply eqs_eq in E0. subst k0. destruct (eqs key k); [reflexivity|reflexivity].
    + destruct (eqs k0 k) eqn:E1; [|exact IH].
      apply eqs_eq in E1. subst k0. rewrite eqs_sym, E0. reflexivity.
Qed.

Lemma keys_push_at (key : jsstring) (msg : message) (o : by_date) :
  List.map fst (push_at key msg o) = set_add key (List.map fst o).
Proof.
  unfold set_add. induction o as [|[k0 l0] o IH]; [reflexivity|].
  cbn [push_at List.map fst existsb]. rewrite (eqs_sym key k0).
  destruct (eqs k0 key); cbn [List.map fst orb]; [reflexivity|].
  rewrite IH. destruct (existsb (eqs key) (List.map fst o)); reflexivity.
Qed.

Lemma group_from_spec (e : env) (msgs : list message) :
  forall o o',
    group_from e o msgs = Ok o' ->
    exists keys,
      Forall2 (fun msg k => getDateKey e (timestamp msg) = Ok k) msgs keys
      /\ List.map fst o' = fold_left (fun l x => set_add x l) keys (List.map fst o)
      /\ forall k, lookup k o' = lookup k o ++ filter (has_key e k) msgs.
Proof.
  induction msgs as [|msg msgs IH]; intros o o' H.
  - injection H as <-. exists []. repeat split; [constructor|].
    intro k. now rewrite app_nil_r.
  - cbn [group_from] in H.
    destruct (getDateKey e (timestamp msg)) as [key| |] eqn:Ek; cbn [bind] in H;
      try discriminate.
    destruct (IH _ _ H) as (keys & HF & Hk & Hl).
    exists (key :: keys). split; [now constructor|]. split.
    + rewrite Hk, keys_push_at. reflexivity.
    + intro k. rewrite Hl, lookup_push_at. cbn [filter]. unfold has_key at 2.
      rewrite Ek. destruct (eqs key k); [now rewrite <- app_assoc | reflexivity].
Qed.

Lemma str_leb_total (a b : jsstring) : str_leb a b = false -> str_leb b a = true.
Proof.
  revert b. induction a as [|x a IH]; intros [|y b]; cbn [str_leb]; try discriminate;
    try reflexivity.
  intro H. apply orb_false_iff in H as [H1 H2]. apply N.ltb_ge in H1.
  unfold eqc in *. destruct (N.eqb_spec x y) as [->|Hne].
  - cbn [andb] in H2. rewrite N.eqb_refl, (IH _ H2). apply orb_true_r.
  - assert (Hlt : (y < x)%N) by lia. apply N.ltb_lt in Hlt. now rewrite Hlt.
Qed.

Lemma insert_sorted_In (k x : jsstring) (l : list jsstring) :
  In x (insert_sorted k l) <-> x = k \/ In x l.
Proof.
  induction l as [|y l IH]; cbn [insert_sorted].
  - cbn [In]. intuition auto.
  - destruct (str_leb k y); cbn [In]; [intuition auto|].
    rewrite IH. cbn [In]. intuition auto.
Qed.

Lemma sort_In (x : jsstring) (l : list jsstring) : In x (sort l) <-> In x l.
Proof.
  unfold sort. induction l as [|y l IH]; cbn [fold_right]; [reflexivity|].
  rewrite insert_sorted_In, IH. cbn [In]. intuition auto.
Qed.

Lemma insert_sorted_ascending (k : jsstring) (l : list jsstring) :
  ascending_keys l -> ~ In k l -> ascending_keys (insert_sorted k l).
Proof.
  induction l as [|x l IH]; intros Hl Hk.
  - cbn. auto.
  - cbn [insert_sorted]. destruct (str_leb k x) eqn:E.
    + split; [|exact Hl]. split; [exact E|]. intros ->. apply Hk. now left.
    + destruct Hl as [Hx Hl].
      assert (Hne : x <> k) by (intros ->; apply Hk; now left).
      assert (Hk' : ~ In k l) by (intro; apply Hk; now right).
      specialize (IH Hl Hk'). split; [|exact IH].
      destruct l as [|y l]; cbn [insert_sorted].
      * split; [now apply str_leb_total|exact Hne].
      * destruct (str_leb k y); [split; [now apply str_leb_total|exact Hne]|exact Hx].
Qed.

Lemma sort_ascending (l : list jsstring) : NoDup l -> ascending_keys (sort l).
Proof.
  unfold sort. induction 1 as [|x l Hx Hl IH]; cbn [fold_right]; [exact I|].
  apply insert_sorted_ascending; [exact IH|]. intro H. apply Hx.
  now apply (sort_In x l).
Qed.

Lemma group_from_total (e : env) (msgs : list message) :
  Forall (fun msg => exists k, getDateKey e (timestamp msg) = Ok k) msgs ->
  forall o, exists o', group_from e o msgs = Ok o'.
Proof.
  induction 1 as [|msg msgs [k Hk] _ IH]; intro o.
  - now exists o.
  - cbn [group_from]. rewrite Hk. cbn [bind]. apply IH.
Qed.

Lemma date_keys_right (e : env) (msgs : list message) (keys : list jsstring)
    (k : jsstring) :
  Forall2 (fun msg k => getDateKey e (timestamp msg) = Ok k) msgs keys ->
  In k keys -> exists msg, In msg msgs /\ getDateKey e (timestamp msg) = Ok k.
Proof.
  induction 1 as [|msg k0 msgs keys H0 _ IH]; intros []; subst.
  - exists msg. split; [now left|exact H0].
  - destruct IH as (m & Hm & Hg); [assumption|]. exists m. split; [now right|exact Hg].
Qed.

Lemma date_keys_left (e : env) (msgs : list message) (keys : list jsstring)
    (msg : message) :
  Forall2 (fun msg k => getDateKey e (timestamp msg) = Ok k) msgs keys ->
  In msg msgs -> exists k, In k keys /\ getDateKey e (timestamp msg) = Ok k.
Proof.
  induction 1 as [|m0 k0 msgs keys H0 _ IH]; intros []; subst.
  - exists k0. split; [now left|exact H0].
  - destruct IH as (k & Hk & Hg); [assumption|]. exists k. split; [now right|exact Hg].
Qed.

Lemma group_keys (e : env) (msgs : list message) (o : by_date) :
  group_from e [] msgs = Ok o ->
  exists keys,
    Forall2 (fun msg k => getDateKey e (timestamp msg) = Ok k) msgs keys
    /\ List.map fst o = first_occurrences keys
    /\ forall k, lookup k o = filter (has_key e k) msgs.
Proof.
  intro Ho. destruct (@group_from_spec e msgs [] o Ho) as (keys & HF & Hk & Hl).
  exists keys. split; [exact HF|]. split; [|exact Hl].
  rewrite Hk. cbn [List.map]. rewrite fold_set_add. cbn [app].
  apply filter_always.
Qed.

(** X19.  Grouping by date in [generateHtmlFile].  When every timestamp
    gives a date key, the grouping succeeds; the date keys of the page go
    strictly upwards in the order of their code units; they are exactly the
    date keys of the messages; and under each key stand the messages of
    that date, all of them, in the order of the transcript. *)
Theorem messages_by_date (e : env) (msgs : list message) :
  Forall (fun msg => exists k, getDateKey e (timestamp msg) = Ok k) msgs ->
  exists o,
    messagesByDate e msgs = Ok o
    /\ ascending_keys (dateKeys o)
    /\ (forall k, In k (dateKeys o)
                  <-> exists msg, In msg msgs /\ getDateKey e (timestamp msg) = Ok k)
    /\ (forall k, lookup k o = filter (has_key e k) msgs).
Proof.
  intro Hall. destruct (@group_from_total e msgs Hall []) as [o Ho].
  exists o. split; [exact Ho|].
  destruct (@group_keys e msgs o Ho) as (keys & HF & Hk & Hl).
  split; [|split].
  - unfold dateKeys. rewrite Hk. apply sort_ascending, first_occurrences_NoDup.
  - intro k. unfold dateKeys. rewrite sort_In, Hk, first_occurrences_In. split.
    + intro Hin. destruct (@date_keys_right e msgs keys k HF Hin) as (msg & Hm & Hg).
      now exists msg.
    + intros (msg & Hm & Hg).
      destruct (@date_keys_left e msgs keys msg HF Hm) as (k' & Hk' & Hg').
      rewrite Hg in Hg'. now injection Hg' as ->.
  - exact Hl.
Qed.

Lemma messages_by_date_example :
  let e := {| tzOffset := 0; now := 0 |} in
  let rec_ (ts : jsstring) :=
    {| id := str "msg_1"; timestamp := ts; sender := str "Alice";
       content := str "Hi"; type := Text; media := None |} in
  let msgs := [rec_ (str "2025-06-18T10:00:00"); rec_ (str "2025-06-17T09:00:00");
               rec_ (str "2025-06-18T11:00:00")] in
  exists o,
    messagesByDate e msgs = Ok o
    /\ ascending_keys (dateKeys o)
    /\ (forall k, In k (dateKeys o)
                  <-> exists msg, In msg msgs /\ getDateKey e (timestamp msg) = Ok k)
    /\ (forall k, lookup k o = filter (has_key e k) msgs).
Proof.
  intros e rec_ msgs. apply messages_by_date.
  constructor; [eexists; vm_compute; reflexivity|].
  constructor; [eexists; vm_compute; reflexivity|].
  constructor; [eexists; vm_compute; reflexivity|].
  constructor.
Defined.

(** ** The directory of a chat *)

Lemma alnum_i_ascii (c : char) :
  (c < 128)%N -> alnum_i c = letter_or_digit c.
Proof.
  intro Hc.
  assert (Hall : forallb (fun c => Bool.eqb (alnum_i c) (letter_or_digit c))
                   (List.map N.of_nat (seq 0 128)) = true)
    by (vm_compute; reflexivity).
  rewrite forallb_forall in Hall.
  apply Bool.eqb_prop, Hall, in_map_iff. exists (N.to_nat c).
  split; [apply N2Nat.id|]. apply in_seq. lia.
Qed.

Lemma alnum_i_beyond (c : char) : (128 <= c)%N -> alnum_i c = false.
Proof.
  intro Hc. unfold alnum_i.
  destruct (existsb (fun a => eqc_i a c) (str "abcdefghijklmnopqrstuvwxyz0123456789"))
    eqn:E; [|reflexivity].
  apply existsb_exists in E as (a & Ha & E).
  assert (Hall : forallb (fun a => (upper_ascii a <=? 122)%N)
                   (str "abcdefghijklmnopqrstuvwxyz0123456789") = true)
    by (vm_compute; reflexivity).
  rewrite forallb_forall in Hall. specialize (Hall a Ha). apply N.leb_le in Hall.
  unfold eqc_i, eqc in E. apply N.eqb_eq in E.
  unfold upper_ascii in E at 2.
  destruct ((97 <=? c)%N && (c <=? 122)%N) eqn:Ec.
  - apply andb_true_iff in Ec as [_ Ec]. apply N.leb_le in Ec. lia.
  - lia.
Qed.

Lemma alnum_i_letter_or_digit (c : char) : alnum_i c = letter_or_digit c.
Proof.
  destruct (N.lt_ge_cases c 128) as [H|H]; [now apply alnum_i_ascii|].
  rewrite (alnum_i_beyond H). unfold letter_or_digit.
  repeat match goal with
         | |- context [(?a <=? ?b)%N] => destruct (N.leb_spec a b)
         end; try reflexivity; lia.
Qed.

Lemma outputDirName_map (chatName : jsstring) :
  outputDirName chatName
  = List.map (fun c => if letter_or_digit c then c else ch "_") chatName.
Proof.
  unfold outputDirName. rewrite replace_with_class.
  induction chatName as [|c s IH]; [reflexivity|].
  cbn [flat_map List.map]. rewrite IH, alnum_i_letter_or_digit.
  destruct (letter_or_digit c); reflexivity.
Qed.

(** X20.  The directory of a chat, [chatName.replace(/[^a-z0-9]/gi, '_')]
    in [processChat], has as many code units as the name of the chat;
    a letter of the English alphabet or a digit stays where it is and as
    it is, and any other code unit becomes an underscore. *)
Theorem outputDirName_units (chatName : jsstring) :
  List.length (outputDirName chatName) = List.length chatName
  /\ forall i c,
       nth_error chatName i = Some c ->
       nth_error (outputDirName chatName) i
       = Some (if letter_or_digit c then c else ch "_").
Proof.
  rewrite outputDirName_map. split; [apply length_map|].
  intros i c H. rewrite nth_error_map, H. reflexivity.
Qed.

(** X21.  Two chats are written into the same directory exactly when
    their names have the same length and differ only at places where
    neither has a letter of the English alphabet or a digit. *)
Theorem outputDirName_collide (a b : jsstring) :
  outputDirName a = outputDirName b
  <-> Forall2 (fun x y => x = y \/ (letter_or_digit x = false /\ letter_or_digit y = false))
        a b.
Proof.
  rewrite !outputDirName_map. revert b.
  induction a as [|x a IH]; intros [|y b]; cbn [List.map].
  - split; [constructor|reflexivity].
  - split; [discriminate|]. intro H. inversion H.
  - split; [discriminate|]. intro H. inversion H.
  - split.
    + intro H. injection H as Hxy Hab. constructor; [|now apply IH].
      destruct (letter_or_digit x) eqn:Ex, (letter_or_digit y) eqn:Ey.
      * now left.
      * subst x. discriminate Ex.
      * subst y. discriminate Ey.
      * now right.
    + intro H. inversion H as [|? ? ? ? Hxy Hab]; subst.
      apply IH in Hab. rewrite Hab. f_equal.
      destruct Hxy as [->|[-> ->]]; reflexivity.
Qed.

(** ** The order of the date keys *)

Local Open Scope Z_scope.

Ltac const_tests :=
  repeat match goal with
         | |- context [?a <=? ?b] =>
             let v := eval vm_compute in (a <=? b) in
             match v with true => idtac | false => idtac end;
             change (a <=? b) with v
         | |- context [?a <? ?b] =>
             let v := eval vm_compute in (a <? b) in
             match v with true => idtac | false => idtac end;
             change (a <? b) with v
         | |- context [?a =? ?b] =>
             let v := eval vm_compute in (a =? b) in
             match v with true => idtac | false => idtac end;
             change (a =? b) with v
         end; cbv iota; cbn [orb].

(** The day after the last day of a month is the first day of the next. *)
Lemma next_month (y mo k : Z) :
  1 <= mo <= 12 ->
  days_from_civil y mo (days_in_month y mo + k)
  = if mo =? 12 then days_from_civil (y + 1) 1 k else days_from_civil y (mo + 1) k.
Proof.
  intro H.
  assert (mo = 1 \/ mo = 2 \/ mo = 3 \/ mo = 4 \/ mo = 5 \/ mo = 6 \/ mo = 7 \/ mo = 8
          \/ mo = 9 \/ mo = 10 \/ mo = 11 \/ mo = 12) as Hm by lia.
  unfold days_from_civil, days_in_month.
  repeat (destruct Hm as [-> | Hm]); try subst mo; cbv zeta; const_tests.
  all: try (Z.to_euclidean_division_equations; lia).
  unfold is_leap.
  destruct (Z.eqb_spec (y mod 4) 0); destruct (Z.eqb_spec (y mod 100) 0);
    destruct (Z.eqb_spec (y mod 400) 0); cbn [negb orb andb];
    Z.to_euclidean_division_equations; lia.
Qed.

Lemma next_day (y mo d : Z) :
  days_from_civil y mo (d + 1) = days_from_civil y mo d + 1.
Proof. unfold days_from_civil. cbv zeta. ring. Qed.

Lemma days_in_month_bounds (y mo : Z) : 28 <= days_in_month y mo <= 31.
Proof.
  unfold days_in_month.
  destruct (mo =? 2); [destruct (is_leap y); lia|].
  destruct ((mo =? 4) || (mo =? 6) || (mo =? 9) || (mo =? 11))%bool; lia.
Qed.

(** Every day number is the day of a date of the calendar. *)
Lemma civil_valid (z : Z) (y mo d : Z) :
  civil_from_days z = (y, mo, d) ->
  1 <= mo <= 12 /\ 1 <= d <= days_in_month y mo /\ days_from_civil y mo d = z.
Proof.
  intro E.
  pose proof (civil_month_day z) as Hmd. pose proof (days_of_civil z) as Hz.
  rewrite E in Hmd, Hz. destruct Hmd as [Hm Hd].
  split; [exact Hm|]. split; [|exact Hz]. split; [lia|].
  destruct (Z.le_gt_cases d (days_in_month y mo)) as [Hle|Hgt]; [exact Hle|exfalso].
  pose proof (days_in_month_bounds y mo) as Hb.
  pose proof (@next_month y mo (d - days_in_month y mo) Hm) as Hn.
  replace (days_in_month y mo + (d - days_in_month y mo)) with d in Hn by ring.
  rewrite Hz in Hn.
  destruct (Z.eqb_spec mo 12) as [->|Hne].
  - pose proof (days_in_month_bounds (y + 1) 1) as Hb'.
    assert (E' : civil_from_days z = (y + 1, 1, d - days_in_month y 12))
      by (rewrite Hn; apply civil_of_days; lia).
    rewrite E in E'. injection E' as _ E'. discriminate E'.
  - pose proof (days_in_month_bounds y (mo + 1)) as Hb'.
    assert (E' : civil_from_days z = (y, mo + 1, d - days_in_month y mo))
      by (rewrite Hn; apply civil_of_days; lia).
    rewrite E in E'. injection E' as E' _. lia.
Qed.

Lemma civil_next (z : Z) :
  date_number (civil_from_days z) < date_number (civil_from_days (z + 1)).
Proof.
  destruct (civil_from_days z) as [[y mo] d] eqn:E.
  destruct (@civil_valid z y mo d E) as (Hm & Hd & Hz).
  pose proof (days_in_month_bounds y mo) as Hb.
  destruct (Z.eq_dec d (days_in_month y mo)) as [Hlast|Hnot].
  - pose proof (@next_month y mo 1 Hm) as Hn.
    rewrite <- Hlast, next_day, Hz in Hn. rewrite Hn.
    destruct (Z.eqb_spec mo 12) as [->|Hne].
    + pose proof (days_in_month_bounds (y + 1) 1) as Hb'.
      rewrite civil_of_days by lia. unfold date_number. lia.
    + pose proof (days_in_month_bounds y (mo + 1)) as Hb'.
      rewrite civil_of_days by lia. unfold date_number. lia.
  - rewrite <- Hz, <- next_day, civil_of_days by lia. unfold date_number. lia.
Qed.

Lemma civil_monotone (z1 z2 : Z) :
  z1 <= z2 -> date_number (civil_from_days z1) <= date_number (civil_from_days z2).
Proof.
  intro H. replace z2 with (z1 + Z.of_nat (Z.to_nat (z2 - z1))) by lia.
  induction (Z.to_nat (z2 - z1)) as [|n IH].
  - replace (z1 + Z.of_nat 0) with z1 by lia. lia.
  - replace (z1 + Z.of_nat (S n)) with (z1 + Z.of_nat n + 1) by lia.
    pose proof (civil_next (z1 + Z.of_nat n)). lia.
Qed.

Lemma civil_order (z1 z2 : Z) :
  z1 <= z2 <-> date_number (civil_from_days z1) <= date_number (civil_from_days z2).
Proof.
  split; [apply civil_monotone|]. intro H.
  destruct (Z.le_gt_cases z1 z2) as [Hle|Hgt]; [exact Hle|exfalso].
  pose proof (civil_next z2) as Hn.
  pose proof (@civil_monotone (z2 + 1) z1 ltac:(lia)). lia.
Qed.

Lemma digit_of (v : Z) :
  0 <= v <= 9 ->
  is_digit (48 + Z.to_N v)%N = true /\ digit_value (48 + Z.to_N v)%N = v.
Proof.
  intro H. unfold is_digit, digit_value. split; [|lia].
  apply andb_true_iff. split; apply N.leb_le; lia.
Qed.

Lemma digits4 (v : Z) :
  0 <= v <= 9999 ->
  exists a b c d,
    is_digit a = true /\ is_digit b = true /\ is_digit c = true /\ is_digit d = true
    /\ dec_value [a; b; c; d] = v
    /\ pad_zeros 4 (dec (Z.to_N v)) = [a; b; c; d].
Proof.
  intro H.
  destruct (@digit_of (v / 1000) ltac:(Z.to_euclidean_division_equations; lia)) as [Da Va].
  destruct (@digit_of (v / 100 mod 10) ltac:(Z.to_euclidean_division_equations; lia))
    as [Db Vb].
  destruct (@digit_of (v / 10 mod 10) ltac:(Z.to_euclidean_division_equations; lia))
    as [Dc Vc].
  destruct (@digit_of (v mod 10) ltac:(Z.to_euclidean_division_equations; lia)) as [Dd Vd].
  exists (48 + Z.to_N (v / 1000))%N, (48 + Z.to_N (v / 100 mod 10))%N,
         (48 + Z.to_N (v / 10 mod 10))%N, (48 + Z.to_N (v mod 10))%N.
  destruct (@four_digits _ _ _ _ Da Db Dc Dd) as [_ Hp].
  match type of Hp with
  | context [dec_value ?l] => assert (E : dec_value l = v)
  end.
  { unfold dec_value. cbn [fold_left]. rewrite Va, Vb, Vc, Vd.
    Z.to_euclidean_division_equations; lia. }
  rewrite E in Hp. repeat (split; [assumption|]). exact Hp.
Qed.

Lemma digits2 (v : Z) :
  0 <= v <= 99 ->
  exists a b,
    is_digit a = true /\ is_digit b = true
    /\ dec_value [a; b] = v
    /\ pad_zeros 2 (dec (Z.to_N v)) = [a; b].
Proof.
  intro H.
  destruct (@digit_of (v / 10) ltac:(Z.to_euclidean_division_equations; lia)) as [Da Va].
  destruct (@digit_of (v mod 10) ltac:(Z.to_euclidean_division_equations; lia)) as [Db Vb].
  exists (48 + Z.to_N (v / 10))%N, (48 + Z.to_N (v mod 10))%N.
  pose proof (@two_digits _ _ Da Db) as Hp.
  match type of Hp with
  | context [dec_value ?l] => assert (E : dec_value l = v)
  end.
  { unfold dec_value. cbn [fold_left]. rewrite Va, Vb.
    Z.to_euclidean_division_equations; lia. }
  rewrite E in Hp. repeat (split; [assumption|]). exact Hp.
Qed.

Lemma key_order (a b c d e f g h a' b' c' d' e' f' g' h' : char) :
  forallb is_digit [a; b; c; d; e; f; g; h] = true ->
  forallb is_digit [a'; b'; c'; d'; e'; f'; g'; h'] = true ->
  str_leb ([a; b; c; d] ++ ch "-" :: [e; f] ++ ch "-" :: [g; h])
          ([a'; b'; c'; d'] ++ ch "-" :: [e'; f'] ++ ch "-" :: [g'; h']) = true
  <-> dec_value [a; b; c; d] * 10000 + dec_value [e; f] * 100 + dec_value [g; h]
      <= dec_value [a'; b'; c'; d'] * 10000 + dec_value [e'; f'] * 100
         + dec_value [g'; h'].
Proof.
  intros H H'. cbn [forallb] in H, H'. unfold is_digit in H, H'.
  rewrite ?andb_true_iff, ?N.leb_le in H, H'.
  cbn [app str_leb]. unfold dec_value, digit_value, eqc. cbn [fold_left].
  change (ch "-") with 45%N.
  rewrite (N.ltb_irrefl 45), (N.eqb_refl 45). cbn [orb andb].
  rewrite andb_true_r.
  repeat first [ rewrite orb_true_iff | rewrite andb_true_iff
               | rewrite N.ltb_lt | rewrite N.eqb_eq ].
  lia.
Qed.

(** The date key of a moment with a four-digit year: eight digits that
    spell the number of its UTC date. *)
Lemma iso_date_key (ms : Z) :
  four_digit_year ms ->
  exists a b c d e f g h,
    forallb is_digit [a; b; c; d; e; f; g; h] = true
    /\ iso_date ms = [a; b; c; d] ++ ch "-" :: [e; f] ++ ch "-" :: [g; h]
    /\ date_number (civil_from_days (ms / msPerDay))
       = dec_value [a; b; c; d] * 10000 + dec_value [e; f] * 100 + dec_value [g; h].
Proof.
  unfold four_digit_year. intro H.
  assert (Hz : -719528 <= ms / msPerDay <= 2932896)
    by (unfold msPerDay; Z.to_euclidean_division_equations; lia).
  destruct Hz as [Hlo Hhi].
  apply civil_monotone in Hlo. apply civil_monotone in Hhi.
  change (civil_from_days (-719528)) with (0, 1, 1) in Hlo.
  change (civil_from_days 2932896) with (9999, 12, 31) in Hhi.
  unfold iso_date.
  destruct (civil_from_days (ms / msPerDay)) as [[y mo] d] eqn:E.
  destruct (@civil_valid _ _ _ _ E) as (Hm & Hd & _).
  pose proof (days_in_month_bounds y mo) as Hb.
  unfold date_number in *.
  assert (Hy : 0 <= y <= 9999) by lia.
  replace ((0 <=? y) && (y <=? 9999))%bool with true
    by (symmetry; apply andb_true_iff; split; apply Z.leb_le; lia).
  destruct (@digits4 y Hy) as (a & b & c & d' & Da & Db & Dc & Dd & Vy & ->).
  destruct (@digits2 mo ltac:(lia)) as (e & f & De & Df & Vmo & ->).
  destruct (@digits2 d ltac:(lia)) as (g & h & Dg & Dh & Vd & ->).
  exists a, b, c, d', e, f, g, h. cbn [forallb].
  rewrite Da, Db, Dc, Dd, De, Df, Dg, Dh, Vy, Vmo, Vd.
  repeat split.
Qed.

(** X22.  The order in which [generateHtmlFile] sorts the date keys is
    the order of time: for two timestamps that name moments with a
    four-digit year, the key of the first comes before or with the key of
    the second, code unit by code unit, exactly when the UTC day of the
    first is not after that of the second. *)
Theorem date_keys_chronological (e : env) (ts1 ts2 : jsstring) (t1 t2 : Z) :
  Date_parse e ts1 = Ok t1 ->
  Date_parse e ts2 = Ok t2 ->
  four_digit_year t1 ->
  four_digit_year t2 ->
  exists k1 k2,
    getDateKey e ts1 = Ok k1
    /\ getDateKey e ts2 = Ok k2
    /\ (str_leb k1 k2 = true <-> t1 / msPerDay <= t2 / msPerDay).
Proof.
  intros P1 P2 H1 H2. unfold getDateKey. rewrite P1, P2. cbn [bind].
  exists (iso_date t1), (iso_date t2). split; [reflexivity|]. split; [reflexivity|].
  destruct (@iso_date_key t1 H1) as (a & b & c & d & e1 & f & g & h & D1 & -> & N1).
  destruct (@iso_date_key t2 H2)
    as (a' & b' & c' & d' & e' & f' & g' & h' & D2 & -> & N2).
  rewrite (@key_order _ _ _ _ _ _ _ _ _ _ _ _ _ _ _ _ D1 D2), <- N1, <- N2.
  symmetry. apply civil_order.
Qed.

Lemma date_keys_chronological_example :
  let e := {| tzOffset := 0; now := 0 |} in
  exists k1 k2,
    getDateKey e (str "2025-06-18T10:00:00") = Ok k1
    /\ getDateKey e (str "2025-12-01T09:30:00") = Ok k2
    /\ (str_leb k1 k2 = true <-> 1750240800000 / msPerDay <= 1764581400000 / msPerDay).
Proof.
  intro e. apply date_keys_chronological.
  - vm_compute. reflexivity.
  - vm_compute. reflexivity.
  - unfold four_digit_year. lia.
  - unfold four_digit_year. lia.
Defined.

Local Close Scope Z_scope.
